(** * The authenticated request pipeline of the surf-forecast mobile client

    A shallow embedding of
      - [mobile/src/api/client.ts]       (axios client, request and response
                                          interceptors, [isRefreshing] and
                                          [failedQueue], [processQueue]),
      - [mobile/src/auth/tokenStorage.ts] (access token in memory, refresh
                                          token in the secure store),
      - [mobile/src/auth/AuthContext.tsx] (login, register, logout, silent
                                          refresh on mount, [isAuthenticated]).

    The JavaScript program is a set of asynchronous functions run by one
    event loop.  Each [await] of an external operation (an HTTP exchange, a
    SecureStore call) is a suspension point; the code between two suspension
    points runs without interruption.  The embedding is therefore a
    transition system: the state holds the module-level variables, the
    secure store, the React state of [AuthProvider] and, for every
    asynchronous call that has been started, the suspension point it waits
    at together with the local variables that are live there.  An event is
    either a call made by the presentation layer or the completion of one
    awaited external operation; [step] runs the continuation of the source
    up to the next suspension point.  The effect of a SecureStore operation
    takes place when it completes. *)

From Stdlib Require Import String ZArith QArith Bool Lia Lqa.
From stdpp Require Import base list.

Local Open Scope Z_scope.
Local Open Scope nat_scope.

(** ** JavaScript values that occur as tokens *)

Inductive value :=
| undefined
| null
| str (s : string).

(** [if (v)] for such a value: a string is truthy unless it is empty. *)
Definition truthy (v : value) : bool :=
  match v with
  | str s => negb (String.eqb s "")
  | _ => false
  end.

(** The template literal [`${v}`]. *)
Definition template (v : value) : string :=
  match v with
  | undefined => "undefined"
  | null => "null"
  | str s => s
  end.

(** [`Bearer ${token}`] *)
Definition Bearer (token : value) : string := String.append "Bearer " (template token).

Arguments Bearer : simpl never.

(** ** HTTP exchanges as axios presents them *)

(** The members of a response body that the client reads. *)
Record fields := {
  access_token : value;
  refresh_token : value;
  token_type : value;
}.

(** A response; [data] is [None] for a body that is [null] or [undefined]. *)
Record response := {
  status : Z;
  data : option fields;
}.

(** How an HTTP exchange ends: the promise is fulfilled with the response,
    or rejected with an [AxiosError] that carries the response when there is
    one (no response: a transport-level failure). *)
Inductive reply :=
| Fulfilled (r : response)
| Failed (r : option response).

(** The request an [AxiosError] belongs to: the request of call [i] made
    through [apiClient], or the refresh POST that call [i] made with the
    bare [axios]. *)
Inductive origin :=
| ApiCall (i : nat)
| RefreshCall (i : nat).

Inductive error :=
| AxiosError (o : origin) (r : option response)
| TypeError            (* destructuring a null body, client.ts line 77 *)
| SecureStoreError     (* a SecureStore operation threw *)
| ZodError.            (* TokenResponseSchema.parse threw *)

(** What the promise returned by [apiClient(config)] settles with. *)
Inductive outcome :=
| Ok (r : response)
| Err (e : error).

(** [error.response?.status !== 401] is false exactly for these. *)
Definition is401 (r : option response) : bool :=
  match r with
  | Some resp => Z.eqb (status resp) 401
  | None => false
  end.

(** ** Calls and their suspension points *)

(** The asynchronous function a call belongs to. *)
Inductive operation :=
| Fetch           (* a data hook: endpoints.getSpots, getForecast, ... *)
| Login           (* AuthProvider.login *)
| Register        (* AuthProvider.register *)
| SilentRefresh   (* the effect AuthProvider runs on mount *)
| Logout.         (* AuthProvider.logout *)

(** [InternalAxiosRequestConfig & { _retry?: boolean }]: the two members
    the interceptors read and write, and the refresh token the request
    carries in its [data] as [{refresh_token}]: the one posted by
    [endpoints.refreshTokens], [None] for every other request (the e-mail
    and the password that [login] and [register] post are not part of the
    model). *)
Record config := {
  _retry : bool;
  Authorization : option string;
  body : option value;
}.

Inductive phase :=
(* client.ts *)
| AwaitResponse                                   (* the request is on the wire *)
| AwaitGetRefreshToken (error : error)            (* line 51 *)
| Queued                                          (* lines 58-66, promise pending *)
| AwaitRefreshPost (refreshToken : string)        (* line 73 *)
| AwaitSetRefreshToken (refreshToken : string) (access_token newRefresh : value)
                                                  (* line 79 *)
| AwaitClearRefreshToken (refreshError : error)   (* line 88 *)
(* AuthContext.tsx *)
| MountGetRefreshToken                            (* mount effect *)
| AuthSetRefreshToken (access refresh : string)   (* await setRefreshToken *)
| MountClearAll                                   (* mount effect, catch *)
| LogoutClearAll                                  (* logout *)
| Done (result : option outcome).                 (* the call has returned *)

Record task := {
  op : operation;
  originalRequest : config;
  ph : phase;
}.

(** What the outside can see of an execution, in order. *)
Inductive obs :=
| Sent (i : nat) (o : operation) (hdr : option string) (retry : bool)
    (body : option value)
    (* a request left through [apiClient] with this Authorization header
       and, for [POST /api/v1/auth/refresh], this refresh token *)
| RefreshPost (i : nat) (refreshToken : string)
    (* [axios.post('/api/v1/auth/refresh', {refresh_token})], line 73 *)
| WaiterResolved (i : nat) (token : value)   (* [p.resolve(token)], line 19 *)
| WaiterRejected (i : nat) (e : error)       (* [p.reject(error)], line 17 *)
| Returned (i : nat) (r : outcome).
    (* the promise [apiClient(config)] of call [i] settled *)

(** ** The state *)

Record State := {
  accessToken : value;              (* tokenStorage.ts: let accessToken *)
  secureStore : option string;      (* the item under REFRESH_TOKEN_KEY *)
  isRefreshing : bool;              (* client.ts line 8 *)
  failedQueue : list nat;           (* client.ts line 9, a waiter by its call *)
  isAuthenticated : bool;           (* AuthContext.tsx useState(false) *)
  isLoading : bool;                 (* AuthContext.tsx useState(true) *)
  tasks : list task;                (* every call started so far *)
  log : list obs;
}.

Definition init (stored : option string) : State :=
  {| accessToken := null; secureStore := stored; isRefreshing := false;
     failedQueue := []; isAuthenticated := false; isLoading := true;
     tasks := []; log := [] |}.

Definition set_accessToken (v : value) (s : State) : State :=
  {| accessToken := v; secureStore := secureStore s;
     isRefreshing := isRefreshing s; failedQueue := failedQueue s;
     isAuthenticated := isAuthenticated s; isLoading := isLoading s;
     tasks := tasks s; log := log s |}.

Definition set_secureStore (v : option string) (s : State) : State :=
  {| accessToken := accessToken s; secureStore := v;
     isRefreshing := isRefreshing s; failedQueue := failedQueue s;
     isAuthenticated := isAuthenticated s; isLoading := isLoading s;
     tasks := tasks s; log := log s |}.

Definition set_isRefreshing (b : bool) (s : State) : State :=
  {| accessToken := accessToken s; secureStore := secureStore s;
     isRefreshing := b; failedQueue := failedQueue s;
     isAuthenticated := isAuthenticated s; isLoading := isLoading s;
     tasks := tasks s; log := log s |}.

Definition set_failedQueue (q : list nat) (s : State) : State :=
  {| accessToken := accessToken s; secureStore := secureStore s;
     isRefreshing := isRefreshing s; failedQueue := q;
     isAuthenticated := isAuthenticated s; isLoading := isLoading s;
     tasks := tasks s; log := log s |}.

Definition setIsAuthenticated (b : bool) (s : State) : State :=
  {| accessToken := accessToken s; secureStore := secureStore s;
     isRefreshing := isRefreshing s; failedQueue := failedQueue s;
     isAuthenticated := b; isLoading := isLoading s;
     tasks := tasks s; log := log s |}.

Definition setIsLoading (b : bool) (s : State) : State :=
  {| accessToken := accessToken s; secureStore := secureStore s;
     isRefreshing := isRefreshing s; failedQueue := failedQueue s;
     isAuthenticated := isAuthenticated s; isLoading := b;
     tasks := tasks s; log := log s |}.

Definition set_tasks (l : list task) (s : State) : State :=
  {| accessToken := accessToken s; secureStore := secureStore s;
     isRefreshing := isRefreshing s; failedQueue := failedQueue s;
     isAuthenticated := isAuthenticated s; isLoading := isLoading s;
     tasks := l; log := log s |}.

Definition emit (o : obs) (s : State) : State :=
  {| accessToken := accessToken s; secureStore := secureStore s;
     isRefreshing := isRefreshing s; failedQueue := failedQueue s;
     isAuthenticated := isAuthenticated s; isLoading := isLoading s;
     tasks := tasks s; log := log s ++ [o] |}.

Definition with_phase (p : phase) (t : task) : task :=
  {| op := op t; originalRequest := originalRequest t; ph := p |}.

Definition with_request (c : config) (t : task) : task :=
  {| op := op t; originalRequest := c; ph := ph t |}.

Definition set_phase (i : nat) (p : phase) (s : State) : State :=
  set_tasks (alter (with_phase p) i (tasks s)) s.

Definition set_request (i : nat) (c : config) (s : State) : State :=
  set_tasks (alter (with_request c) i (tasks s)) s.

Definition request_of (i : nat) (s : State) : config :=
  match tasks s !! i with
  | Some t => originalRequest t
  | None => {| _retry := false; Authorization := None; body := None |}
  end.

Definition op_of (i : nat) (s : State) : operation :=
  match tasks s !! i with
  | Some t => op t
  | None => Fetch
  end.

Definition phase_of (i : nat) (s : State) : option phase :=
  ph <$> tasks s !! i.

(** ** tokenStorage.ts *)

Definition setAccessToken (token : value) (s : State) : State :=
  set_accessToken token s.

Definition clearAccessToken (s : State) : State :=
  set_accessToken null s.

(** [getRefreshToken]: the value [SecureStore.getItemAsync] yields, [null]
    when it throws ([ok = false]). *)
Definition getRefreshToken (ok : bool) (s : State) : value :=
  if ok then
    match secureStore s with
    | Some t => str t
    | None => null
    end
  else null.

(** [setRefreshToken]: [None] when [SecureStore.setItemAsync] throws.  It
    stores strings only; handed anything else it throws. *)
Definition setRefreshToken (token : value) (ok : bool) (s : State) : option State :=
  match token with
  | str t => if ok then Some (set_secureStore (Some t) s) else None
  | _ => None
  end.

(** [clearRefreshToken]: an exception of [SecureStore.deleteItemAsync] is
    caught and ignored. *)
Definition clearRefreshToken (ok : bool) (s : State) : State :=
  if ok then set_secureStore None s else s.

(** ** client.ts *)

(** The request interceptor, lines 32-38. *)
Definition request_interceptor (s : State) (c : config) : config :=
  let token := accessToken s in
  if truthy token
  then {| _retry := _retry c; Authorization := Some (Bearer token); body := body c |}
  else c.

(** [apiClient(originalRequest)] for the request of call [i]: through the
    request interceptor and onto the wire. *)
Definition apiClient (i : nat) (s : State) : State :=
  let c := request_interceptor s (request_of i s) in
  let s := set_request i c s in
  let s := set_phase i AwaitResponse s in
  emit (Sent i (op_of i s) (Authorization c) (_retry c) (body c)) s.

(** [TokenResponseSchema.parse(data)] of endpoints.ts: three strings. *)
Definition parse (r : response) : option (string * string) :=
  match data r with
  | Some {| access_token := str a; refresh_token := str rt; token_type := str _ |} =>
      Some (a, rt)
  | _ => None
  end.

(** [tokenStorage.clearAll()] up to its await, then the suspension. *)
Definition mount_catch (i : nat) (s : State) : State :=
  set_phase i MountClearAll (set_accessToken null s).

(** The promise of call [i] settles; the asynchronous function that awaits
    it goes on to its next suspension point (the mount effect, [login] or
    [register] of AuthContext.tsx), or returns. *)
Definition settle (i : nat) (r : outcome) (s : State) : State :=
  let s := emit (Returned i r) s in
  match op_of i s with
  | Fetch | Logout => set_phase i (Done (Some r)) s
  | Login | Register =>
      match r with
      | Ok resp =>
          match parse resp with
          | Some (a, rt) =>
              set_phase i (AuthSetRefreshToken a rt) (setAccessToken (str a) s)
          | None => set_phase i (Done (Some (Err ZodError))) s
          end
      | Err e => set_phase i (Done (Some (Err e))) s
      end
  | SilentRefresh =>
      match r with
      | Ok resp =>
          match parse resp with
          | Some (a, rt) =>
              set_phase i (AuthSetRefreshToken a rt) (setAccessToken (str a) s)
          | None => mount_catch i s
          end
      | Err _ => mount_catch i s
      end
  end.

(** The [reject] of a waiter is the [reject] of the promise its call
    returned. *)
Definition waiter_reject (p : nat) (e : error) (s : State) : State :=
  settle p (Err e) (emit (WaiterRejected p e) s).

(** The [resolve] of a waiter, lines 60-63. *)
Definition waiter_resolve (p : nat) (token : value) (s : State) : State :=
  let s := emit (WaiterResolved p token) s in
  let c := request_of p s in
  let s := set_request p {| _retry := _retry c; Authorization := Some (Bearer token);
                            body := body c |} s in
  apiClient p s.

(** [processQueue], lines 14-23. *)
Definition processQueue (error : option error) (token : value) (s : State) : State :=
  let s := foldl (fun s p =>
                    match error with
                    | Some e => waiter_reject p e s
                    | None => if truthy token then waiter_resolve p token s else s
                    end) s (failedQueue s) in
  set_failedQueue [] s.

(** The rejection handler of the response interceptor, lines 44-49. *)
Definition on_rejected (i : nat) (r : option response) (s : State) : State :=
  let error := AxiosError (ApiCall i) r in
  let originalRequest := request_of i s in
  if negb (is401 r) || _retry originalRequest
  then settle i (Err error) s
  else set_phase i (AwaitGetRefreshToken error) s.

(** Lines 51-73, from the value [getRefreshToken] yielded to the next
    suspension point. *)
Definition on_refreshToken (i : nat) (error : error) (refreshToken : value) (s : State) : State :=
  match refreshToken with
  | str rt =>
      if negb (truthy refreshToken) then settle i (Err error) s
      else if isRefreshing s then
        set_phase i Queued (set_failedQueue (failedQueue s ++ [i]) s)
      else
        let c := request_of i s in
        let s := set_request i {| _retry := true; Authorization := Authorization c;
                                  body := body c |} s in
        let s := set_isRefreshing true s in
        emit (RefreshPost i rt) (set_phase i (AwaitRefreshPost rt) s)
  | _ => settle i (Err error) s
  end.

(** The [catch] block up to its await, lines 84-88. *)
Definition refresh_catch (i : nat) (refreshError : error) (s : State) : State :=
  let s := processQueue (Some refreshError) null s in
  let s := clearAccessToken s in
  set_phase i (AwaitClearRefreshToken refreshError) s.

(** Lines 73-79: the refresh POST has completed. *)
Definition on_refresh_reply (i : nat) (refreshToken : string) (r : reply) (s : State) : State :=
  match r with
  | Failed resp => refresh_catch i (AxiosError (RefreshCall i) resp) s
  | Fulfilled resp =>
      match data resp with
      | None => refresh_catch i TypeError s
      | Some d =>
          let s := setAccessToken (access_token d) s in
          set_phase i (AwaitSetRefreshToken refreshToken (access_token d) (refresh_token d)) s
      end
  end.

(** Lines 79-83 and the [finally]: [setRefreshToken] has completed. *)
Definition on_refresh_stored (i : nat) (access_token newRefresh : value) (ok : bool) (s : State) : State :=
  match setRefreshToken newRefresh ok s with
  | Some s =>
      let c := request_of i s in
      let s := set_request i {| _retry := _retry c; Authorization := Some (Bearer access_token);
                                body := body c |} s in
      let s := processQueue None access_token s in
      let s := apiClient i s in
      set_isRefreshing false s
  | None => refresh_catch i SecureStoreError s
  end.

(** Lines 88-91: [clearRefreshToken] has completed. *)
Definition on_refresh_cleared (i : nat) (refreshError : error) (ok : bool) (s : State) : State :=
  let s := clearRefreshToken ok s in
  let s := set_isRefreshing false s in
  settle i (Err refreshError) s.

(** ** AuthContext.tsx *)

(** The mount effect: the stored token has been read.  When it is truthy,
    [endpoints.refreshTokens(refreshToken)] posts it through [apiClient]. *)
Definition on_mount_token (i : nat) (refreshToken : value) (s : State) : State :=
  if truthy refreshToken then
    apiClient i (set_request i {| _retry := false; Authorization := None;
                                  body := Some refreshToken |} s)
  else set_phase i (Done None) (setIsLoading false s).

(** [await tokenStorage.setRefreshToken(tokens.refresh_token)] has
    completed, in [login], [register] or the mount effect. *)
Definition on_auth_stored (i : nat) (refresh : string) (ok : bool) (s : State) : State :=
  match setRefreshToken (str refresh) ok s with
  | Some s =>
      let s := setIsAuthenticated true s in
      match op_of i s with
      | SilentRefresh => set_phase i (Done None) (setIsLoading false s)
      | _ => set_phase i (Done None) s
      end
  | None =>
      match op_of i s with
      | SilentRefresh => mount_catch i s
      | _ => set_phase i (Done (Some (Err SecureStoreError))) s
      end
  end.

(** ** Events and the transition function *)

Inductive event :=
| Execute              (* a data hook calls apiClient *)
| CallLogin
| CallRegister
| CallLogout
| Mount                (* AuthProvider is mounted *)
| Respond (i : nat) (r : reply)          (* the request of call [i] completes *)
| RefreshRespond (i : nat) (r : reply)   (* the refresh POST of call [i] completes *)
| StoreGet (i : nat) (ok : bool)         (* SecureStore.getItemAsync completes *)
| StoreSet (i : nat) (ok : bool)         (* SecureStore.setItemAsync completes *)
| StoreDelete (i : nat) (ok : bool).     (* SecureStore.deleteItemAsync completes *)

Definition spawn (o : operation) (p : phase) (s : State) : State :=
  set_tasks (tasks s ++ [{| op := o;
                            originalRequest := {| _retry := false; Authorization := None;
                                                  body := None |};
                            ph := p |}]) s.

Definition step (s : State) (ev : event) : option State :=
  let fresh := length (tasks s) in
  match ev with
  | Execute => Some (apiClient fresh (spawn Fetch AwaitResponse s))
  | CallLogin => Some (apiClient fresh (spawn Login AwaitResponse s))
  | CallRegister => Some (apiClient fresh (spawn Register AwaitResponse s))
  | CallLogout => Some (spawn Logout LogoutClearAll (set_accessToken null s))
  | Mount => Some (spawn SilentRefresh MountGetRefreshToken s)
  | Respond i r =>
      match phase_of i s with
      | Some AwaitResponse =>
          match r with
          | Fulfilled resp => Some (settle i (Ok resp) s)
          | Failed resp => Some (on_rejected i resp s)
          end
      | _ => None
      end
  | RefreshRespond i r =>
      match phase_of i s with
      | Some (AwaitRefreshPost rt) => Some (on_refresh_reply i rt r s)
      | _ => None
      end
  | StoreGet i ok =>
      match phase_of i s with
      | Some (AwaitGetRefreshToken e) => Some (on_refreshToken i e (getRefreshToken ok s) s)
      | Some MountGetRefreshToken => Some (on_mount_token i (getRefreshToken ok s) s)
      | _ => None
      end
  | StoreSet i ok =>
      match phase_of i s with
      | Some (AwaitSetRefreshToken _ a r) => Some (on_refresh_stored i a r ok s)
      | Some (AuthSetRefreshToken _ r) => Some (on_auth_stored i r ok s)
      | _ => None
      end
  | StoreDelete i ok =>
      match phase_of i s with
      | Some (AwaitClearRefreshToken e) => Some (on_refresh_cleared i e ok s)
      | Some MountClearAll =>
          Some (set_phase i (Done None) (setIsLoading false (clearRefreshToken ok s)))
      | Some LogoutClearAll =>
          Some (set_phase i (Done None) (setIsAuthenticated false (clearRefreshToken ok s)))
      | _ => None
      end
  end.

Fixpoint run (s : State) (tr : list event) : option State :=
  match tr with
  | [] => Some s
  | ev :: tr =>
      match step s ev with
      | Some s => run s tr
      | None => None
      end
  end.

(** ** Observations the statements are about *)

(** What an execution from [s] to [s'] added to the log. *)
Definition emitted (s s' : State) : list obs :=
  drop (length (log s)) (log s').

(** Call [t] waits for the refresh POST of the response interceptor. *)
Definition posting (t : task) : bool :=
  match ph t with
  | AwaitRefreshPost _ => true
  | _ => false
  end.

(** Call [t] is the silent refresh of the mount effect with its request
    [POST /api/v1/auth/refresh] on the wire, sent by [endpoints.refreshTokens]
    or sent again by the interceptor (lines 61-62 and 83). *)
Definition silent_posting (t : task) : bool :=
  match op t, ph t with
  | SilentRefresh, AwaitResponse => true
  | _, _ => false
  end.

(** The requests [POST /api/v1/auth/refresh] that are on the wire. *)
Definition renewals_in_flight (s : State) : nat :=
  length (List.filter posting (tasks s)) + length (List.filter silent_posting (tasks s)).

(** The phases in which a call holds the refresh mutex: from line 70 to the
    [finally] of line 91. *)
Definition renewing (p : phase) : bool :=
  match p with
  | AwaitRefreshPost _ | AwaitSetRefreshToken _ _ _ | AwaitClearRefreshToken _ => true
  | _ => false
  end.

(** A call in phase [p] is about to write [r] to the secure store. *)
Definition pending_write (r : string) (p : phase) : bool :=
  match p with
  | AwaitSetRefreshToken _ _ (str r') => String.eqb r' r
  | AuthSetRefreshToken _ r' => String.eqb r' r
  | _ => false
  end.

(** The server hands out [r] as a refresh token with event [ev]. *)
Definition issues (r : string) (ev : event) : bool :=
  match ev with
  | Respond _ (Fulfilled resp) | RefreshRespond _ (Fulfilled resp) =>
      match data resp with
      | Some {| refresh_token := str r' |} => String.eqb r' r
      | _ => false
      end
  | _ => false
  end.

Definition is_RefreshPost (o : obs) : bool :=
  match o with
  | RefreshPost _ _ => true
  | _ => false
  end.

(** [p.resolve] or [p.reject] of the waiter of call [i]. *)
Definition completes (i : nat) (o : obs) : bool :=
  match o with
  | WaiterResolved j _ | WaiterRejected j _ => Nat.eqb i j
  | _ => false
  end.

(** ** How the handlers change the calls

    [upd R l l']: the calls [l'] are the calls [l] with the same operations;
    call [j] is in the phase it was in, or has moved to a phase [p] with
    [R j p]. *)
Definition upd (R : nat -> phase -> Prop) (l l' : list task) : Prop :=
  length l' = length l /\
  forall j t', l' !! j = Some t' ->
    exists t, l !! j = Some t /\ op t' = op t /\ (ph t' = ph t \/ R j (ph t')).

(** The phases every handler may leave a call in. *)
Definition benign (B : phase -> Prop) : Prop :=
  B AwaitResponse /\ B MountClearAll /\ forall res, B (Done res).

(** The state outside the calls, the log, the queue and the access token. *)
Definition same_store (s s' : State) : Prop :=
  secureStore s' = secureStore s /\ isRefreshing s' = isRefreshing s /\
  isAuthenticated s' = isAuthenticated s /\ isLoading s' = isLoading s.

(** The callback [processQueue] hands to [failedQueue.forEach]. *)
Definition queue_body (error : option error) (token : value) (s : State) (p : nat) : State :=
  match error with
  | Some e => waiter_reject p e s
  | None => if truthy token then waiter_resolve p token s else s
  end.

(** What [processQueue] may add to the log when it runs on the waiters [q]. *)
Definition queue_obs (error : option error) (token : value) (q : list nat) (o : obs) : Prop :=
  match o with
  | WaiterRejected p e | Returned p (Err e) => error = Some e /\ p ∈ q
  | WaiterResolved p t => error = None /\ t = token /\ truthy token = true /\ p ∈ q
  | Sent p _ _ _ _ => error = None /\ p ∈ q
  | _ => False
  end.

(** The refresh mutex: the calls between line 70 and the [finally] of
    line 91 are at most one, and [isRefreshing] is set while there is one. *)
Definition mutex_inv (s : State) : Prop :=
  exists i0, forall j t, tasks s !! j = Some t -> renewing (ph t) = true ->
                         j = i0 /\ isRefreshing s = true.

(** No call is about to write [r] to the secure store. *)
Definition no_pending_write (r : string) (s : State) : Prop :=
  forall j t, tasks s !! j = Some t -> pending_write r (ph t) = false.

(** ** The transitions seen from the calls *)

(** The call whose awaited operation completes with event [ev]. *)
Definition actor (ev : event) : option nat :=
  match ev with
  | Respond i _ | RefreshRespond i _ | StoreGet i _ | StoreSet i _ | StoreDelete i _ => Some i
  | _ => None
  end.

(** The waiters [processQueue] may be run on while handling [ev]. *)
Definition drained (s : State) (ev : event) : list nat :=
  match ev with
  | RefreshRespond _ _ | StoreSet _ _ => failedQueue s
  | _ => []
  end.

Definition benign_phase (p : phase) : Prop :=
  p = AwaitResponse \/ p = MountClearAll \/ exists res, p = Done res.

(** The phases the acting call may move to when [ev] is handled in [s]. *)
Definition moves (s : State) (ev : event) (p : phase) : Prop :=
  match ev with
  | Respond _ (Fulfilled resp) =>
      benign_phase p \/
      exists a rt, parse resp = Some (a, rt) /\ p = AuthSetRefreshToken a rt
  | Respond _ (Failed _) =>
      benign_phase p \/ exists e, p = AwaitGetRefreshToken e
  | RefreshRespond _ r =>
      (exists e, p = AwaitClearRefreshToken e) \/
      exists rt resp d, r = Fulfilled resp /\ data resp = Some d /\
                        p = AwaitSetRefreshToken rt (access_token d) (refresh_token d)
  | StoreGet _ ok =>
      benign_phase p \/ (p = Queued /\ isRefreshing s = true) \/
      exists rt, p = AwaitRefreshPost rt /\ isRefreshing s = false /\
                 secureStore s = Some rt /\ ok = true
  | StoreSet _ _ =>
      benign_phase p \/ exists e, p = AwaitClearRefreshToken e
  | StoreDelete _ _ => benign_phase p
  | _ => False
  end.

(** What handling [ev] in [s] may do to the phase of call [j]. *)
Definition touches (s : State) (ev : event) (j : nat) (p : phase) : Prop :=
  (j ∈ drained s ev /\ benign_phase p) \/ (actor ev = Some j /\ moves s ev p).

(** The phases a call starts in. *)
Definition initial_phase (p : phase) : Prop :=
  p = AwaitResponse \/ p = LogoutClearAll \/ p = MountGetRefreshToken.

(** Handling an event moved call [i] to a phase that satisfies [M] and
    changed the calls within [R]. *)
Definition acts (R : nat -> phase -> Prop) (M : phase -> Prop) (i : nat) (s s' : State) : Prop :=
  upd R (tasks s) (tasks s') /\ exists p, phase_of i s' = Some p /\ M p.

(** Projections of the setters. *)
Ltac simpl_fields :=
  cbn [tasks log accessToken secureStore isRefreshing failedQueue isAuthenticated
       isLoading set_accessToken set_secureStore set_isRefreshing set_failedQueue
       setIsAuthenticated setIsLoading set_tasks emit setAccessToken
       clearAccessToken set_phase set_request spawn] in *.

(** What handling [ev] in [s] may add to the log: a refresh POST only from
    the call that has just read the stored token with no renewal in
    progress, and a waiter callback only for a waiter of the queue. *)
Definition step_obs (s : State) (ev : event) (o : obs) : Prop :=
  match o with
  | RefreshPost j rt =>
      exists e, ev = StoreGet j true /\ phase_of j s = Some (AwaitGetRefreshToken e) /\
                secureStore s = Some rt /\ isRefreshing s = false
  | WaiterResolved j _ | WaiterRejected j _ => j ∈ drained s ev
  | _ => True
  end.

(** [isRefreshing] after a call has moved from phase [p0] to phase [p]:
    kept, unless the call took the mutex, which was free, or released it. *)
Definition mutex_post (s s' : State) (p0 p : phase) : Prop :=
  match renewing p0, renewing p with
  | false, false | true, true => isRefreshing s' = isRefreshing s
  | false, true => isRefreshing s = false /\ isRefreshing s' = true
  | true, false => isRefreshing s' = false
  end.

(** The log entries of the waiters of [q] when [processQueue] rejects them
    with [e]. *)
Definition rejections (e : error) (q : list nat) : list obs :=
  q ≫= fun p => [WaiterRejected p e; Returned p (Err e)].

(** ** Scenarios *)

(** An authorization failure, and a response that carries a token pair. *)
Definition unauthorized : reply :=
  Failed (Some {| status := 401; data := None |}).

Definition token_pair (a r : value) : reply :=
  Fulfilled {| status := 200;
               data := Some {| access_token := a; refresh_token := r;
                               token_type := str "bearer" |} |}.

(** The state a run from the initial state ends in. *)
Definition state_after (stored : option string) (tr : list event) : State :=
  default (init stored) (run (init stored) tr).

(** One data request is on the wire. *)
Definition one_request : State := state_after (Some "R1"%string) [Execute].

(** After a login, three data requests fail with status 401; call 1 sends
    the refresh POST and calls 2 and 3 queue behind it. *)
Definition three_calls_renewing : list event :=
  [CallLogin; Respond 0 (token_pair (str "A1") (str "R1")); StoreSet 0 true;
   Execute; Execute; Execute;
   Respond 1 unauthorized; Respond 2 unauthorized; Respond 3 unauthorized;
   StoreGet 1 true; StoreGet 2 true; StoreGet 3 true].

Definition renewal_rejected : error :=
  AxiosError (RefreshCall 1) (Some {| status := 401; data := None |}).

(** With "R1" stored, call 0 fails with status 401 and sends the refresh
    POST; call 1 fails too and queues behind it. *)
Definition one_waiter_renewing : list event :=
  [Execute; Execute; Respond 0 unauthorized; StoreGet 0 true;
   Respond 1 unauthorized; StoreGet 1 true].

(** With "R1" stored, call 0 fails with status 401 and sends the refresh
    POST. *)
Definition one_call_renewing : list event :=
  [Execute; Respond 0 unauthorized; StoreGet 0 true].

(** A refresh response without an access token. *)
Definition no_access_token : reply := token_pair undefined (str "R2").

(** Call 0 holds the mutex and call 1 is queued; the refresh endpoint has
    answered with the pair "A2", "R2", and with a body that lacks the
    access token. *)
Definition renewal_answered : State :=
  state_after (Some "R1"%string)
    (one_waiter_renewing ++ [RefreshRespond 0 (token_pair (str "A2") (str "R2"))]).

Definition renewal_answered_no_access : State :=
  state_after (Some "R1"%string) (one_waiter_renewing ++ [RefreshRespond 0 no_access_token]).

(** The refresh POST of call 0 has failed and call 0 awaits
    [clearRefreshToken]; call 1 has received its 401 and awaits
    [getRefreshToken]. *)
Definition clearing_after_failure : State :=
  state_after (Some "R1"%string)
    [Execute; Execute; Respond 0 unauthorized; StoreGet 0 true; Respond 1 unauthorized;
     RefreshRespond 0 unauthorized].

(** The renewal of call 0 is answered with a new pair; storing "R2" throws
    and so does the deletion; later call 1 fails with status 401. *)
Definition rotation_lost : list event :=
  [Execute; Respond 0 unauthorized; StoreGet 0 true;
   RefreshRespond 0 (token_pair (str "A2") (str "R2")); StoreSet 0 false;
   StoreDelete 0 false;
   Execute; Respond 1 unauthorized; StoreGet 1 true].

(** With "R1" stored, the mount effect posts it to the refresh endpoint
    and gets a 401; the interceptor renews for that request and sends it
    again. *)
Definition refresh_sent_again : list event :=
  [Mount; StoreGet 0 true; Respond 0 unauthorized; StoreGet 0 true;
   RefreshRespond 0 (token_pair (str "A2") (str "R2")); StoreSet 0 true].

(** The renewal of call 0 is answered with a new pair; "R2" is stored;
    the second attempt of call 0 is fulfilled; later call 1 fails with
    status 401 and renews with "R2". *)
Definition two_rotations : list event :=
  [Respond 0 (Fulfilled {| status := 200; data := None |});
   Execute; Respond 1 unauthorized; StoreGet 1 true;
   RefreshRespond 1 (token_pair (str "A3") (str "R3")); StoreSet 1 true].

Definition renewal_answered_alone : State :=
  state_after (Some "R1"%string)
    (one_call_renewing ++ [RefreshRespond 0 (token_pair (str "A2") (str "R2"))]).

(** ** The calls of AuthContext.tsx seen from outside *)

(** The suspension point the asynchronous function of operation [o] is at
    once the promise of its request has settled with [r]. *)
Definition settled (o : operation) (r : outcome) : phase :=
  match o with
  | Fetch | Logout => Done (Some r)
  | Login | Register =>
      match r with
      | Ok resp =>
          match parse resp with
          | Some (a, rt) => AuthSetRefreshToken a rt
          | None => Done (Some (Err ZodError))
          end
      | Err e => Done (Some (Err e))
      end
  | SilentRefresh =>
      match r with
      | Ok resp =>
          match parse resp with
          | Some (a, rt) => AuthSetRefreshToken a rt
          | None => MountClearAll
          end
      | Err _ => MountClearAll
      end
  end.

(** The access token in memory at that point, [v] being the one before. *)
Definition settled_token (o : operation) (r : outcome) (v : value) : value :=
  match o with
  | Fetch | Logout => v
  | Login | Register =>
      match r with
      | Ok resp =>
          match parse resp with
          | Some (a, _) => str a
          | None => v
          end
      | Err _ => v
      end
  | SilentRefresh =>
      match r with
      | Ok resp =>
          match parse resp with
          | Some (a, _) => str a
          | None => null
          end
      | Err _ => null
      end
  end.

(** The React state of [AuthProvider]. *)
Definition same_session (s s' : State) : Prop :=
  isAuthenticated s' = isAuthenticated s /\ isLoading s' = isLoading s.

(** ** The life of a call

    [hop o p p']: a call of operation [o] at suspension point [p] goes on
    to [p'] when the operation it awaits completes or, for a call in the
    queue, when [processQueue] runs. *)
Inductive hop (o : operation) : phase -> phase -> Prop :=
(* the request completes: lines 42-49 *)
| hop_settle r : hop o AwaitResponse (settled o r)
| hop_401 e : hop o AwaitResponse (AwaitGetRefreshToken e)
(* the stored token has been read: lines 51-73 *)
| hop_nothing_stored e : hop o (AwaitGetRefreshToken e) (settled o (Err e))
| hop_queue e : hop o (AwaitGetRefreshToken e) Queued
| hop_post e rt : hop o (AwaitGetRefreshToken e) (AwaitRefreshPost rt)
(* [processQueue]: lines 14-23 *)
| hop_reject e : hop o Queued (settled o (Err e))
| hop_resolve : hop o Queued AwaitResponse
(* the refresh POST completes: lines 73-79 and the catch *)
| hop_reply rt a r : hop o (AwaitRefreshPost rt) (AwaitSetRefreshToken rt a r)
| hop_catch rt e : hop o (AwaitRefreshPost rt) (AwaitClearRefreshToken e)
(* the new refresh token is stored, or not: lines 79-83 and the catch *)
| hop_stored rt a r : hop o (AwaitSetRefreshToken rt a r) AwaitResponse
| hop_not_stored rt a r :
    hop o (AwaitSetRefreshToken rt a r) (AwaitClearRefreshToken SecureStoreError)
(* the deletion of the catch block completes: lines 88-91 *)
| hop_cleared e : hop o (AwaitClearRefreshToken e) (settled o (Err e))
(* the mount effect *)
| hop_mount_send : hop o MountGetRefreshToken AwaitResponse
| hop_mount_none : hop o MountGetRefreshToken (Done None)
| hop_mount_cleared : hop o MountClearAll (Done None)
(* [login], [register] and the mount effect after [setRefreshToken] *)
| hop_auth a r : hop o (AuthSetRefreshToken a r) (Done None)
| hop_auth_catch a r :
    o = SilentRefresh -> hop o (AuthSetRefreshToken a r) MountClearAll
| hop_auth_throw a r :
    o <> SilentRefresh ->
    hop o (AuthSetRefreshToken a r) (Done (Some (Err SecureStoreError)))
(* [logout] *)
| hop_logout : hop o LogoutClearAll (Done None).

(** What handling [ev], which leads from [s] to [s'], does to call [j]: the
    call whose awaited operation completed makes one hop; so does every
    call of the queue when the queue is processed. *)
Definition hops (s : State) (ev : event) (s' : State) (j : nat) (p : phase) : Prop :=
  exists p0, phase_of j s = Some p0 /\ hop (op_of j s) p0 p /\
             match p0 with
             | Queued => j ∈ failedQueue s /\ failedQueue s' = []
             | _ => actor ev = Some j
             end.

(** The queue holds each waiting call once, and only calls whose promise
    is pending. *)
Definition queue_inv (s : State) : Prop :=
  NoDup (failedQueue s) /\ forall p, p ∈ failedQueue s -> phase_of p s = Some Queued.

(** The suspension points of each asynchronous function. *)
Definition fits (o : operation) (p : phase) : bool :=
  match p with
  | MountGetRefreshToken | MountClearAll =>
      match o with SilentRefresh => true | _ => false end
  | LogoutClearAll => match o with Logout => true | _ => false end
  | AuthSetRefreshToken _ _ =>
      match o with Login | Register | SilentRefresh => true | _ => false end
  | Done _ => true
  | _ => match o with Logout => false | _ => true end
  end.

Definition typed (s : State) : Prop :=
  forall j t, tasks s !! j = Some t -> fits (op t) (ph t) = true.

Definition is_done (p : phase) : bool :=
  match p with
  | Done _ => true
  | _ => false
  end.

(** [isRefreshing] is set only while a call is between line 70 and the
    [finally] of line 91. *)
Definition held (s : State) : Prop :=
  isRefreshing s = true -> exists i p, phase_of i s = Some p /\ renewing p = true.

(** A mount effect has run to its end. *)
Definition mounted (s : State) : Prop :=
  exists j t, tasks s !! j = Some t /\ op t = SilentRefresh /\ is_done (ph t) = true.

(** The suspension points a call can only be at before line 69 has marked
    its request. *)
Definition waits (p : phase) : bool :=
  match p with
  | AwaitGetRefreshToken _ | Queued | MountGetRefreshToken | LogoutClearAll => true
  | _ => false
  end.

(** Only calls whose request is not marked are at those points. *)
Definition unmarked (s : State) : Prop :=
  forall j t, tasks s !! j = Some t -> waits (ph t) = true ->
              _retry (originalRequest t) = false.

(** A request of call [i] leaves. *)
Definition sent_by (i : nat) (o : obs) : bool :=
  match o with
  | Sent j _ _ _ _ => Nat.eqb i j
  | _ => false
  end.

(** The requests a call whose request is marked has yet to send: the retry
    of line 83, while the call is at the await of line 73 or of line 79. *)
Definition retries_ahead (p : option phase) : nat :=
  match p with
  | Some (AwaitRefreshPost _) | Some (AwaitSetRefreshToken _ _ _) => 1
  | _ => 0
  end.

(** A request that leaves carries the access token [acc]. *)
Definition sent_with (acc : value) (o : obs) : Prop :=
  match o with
  | Sent _ _ hdr _ _ => hdr = Some (Bearer acc)
  | _ => True
  end.

(** From [s] to [s'] the log has grown by entries that satisfy [P]. *)
Definition adds (P : obs -> Prop) (s s' : State) : Prop :=
  exists l, log s' = log s ++ l /\ Forall P l.

(** ** The sign-in and sign-up forms: LoginScreen.tsx and RegisterScreen.tsx *)

(** The text of an input field, a JavaScript string, by its UTF-16 code
    units. *)
Definition text := list N.

(** The code units [String.prototype.trim] strips: white space (TAB, VT,
    FF, SP, NBSP, ZWNBSP and the other space separators) and the line
    terminators (LF, CR, LS, PS). *)
Definition isWhiteSpace (c : N) : bool :=
  ((9 <=? c) && (c <=? 13) || (c =? 32) || (c =? 160) || (c =? 5760)
   || (8192 <=? c) && (c <=? 8202) || (c =? 8232) || (c =? 8233) || (c =? 8239)
   || (c =? 8287) || (c =? 12288) || (c =? 65279))%N.

Fixpoint trimStart (s : text) : text :=
  match s with
  | [] => []
  | c :: s' => if isWhiteSpace c then trimStart s' else s
  end.

Definition trimEnd (s : text) : text := rev (trimStart (rev s)).

Definition trim (s : text) : text := trimEnd (trimStart s).

(** [!s] for a string: true for the empty one. *)
Definition falsy (s : text) : bool :=
  match s with
  | [] => true
  | _ => false
  end.

(** What a submit handler does up to its first [await]. *)
Inductive submission :=
| Alert (title message : string)   (* [Alert.alert(title, message); return] *)
| Submit (email password : text).  (* [setLoading(true)], then the call *)

(** [handleLogin], LoginScreen.tsx lines 28-36. *)
Definition handleLogin (email password : text) : submission :=
  if falsy (trim email) || falsy (trim password)
  then Alert "Error" "Please enter email and password"
  else Submit (trim email) password.

(** [handleRegister], RegisterScreen.tsx lines 29-47. *)
Definition handleRegister (email password confirm : text) : submission :=
  if falsy (trim email) || falsy password || falsy confirm
  then Alert "Error" "Please fill in all fields"
  else if (length password <? 8)%nat
  then Alert "Error" "Password must be at least 8 characters"
  else if negb (bool_decide (password = confirm))
  then Alert "Error" "Passwords do not match"
  else Submit (trim email) password.

(** ** utils/formatting.ts, utils/constants.ts and theme/colors.ts *)

(** A JavaScript number: [NaN], an infinity, or a finite value.  The finite
    doubles are rationals, and [<] and [>=] on them are the order of their
    values; [NaN] compares false with everything. *)
Inductive number :=
| NaN
| Infinity
| NegInfinity
| Finite (q : Q).

(** [x < y] *)
Definition lessThan (x y : number) : bool :=
  match x, y with
  | NaN, _ | _, NaN => false
  | _, NegInfinity | Infinity, _ => false
  | NegInfinity, _ | _, Infinity => true
  | Finite a, Finite b => negb (Qle_bool b a)
  end.

(** [x >= y] *)
Definition atLeast (x y : number) : bool :=
  match x, y with
  | NaN, _ | _, NaN => false
  | _, NegInfinity | Infinity, _ => true
  | NegInfinity, _ | _, Infinity => false
  | Finite a, Finite b => Qle_bool b a
  end.

Record threshold := {
  max : number;
  label : string;
  key : string;
}.

Definition RATING_THRESHOLDS : list threshold :=
  [ {| max := Finite 2; label := "flat"; key := "flat" |};
    {| max := Finite 4; label := "poor"; key := "poor" |};
    {| max := Finite 5.5; label := "fair"; key := "fair" |};
    {| max := Finite 7; label := "good"; key := "good" |};
    {| max := Finite 8.5; label := "great"; key := "great" |};
    {| max := Finite 10; label := "epic"; key := "epic" |} ].

Module colors.
Definition scoreEpic : string := "#22C55E".
Definition scoreGreat : string := "#4ADE80".
Definition scoreGood : string := "#84CC16".
Definition scoreFair : string := "#EAB308".
Definition scorePoor : string := "#F97316".
Definition scoreFlat : string := "#6B7280".
End colors.

(** [scoreToRating], lines 5-10: the label of the first threshold the score
    is below. *)
Definition scoreToRating (score : number) : string :=
  (fix loop (ts : list threshold) : string :=
     match ts with
     | [] => "epic"%string
     | t :: ts => if lessThan score (max t) then label t else loop ts
     end) RATING_THRESHOLDS.

(** [scoreToColor], lines 13-20. *)
Definition scoreToColor (score : number) : string :=
  if atLeast score (Finite 8.5) then colors.scoreEpic
  else if atLeast score (Finite 7) then colors.scoreGreat
  else if atLeast score (Finite 5.5) then colors.scoreGood
  else if atLeast score (Finite 4) then colors.scoreFair
  else if atLeast score (Finite 2) then colors.scorePoor
  else colors.scoreFlat.

(** The colour that [colors] names after a rating. *)
Definition color_of (rating : string) : string :=
  if String.eqb rating "epic" then colors.scoreEpic
  else if String.eqb rating "great" then colors.scoreGreat
  else if String.eqb rating "good" then colors.scoreGood
  else if String.eqb rating "fair" then colors.scoreFair
  else if String.eqb rating "poor" then colors.scorePoor
  else colors.scoreFlat.

(** The order facts behind the tests of a score. *)
Ltac order_facts :=
  repeat match goal with
         | H : Qle_bool _ _ = true |- _ => apply Qle_bool_iff in H
         | H : Qle_bool _ _ = false |- _ =>
             apply not_true_iff_false in H; rewrite Qle_bool_iff in H;
             apply Qnot_le_lt in H
         end.


(** ** Lemmas on the calls *)

Lemma upd_refl R l : upd R l l.
Proof. split; [done |]. intros j t E. exists t. auto. Qed.

Lemma upd_trans R l l' l'' : upd R l l' -> upd R l' l'' -> upd R l l''.
Proof.
  intros [Hlen1 H1] [Hlen2 H2]. split; [congruence |].
  intros j t'' E''. destruct (H2 j t'' E'') as (t' & E' & Hop' & Hp').
  destruct (H1 j t' E') as (t & E & Hop & Hp).
  exists t. repeat split; [done | congruence |].
  destruct Hp' as [Hp' | Hp']; [| by right]. by rewrite Hp'.
Qed.

Lemma upd_alter_phase (R : nat -> phase -> Prop) p i l :
  R i p -> upd R l (alter (with_phase p) i l).
Proof.
  intros HR. split; [apply length_alter |].
  intros j t'. rewrite list_lookup_alter.
  destruct (decide (i = j)) as [<- | Hne]; [| eauto].
  destruct (l !! i) as [t |]; [| done]. cbn. intros [= <-]. exists t. cbn. auto.
Qed.

Lemma upd_alter_request (R : nat -> phase -> Prop) c i l :
  upd R l (alter (with_request c) i l).
Proof.
  split; [apply length_alter |].
  intros j t'. rewrite list_lookup_alter.
  destruct (decide (i = j)) as [<- | Hne]; [| eauto].
  destruct (l !! i) as [t |]; [| done]. cbn. intros [= <-]. exists t. cbn. auto.
Qed.

Lemma upd_snoc (R : nat -> phase -> Prop) l l' t0 :
  upd R (l ++ [t0]) l' ->
  length l' = S (length l) /\
  forall j t', l' !! j = Some t' ->
    (exists t, l !! j = Some t /\ op t' = op t /\ (ph t' = ph t \/ R j (ph t'))) \/
    (j = length l /\ op t' = op t0 /\ (ph t' = ph t0 \/ R j (ph t'))).
Proof.
  intros [Hlen H]. split.
  { rewrite Hlen, length_app. cbn. lia. }
  intros j t' E. destruct (H j t' E) as (t & Et & Hop & Hp).
  apply lookup_snoc_Some in Et as [[? Et] | [-> ->]]; [left | right]; eauto.
Qed.

Lemma upd_length R l l' : upd R l l' -> length l' = length l.
Proof. by intros [? _]. Qed.

Lemma upd_phase R l l' j t' :
  upd R l l' -> l' !! j = Some t' ->
  exists t, l !! j = Some t /\ op t' = op t /\ (ph t' = ph t \/ R j (ph t')).
Proof. intros [_ H]. apply H. Qed.

(** ** Lemmas on the handlers *)

Lemma same_store_trans s s' s'' :
  same_store s s' -> same_store s' s'' -> same_store s s''.
Proof.
  intros (? & ? & ? & ?) (? & ? & ? & ?). repeat split; congruence.
Qed.

Lemma phase_of_Some i p s :
  phase_of i s = Some p <-> exists t, tasks s !! i = Some t /\ ph t = p.
Proof.
  unfold phase_of. destruct (tasks s !! i) as [t |]; cbn; split.
  - intros [= <-]. eauto.
  - intros (? & [= <-] & <-). done.
  - done.
  - intros (? & ? & _). done.
Qed.

Lemma phase_of_lt i p s : phase_of i s = Some p -> i < length (tasks s).
Proof.
  intros (t & E & _)%phase_of_Some. by apply lookup_lt_Some in E.
Qed.

Lemma phase_of_set_phase i p s :
  i < length (tasks s) -> phase_of i (set_phase i p s) = Some p.
Proof.
  intros Hi. unfold phase_of, set_phase; cbn.
  rewrite list_lookup_alter_eq.
  destruct (lookup_lt_is_Some_2 _ _ Hi) as [t ->]. done.
Qed.

Lemma op_of_tasks j s s' :
  (forall t', tasks s' !! j = Some t' -> exists t, tasks s !! j = Some t /\ op t' = op t) ->
  length (tasks s') = length (tasks s) ->
  op_of j s' = op_of j s.
Proof.
  intros H Hlen. unfold op_of.
  destruct (tasks s' !! j) as [t' |] eqn:E'.
  - destruct (H t' eq_refl) as (t & -> & ?). done.
  - apply lookup_ge_None in E'. rewrite Hlen in E'.
    apply lookup_ge_None in E'. by rewrite E'.
Qed.

Lemma op_of_upd R j s s' :
  upd R (tasks s) (tasks s') -> op_of j s' = op_of j s.
Proof.
  intros H. apply op_of_tasks; [| by apply (upd_length R)].
  intros t' E. destruct (upd_phase R _ _ j t' H E) as (t & ? & ? & _). eauto.
Qed.

Lemma settle_tasks (R : nat -> phase -> Prop) i r s :
  benign (R i) ->
  (forall resp a rt, r = Ok resp -> parse resp = Some (a, rt) -> R i (AuthSetRefreshToken a rt)) ->
  upd R (tasks s) (tasks (settle i r s)).
Proof.
  intros (HB1 & HB2 & HB3) Hset. unfold settle, mount_catch.
  destruct (op_of i (emit (Returned i r) s)); try (apply (upd_alter_phase R); done);
    destruct r as [resp | e]; try (apply (upd_alter_phase R); done);
    destruct (parse resp) as [[a rt] |] eqn:E; apply (upd_alter_phase R); eauto.
Qed.

Lemma settle_Err_tasks (R : nat -> phase -> Prop) i e s :
  benign (R i) -> upd R (tasks s) (tasks (settle i (Err e) s)).
Proof. intros HB. apply settle_tasks; [done | congruence]. Qed.

Lemma settle_log i r s : log (settle i r s) = log s ++ [Returned i r].
Proof.
  unfold settle, mount_catch.
  destruct (op_of i (emit (Returned i r) s)); try done;
    destruct r as [resp | e]; try done; by destruct (parse resp) as [[a rt] |].
Qed.

Lemma settle_same i r s : same_store s (settle i r s).
Proof.
  unfold settle, mount_catch.
  destruct (op_of i (emit (Returned i r) s)); try done;
    destruct r as [resp | e]; try done; by destruct (parse resp) as [[a rt] |].
Qed.

Lemma settle_failedQueue i r s : failedQueue (settle i r s) = failedQueue s.
Proof.
  unfold settle, mount_catch.
  destruct (op_of i (emit (Returned i r) s)); try done;
    destruct r as [resp | e]; try done; by destruct (parse resp) as [[a rt] |].
Qed.

Lemma settle_Err_accessToken i e s :
  accessToken (settle i (Err e) s) = accessToken s \/
  accessToken (settle i (Err e) s) = null.
Proof.
  unfold settle, mount_catch.
  destruct (op_of i (emit (Returned i (Err e)) s)); cbn; auto.
Qed.

Lemma settle_phase (B : phase -> Prop) i r s :
  benign B ->
  (forall resp a rt, r = Ok resp -> parse resp = Some (a, rt) -> B (AuthSetRefreshToken a rt)) ->
  i < length (tasks s) ->
  exists p, phase_of i (settle i r s) = Some p /\ B p.
Proof.
  intros (HB1 & HB2 & HB3) Hset Hi. unfold settle, mount_catch.
  destruct (op_of i (emit (Returned i r) s));
    try (eexists; split; [by apply phase_of_set_phase | done]);
    destruct r as [resp | e];
    try (eexists; split; [by apply phase_of_set_phase | done]);
    destruct (parse resp) as [[a rt] |] eqn:E;
    (eexists; split; [by apply phase_of_set_phase | eauto]).
Qed.

Lemma apiClient_tasks (R : nat -> phase -> Prop) i s :
  R i AwaitResponse -> upd R (tasks s) (tasks (apiClient i s)).
Proof.
  intros HB. unfold apiClient. cbn.
  eapply upd_trans; [apply upd_alter_request | by apply upd_alter_phase].
Qed.

Lemma apiClient_log i s :
  log (apiClient i s) =
  log s ++ [Sent i (op_of i s)
              (Authorization (request_interceptor s (request_of i s)))
              (_retry (request_of i s)) (body (request_of i s))].
Proof.
  unfold apiClient. cbn. f_equal. f_equal. f_equal.
  - apply op_of_tasks; cbn; [| by rewrite !length_alter].
    intros t'. rewrite !list_lookup_alter_eq.
    destruct (tasks s !! i) as [t |]; [| done]. cbn. intros [= <-]. eauto.
  - unfold request_interceptor. by destruct (truthy (accessToken s)).
  - unfold request_interceptor. by destruct (truthy (accessToken s)).
Qed.

Lemma apiClient_phase i s :
  i < length (tasks s) -> phase_of i (apiClient i s) = Some AwaitResponse.
Proof.
  intros Hi. unfold apiClient. cbn. unfold phase_of. cbn.
  rewrite !list_lookup_alter_eq.
  destruct (lookup_lt_is_Some_2 _ _ Hi) as [t ->]. done.
Qed.

Lemma waiter_reject_tasks (R : nat -> phase -> Prop) p e s :
  benign (R p) -> upd R (tasks s) (tasks (waiter_reject p e s)).
Proof. intros HB. unfold waiter_reject. by apply (settle_Err_tasks R p e (emit _ s)). Qed.

Lemma waiter_reject_log p e s :
  log (waiter_reject p e s) = log s ++ [WaiterRejected p e; Returned p (Err e)].
Proof. unfold waiter_reject. rewrite settle_log. cbn. by rewrite <- app_assoc. Qed.

Lemma waiter_reject_same p e s :
  same_store s (waiter_reject p e s) /\
  failedQueue (waiter_reject p e s) = failedQueue s.
Proof.
  unfold waiter_reject. split.
  - apply (settle_same p (Err e) (emit _ s)).
  - apply (settle_failedQueue p (Err e) (emit _ s)).
Qed.

Lemma waiter_resolve_tasks (R : nat -> phase -> Prop) p token s :
  R p AwaitResponse -> upd R (tasks s) (tasks (waiter_resolve p token s)).
Proof.
  intros HB. unfold waiter_resolve.
  eapply upd_trans; [| by apply apiClient_tasks]. cbn.
  apply upd_alter_request.
Qed.

(** [processQueue] is a loop over the waiters; its lemmas go by induction
    on the queue. *)
Section ProcessQueue.
Variable error : option error.
Variable token : value.

Local Abbreviation body := (queue_body error token).

Lemma processQueue_unfold s :
  processQueue error token s = set_failedQueue [] (foldl body s (failedQueue s)).
Proof. done. Qed.

Lemma body_tasks (R : nat -> phase -> Prop) p s :
  benign (R p) -> upd R (tasks s) (tasks (body s p)).
Proof.
  intros HB. unfold queue_body. destruct error as [e |].
  - by apply waiter_reject_tasks.
  - destruct (truthy token); [| apply upd_refl].
    apply waiter_resolve_tasks. by destruct HB.
Qed.

Lemma loop_tasks (R : nat -> phase -> Prop) q s :
  (forall p, p ∈ q -> benign (R p)) ->
  upd R (tasks s) (tasks (foldl body s q)).
Proof.
  revert s. induction q as [| p q IH]; intros s HB; cbn.
  - apply upd_refl.
  - eapply upd_trans.
    + apply body_tasks, HB, list_elem_of_here.
    + apply IH. intros p' Hp'. by apply HB, list_elem_of_further.
Qed.

Lemma processQueue_tasks (R : nat -> phase -> Prop) s :
  (forall p, p ∈ failedQueue s -> benign (R p)) ->
  upd R (tasks s) (tasks (processQueue error token s)).
Proof. intros HB. rewrite processQueue_unfold. cbn. by apply loop_tasks. Qed.

Lemma body_same p s :
  same_store s (body s p) /\ failedQueue (body s p) = failedQueue s.
Proof.
  unfold queue_body. destruct error as [e |].
  - apply waiter_reject_same.
  - by destruct (truthy token).
Qed.

Lemma loop_same q s : same_store s (foldl body s q).
Proof.
  revert s. induction q as [| p q IH]; intros s; cbn; [done |].
  eapply same_store_trans; [apply (body_same p s) | apply IH].
Qed.

Lemma processQueue_same s : same_store s (processQueue error token s).
Proof. rewrite processQueue_unfold. apply (loop_same (failedQueue s) s). Qed.

Lemma queue_obs_mono q q' o :
  (forall p, p ∈ q -> p ∈ q') -> queue_obs error token q o -> queue_obs error token q' o.
Proof.
  intros Hq. destruct o as [| | | | ? [|]]; cbn; try done; intuition auto.
Qed.

Lemma body_log p s :
  exists l, log (body s p) = log s ++ l /\ Forall (queue_obs error token [p]) l.
Proof.
  unfold queue_body. destruct error as [e |].
  - rewrite waiter_reject_log. eexists. split; [done |].
    repeat constructor; apply list_elem_of_here.
  - destruct (truthy token) eqn:E.
    + unfold waiter_resolve. rewrite apiClient_log. cbn.
      rewrite <- app_assoc. eexists. split; [done |].
      repeat constructor; try done; apply list_elem_of_here.
    + exists []. rewrite app_nil_r. split; [done | constructor].
Qed.

Lemma loop_log q s :
  exists l, log (foldl body s q) = log s ++ l /\ Forall (queue_obs error token q) l.
Proof.
  revert s. induction q as [| p q IH]; intros s; cbn.
  - exists []. rewrite app_nil_r. split; [done | constructor].
  - destruct (body_log p s) as (l1 & E1 & F1).
    destruct (IH (body s p)) as (l2 & E2 & F2).
    exists (l1 ++ l2). rewrite E2, E1, <- app_assoc.
    split; [done |]. apply Forall_app. split.
    + eapply Forall_impl; [apply F1 |]. intros o. apply queue_obs_mono.
      intros p' ->%list_elem_of_singleton. apply list_elem_of_here.
    + eapply Forall_impl; [apply F2 |]. intros o. apply queue_obs_mono.
      intros p' Hp'. by apply list_elem_of_further.
Qed.

Lemma processQueue_log s :
  exists l, log (processQueue error token s) = log s ++ l /\
            Forall (queue_obs error token (failedQueue s)) l.
Proof. rewrite processQueue_unfold. apply (loop_log (failedQueue s) s). Qed.

End ProcessQueue.

(** ** Lemmas on the transitions *)

Section Acts.
Variable R : nat -> phase -> Prop.
Variable M : phase -> Prop.
Variable i : nat.
Hypothesis HMR : forall p, M p -> R i p.

Lemma acts_tasks s s0 s' :
  tasks s0 = tasks s -> acts R M i s0 s' -> acts R M i s s'.
Proof. unfold acts. by intros ->. Qed.

Lemma acts_target s s'0 s' :
  tasks s'0 = tasks s' -> acts R M i s s'0 -> acts R M i s s'.
Proof. unfold acts, phase_of. by intros ->. Qed.

Lemma acts_set_phase p s :
  i < length (tasks s) -> M p -> acts R M i s (set_phase i p s).
Proof.
  intros Hi HM. split.
  - by apply upd_alter_phase, HMR.
  - exists p. split; [by apply phase_of_set_phase | done].
Qed.

Lemma acts_settle r s :
  i < length (tasks s) -> benign M ->
  (forall resp a rt, r = Ok resp -> parse resp = Some (a, rt) -> M (AuthSetRefreshToken a rt)) ->
  acts R M i s (settle i r s).
Proof.
  intros Hi HB Hset. split.
  - apply settle_tasks; [| by eauto].
    destruct HB as (? & ? & ?). repeat split; intros; by apply HMR.
  - by apply settle_phase.
Qed.

Lemma acts_apiClient s :
  i < length (tasks s) -> M AwaitResponse -> acts R M i s (apiClient i s).
Proof.
  intros Hi HM. split.
  - by apply apiClient_tasks, HMR.
  - exists AwaitResponse. split; [by apply apiClient_phase | done].
Qed.

Lemma acts_set_phase_on p s s0 :
  tasks s0 = tasks s -> i < length (tasks s) -> M p ->
  acts R M i s (set_phase i p s0).
Proof.
  intros Ht Hi HM. apply (acts_tasks s s0); [done |].
  apply acts_set_phase; [by rewrite Ht | done].
Qed.

Lemma acts_settle_on r s s0 :
  tasks s0 = tasks s -> i < length (tasks s) -> benign M ->
  (forall resp a rt, r = Ok resp -> parse resp = Some (a, rt) -> M (AuthSetRefreshToken a rt)) ->
  acts R M i s (settle i r s0).
Proof.
  intros Ht Hi HB Hset. apply (acts_tasks s s0); [done |].
  apply acts_settle; [by rewrite Ht | done | done].
Qed.

Lemma acts_after s s1 s' :
  upd R (tasks s) (tasks s1) -> acts R M i s1 s' -> acts R M i s s'.
Proof.
  intros H1 [H2 H3]. split; [| done]. by eapply upd_trans.
Qed.

Lemma refresh_catch_acts e s :
  i < length (tasks s) ->
  (forall p, p ∈ failedQueue s -> benign (R p)) ->
  M (AwaitClearRefreshToken e) ->
  acts R M i s (refresh_catch i e s).
Proof.
  intros Hi HB HM. unfold refresh_catch.
  eapply acts_after; [apply (processQueue_tasks (Some e) null R s HB) |].
  pose proof (upd_length _ _ _ (processQueue_tasks (Some e) null R s HB)) as Hlen.
  apply acts_set_phase_on; [done | by rewrite Hlen | done].
Qed.

End Acts.

Lemma touches_moves s ev i :
  actor ev = Some i -> forall p, moves s ev p -> touches s ev i p.
Proof. by right. Qed.

Lemma touches_benign_drained s ev p :
  p ∈ drained s ev -> benign (touches s ev p).
Proof.
  intros Hp. unfold benign, touches.
  repeat split; intros; left; (split; [done |]); unfold benign_phase; eauto.
Qed.

Lemma benign_moves s ev :
  (forall p, benign_phase p -> moves s ev p) -> benign (moves s ev).
Proof. intros H. repeat split; intros; apply H; unfold benign_phase; eauto. Qed.

Lemma getRefreshToken_str ok s rt :
  getRefreshToken ok s = str rt -> ok = true /\ secureStore s = Some rt.
Proof.
  unfold getRefreshToken. destruct ok; [| done].
  destruct (secureStore s); [| done]. by intros [= ->].
Qed.

Lemma on_rejected_acts s i r :
  i < length (tasks s) ->
  acts (touches s (Respond i (Failed r))) (moves s (Respond i (Failed r))) i s
    (on_rejected i r s).
Proof.
  intros Hi. unfold on_rejected.
  destruct (negb (is401 r) || _retry (request_of i s)).
  - apply acts_settle; [by apply touches_moves | done | | done].
    apply benign_moves. by left.
  - apply acts_set_phase; [by apply touches_moves | done |]. right. eauto.
Qed.

Lemma on_refreshToken_acts s i e ok :
  i < length (tasks s) ->
  acts (touches s (StoreGet i ok)) (moves s (StoreGet i ok)) i s
    (on_refreshToken i e (getRefreshToken ok s) s).
Proof.
  intros Hi. unfold on_refreshToken.
  assert (benign (moves s (StoreGet i ok))) as HB.
  { apply benign_moves. by left. }
  assert (forall p, moves s (StoreGet i ok) p -> touches s (StoreGet i ok) i p) as HT.
  { by apply touches_moves. }
  destruct (getRefreshToken ok s) as [| | rt] eqn:Hrt;
    try (apply acts_settle; done).
  destruct (negb (truthy (str rt))); [by apply acts_settle |].
  destruct (isRefreshing s) eqn:Hr.
  - apply acts_set_phase_on; [done | done | done |]. right. left. done.
  - apply getRefreshToken_str in Hrt as [-> Hst].
    assert (moves s (StoreGet i true) (AwaitRefreshPost rt)) as Hm.
    { right. right. eauto. }
    split.
    + cbn. eapply upd_trans; [apply upd_alter_request |].
      by apply upd_alter_phase, HT.
    + exists (AwaitRefreshPost rt). split; [| done].
      unfold phase_of. cbn. rewrite !list_lookup_alter_eq.
      destruct (lookup_lt_is_Some_2 _ _ Hi) as [t ->]. done.
Qed.

Lemma on_refresh_reply_acts s i rt r :
  i < length (tasks s) ->
  acts (touches s (RefreshRespond i r)) (moves s (RefreshRespond i r)) i s
    (on_refresh_reply i rt r s).
Proof.
  intros Hi. unfold on_refresh_reply.
  assert (forall p, moves s (RefreshRespond i r) p -> touches s (RefreshRespond i r) i p) as HT.
  { by apply touches_moves. }
  assert (forall e, acts (touches s (RefreshRespond i r)) (moves s (RefreshRespond i r)) i s
                      (refresh_catch i e s)) as Hc.
  { intros e. apply refresh_catch_acts; [done | done | |].
    - intros p Hp. by apply touches_benign_drained.
    - left. eauto. }
  destruct r as [resp | resp]; [| apply Hc].
  destruct (data resp) as [d |] eqn:Hd; [| apply Hc].
  apply acts_set_phase_on; [done | done | done |]. right. eauto 6.
Qed.

Lemma on_refresh_stored_acts s i a r ok :
  i < length (tasks s) ->
  acts (touches s (StoreSet i ok)) (moves s (StoreSet i ok)) i s
    (on_refresh_stored i a r ok s).
Proof.
  intros Hi. unfold on_refresh_stored.
  assert (forall p, moves s (StoreSet i ok) p -> touches s (StoreSet i ok) i p) as HT.
  { by apply touches_moves. }
  destruct (setRefreshToken r ok s) as [s1 |] eqn:Hs1.
  - assert (tasks s1 = tasks s /\ failedQueue s1 = failedQueue s) as [Ht Hq].
    { unfold setRefreshToken in Hs1. destruct r; try done.
      destruct ok; [| done]. by injection Hs1 as <-. }
    rewrite <- Ht in Hi.
    set (s2 := set_request i _ s1).
    assert (upd (touches s (StoreSet i ok)) (tasks s1) (tasks s2)) as H12.
    { apply upd_alter_request. }
    assert (upd (touches s (StoreSet i ok)) (tasks s2) (tasks (processQueue None a s2))) as H23.
    { apply processQueue_tasks. intros p Hp. apply touches_benign_drained.
      cbn. by rewrite <- Hq. }
    eapply acts_tasks; [exact Ht |].
    eapply acts_after; [apply H12 |]. eapply acts_after; [apply H23 |].
    apply (acts_target _ _ i _ (apiClient i (processQueue None a s2))); [done |].
    apply acts_apiClient; [done | |].
    + rewrite (upd_length _ _ _ H23), (upd_length _ _ _ H12). done.
    + left. unfold benign_phase. eauto.
  - apply refresh_catch_acts; [done | done | |].
    + intros p Hp. by apply touches_benign_drained.
    + right. eauto.
Qed.

Lemma on_auth_stored_acts s i r ok :
  i < length (tasks s) ->
  acts (touches s (StoreSet i ok)) (moves s (StoreSet i ok)) i s
    (on_auth_stored i r ok s).
Proof.
  intros Hi. unfold on_auth_stored, mount_catch.
  assert (forall p, moves s (StoreSet i ok) p -> touches s (StoreSet i ok) i p) as HT.
  { by apply touches_moves. }
  assert (forall p, benign_phase p -> moves s (StoreSet i ok) p) as HB.
  { intros p Hp. by left. }
  destruct (setRefreshToken (str r) ok s) as [s1 |] eqn:Hs1.
  - assert (tasks s1 = tasks s) as Ht.
    { cbn in Hs1. destruct ok; [| done]. by injection Hs1 as <-. }
    destruct (op_of i (setIsAuthenticated true s1));
      (apply acts_set_phase_on; [done | done | done |]);
      apply HB; unfold benign_phase; eauto.
  - destruct (op_of i s);
      (apply acts_set_phase_on; [done | done | done |]);
      apply HB; unfold benign_phase; eauto.
Qed.

(** Every transition that completes an awaited operation, seen from the
    calls. *)
Lemma step_abstract s ev s' i :
  step s ev = Some s' -> actor ev = Some i ->
  acts (touches s ev) (moves s ev) i s s' /\ exists p0, phase_of i s = Some p0.
Proof.
  intros Hstep Hact.
  assert (forall p, moves s ev p -> touches s ev i p) as HT.
  { by apply touches_moves. }
  destruct ev as [| | | | | i' r | i' r | i' ok | i' ok | i' ok]; try done;
    injection Hact as ->; cbn in Hstep;
    destruct (phase_of i s) as [p0 |] eqn:Hp0; try done;
    pose proof (phase_of_lt _ _ _ Hp0) as Hi;
    (split; [| eauto]);
    destruct p0; try done; try injection Hstep as <-.
  - destruct r as [resp | resp]; injection Hstep as <-.
    + apply acts_settle; [done | done | |].
      * apply benign_moves. by left.
      * intros ? a rt [= <-] Hp. right. eauto.
    + by apply on_rejected_acts.
  - by apply on_refresh_reply_acts.
  - by apply on_refreshToken_acts.
  - unfold on_mount_token.
    destruct (truthy (getRefreshToken ok s)).
    + set (c := {| _retry := false; Authorization := None;
                   body := Some (getRefreshToken ok s) |}).
      apply (acts_after _ _ _ s (set_request i c s)); [apply upd_alter_request |].
      apply acts_apiClient; [done | by simpl_fields; rewrite length_alter |].
      left. unfold benign_phase. eauto.
    + apply acts_set_phase_on; [done | done | done |].
      left. unfold benign_phase. eauto.
  - by apply on_refresh_stored_acts.
  - by apply on_auth_stored_acts.
  - unfold on_refresh_cleared.
    apply acts_settle_on; [done | by destruct ok | done | | done].
    by apply benign_moves.
  - apply acts_set_phase_on; [done | by destruct ok | done |].
    unfold moves, benign_phase. eauto.
  - apply acts_set_phase_on; [done | by destruct ok | done |].
    unfold moves, benign_phase. eauto.
Qed.

(** The transitions that start a call. *)
Lemma step_spawn s ev s' :
  step s ev = Some s' -> actor ev = None ->
  length (tasks s') = S (length (tasks s)) /\
  (forall j t', tasks s' !! j = Some t' ->
     (exists t, tasks s !! j = Some t /\ op t' = op t /\ ph t' = ph t) \/
     (j = length (tasks s) /\ initial_phase (ph t'))) /\
  same_store s s' /\ failedQueue s' = failedQueue s /\
  exists l, log s' = log s ++ l /\ Forall (step_obs s ev) l.
Proof.
  intros Hstep Hact.
  assert (forall o p0 s0,
             tasks s0 = tasks s -> initial_phase p0 ->
             let s1 := apiClient (length (tasks s)) (spawn o p0 s0) in
             length (tasks s1) = S (length (tasks s)) /\
             (forall j t', tasks s1 !! j = Some t' ->
                (exists t, tasks s !! j = Some t /\ op t' = op t /\ ph t' = ph t) \/
                (j = length (tasks s) /\ initial_phase (ph t')))) as Hcall.
  { intros o p0 s0 Ht Hp0 s1.
    pose proof (apiClient_tasks (fun j p => j = length (tasks s) /\ p = AwaitResponse)
                  (length (tasks s)) (spawn o p0 s0)) as Hu.
    simpl_fields. rewrite Ht in Hu.
    apply upd_snoc in Hu as [Hlen Hu]; [| done]. split; [done |].
    intros j t' Ej. destruct (Hu j t' Ej) as [(t & Et & Hop & Hp) | (-> & Hop & Hp)].
    - left. exists t. repeat split; try done.
      destruct Hp as [Hp | [-> _]]; [done |]. apply lookup_lt_Some in Et. lia.
    - right. split; [done |]. destruct Hp as [-> | [_ ->]]; [done | by left]. }
  destruct ev; try done; cbn in Hstep; injection Hstep as <-.
  - destruct (Hcall Fetch AwaitResponse s eq_refl) as [H1 H2]; [by left |].
    repeat split; try done. rewrite apiClient_log. eexists. split; [done |].
    by repeat constructor.
  - destruct (Hcall Login AwaitResponse s eq_refl) as [H1 H2]; [by left |].
    repeat split; try done. rewrite apiClient_log. eexists. split; [done |].
    by repeat constructor.
  - destruct (Hcall Register AwaitResponse s eq_refl) as [H1 H2]; [by left |].
    repeat split; try done. rewrite apiClient_log. eexists. split; [done |].
    by repeat constructor.
  - simpl_fields. rewrite length_app. cbn. split; [lia |].
    split; [| repeat split; try done; exists []; by rewrite app_nil_r].
    intros j t' [[? Ej] | [-> <-]]%lookup_snoc_Some; [left; eauto | right].
    split; [done |]. right. by left.
  - simpl_fields. rewrite length_app. cbn. split; [lia |].
    split; [| repeat split; try done; exists []; by rewrite app_nil_r].
    intros j t' [[? Ej] | [-> <-]]%lookup_snoc_Some; [left; eauto | right].
    split; [done |]. right. by right.
Qed.

Lemma acts_phase R M i s s' :
  acts R M i s s' -> exists p, phase_of i s' = Some p /\ M p.
Proof. by intros [_ H]. Qed.

(** [isRefreshing] follows the phase of the call that holds the mutex. *)
Lemma step_mutex_post s ev s' i p0 :
  step s ev = Some s' -> actor ev = Some i -> phase_of i s = Some p0 ->
  exists p, phase_of i s' = Some p /\ mutex_post s s' p0 p.
Proof.
  intros Hstep Hact Hp0. pose proof (phase_of_lt _ _ _ Hp0) as Hi.
  set (R := fun (_ : nat) (_ : phase) => True).
  assert (forall (M : phase -> Prop) p, M p -> R i p) as HR by done.
  assert (forall e s0 (M : phase -> Prop),
             tasks s0 = tasks s -> M (AwaitClearRefreshToken e) ->
             exists p, phase_of i (refresh_catch i e s0) = Some p /\ M p) as Hcatch.
  { intros e s0 M Ht HM. eapply (acts_phase R M i s0).
    apply refresh_catch_acts; [by apply HR | by rewrite Ht | | done].
    intros; repeat split; done. }
  destruct ev as [| | | | | i' r | i' r | i' ok | i' ok | i' ok]; try done;
    injection Hact as ->; cbn in Hstep; rewrite Hp0 in Hstep;
    destruct p0; try done; try injection Hstep as <-.
  - (* Respond *)
    destruct r as [resp | resp]; injection Hstep as <-.
    + eapply (acts_phase R _ i s). apply acts_settle; [by apply HR | done | |].
      * repeat split; intros; apply (settle_same i (Ok resp) s).
      * intros. apply (settle_same i (Ok resp) s).
    + unfold on_rejected.
      destruct (negb (is401 resp) || _retry (request_of i s)).
      * eapply (acts_phase R _ i s). apply acts_settle; [by apply HR | done | | done].
        repeat split; intros; apply (settle_same i (Err _) s).
      * eapply (acts_phase R _ i s). by apply acts_set_phase; [apply HR | |].
  - (* RefreshRespond *)
    unfold on_refresh_reply.
    assert (forall e, exists p, phase_of i (refresh_catch i e s) = Some p /\
                                mutex_post s (refresh_catch i e s) (AwaitRefreshPost refreshToken) p) as Hc.
    { intros e. apply Hcatch; [done |]. unfold mutex_post. cbn.
      apply (processQueue_same (Some e) null s). }
    destruct r as [resp | resp]; [| apply Hc].
    destruct (data resp) as [d |]; [| apply Hc].
    eapply (acts_phase R _ i s). by apply acts_set_phase_on; [apply HR | | |].
  - (* StoreGet, client.ts *)
    unfold on_refreshToken.
    assert (exists p, phase_of i (settle i (Err error0) s) = Some p /\
                      mutex_post s (settle i (Err error0) s) (AwaitGetRefreshToken error0) p) as Hs.
    { eapply (acts_phase R _ i s). apply acts_settle; [by apply HR | done | | done].
      repeat split; intros; apply (settle_same i (Err _) s). }
    destruct (getRefreshToken ok s) as [| | rt]; try apply Hs.
    destruct (negb (truthy (str rt))); [apply Hs |].
    destruct (isRefreshing s) eqn:Hr.
    + eapply (acts_phase R _ i s). apply acts_set_phase_on; [by apply HR | done | done |].
      unfold mutex_post. cbn. done.
    + exists (AwaitRefreshPost rt). split; [| done].
      unfold phase_of. cbn. rewrite !list_lookup_alter_eq.
      destruct (lookup_lt_is_Some_2 _ _ Hi) as [t ->]. done.
  - (* StoreGet, mount effect *)
    unfold on_mount_token. destruct (truthy (getRefreshToken ok s)).
    + exists AwaitResponse. split; [| done].
      apply apiClient_phase. simpl_fields. by rewrite length_alter.
    + eapply (acts_phase R _ i s). by apply acts_set_phase_on; [apply HR | | |].
  - (* StoreSet, client.ts *)
    unfold on_refresh_stored.
    destruct (setRefreshToken newRefresh ok s) as [s1 |] eqn:Hs1.
    + assert (tasks s1 = tasks s) as Ht.
      { unfold setRefreshToken in Hs1. destruct newRefresh; try done.
        destruct ok; [| done]. by injection Hs1 as <-. }
      exists AwaitResponse. split; [| done].
      set (s2 := set_request i _ s1).
      pose proof (processQueue_tasks None access_token0 R s2 (fun _ _ => ltac:(repeat split; done))) as Hu.
      apply upd_length in Hu.
      change (phase_of i (apiClient i (processQueue None access_token0 s2)) = Some AwaitResponse).
      apply apiClient_phase. rewrite Hu. subst s2. simpl_fields.
      rewrite length_alter. by rewrite Ht.
    + apply Hcatch; [done |]. unfold mutex_post. cbn.
      apply (processQueue_same (Some SecureStoreError) null s).
  - (* StoreSet, AuthContext.tsx *)
    unfold on_auth_stored, mount_catch.
    destruct (setRefreshToken (str refresh) ok s) as [s1 |] eqn:Hs1.
    + assert (tasks s1 = tasks s /\ isRefreshing s1 = isRefreshing s) as [Ht Hr].
      { cbn in Hs1. destruct ok; [| done]. by injection Hs1 as <-. }
      destruct (op_of i (setIsAuthenticated true s1));
        (eapply (acts_phase R _ i s); apply acts_set_phase_on; [by apply HR | done | done |]);
        unfold mutex_post; cbn; done.
    + destruct (op_of i s);
        (eapply (acts_phase R _ i s); apply acts_set_phase_on; [by apply HR | done | done |]);
        unfold mutex_post; cbn; done.
  - (* StoreDelete, client.ts *)
    unfold on_refresh_cleared.
    eapply (acts_phase R _ i s). apply acts_settle_on; [by apply HR | by destruct ok | done | | done].
    repeat split; intros; unfold mutex_post; cbn;
      by destruct (settle_same i (Err refreshError) (set_isRefreshing false (clearRefreshToken ok s)))
        as (_ & -> & _).
  - eapply (acts_phase R _ i s). apply acts_set_phase_on; [by apply HR | by destruct ok | done |].
    unfold mutex_post. cbn. by destruct ok.
  - eapply (acts_phase R _ i s). apply acts_set_phase_on; [by apply HR | by destruct ok | done |].
    unfold mutex_post. cbn. by destruct ok.
Qed.

(** ** The refresh mutex *)

Lemma benign_not_renewing p : benign_phase p -> renewing p = false.
Proof. by intros [-> | [-> | [res ->]]]. Qed.

Lemma initial_not_renewing p : initial_phase p -> renewing p = false.
Proof. by intros [-> | [-> | ->]]. Qed.

Lemma mutex_init stored : mutex_inv (init stored).
Proof. exists 0. intros j t. done. Qed.

Lemma step_mutex s ev s' : mutex_inv s -> step s ev = Some s' -> mutex_inv s'.
Proof.
  intros [i0 Hinv] Hstep. destruct (actor ev) as [i |] eqn:Hact.
  - destruct (step_abstract s ev s' i Hstep Hact) as [[Hupd _] [p0 Hp0]].
    destruct (step_mutex_post s ev s' i p0 Hstep Hact Hp0) as (p & Hp & Hpost).
    apply phase_of_Some in Hp0 as (t0 & Et0 & <-).
    apply phase_of_Some in Hp as (t1 & Et1 & <-).
    (* the calls other than [i] that hold the mutex held it before *)
    assert (forall j t', tasks s' !! j = Some t' -> renewing (ph t') = true -> j <> i ->
                         exists t, tasks s !! j = Some t /\ renewing (ph t) = true) as Hold.
    { intros j t' Ej Hr Hne. destruct (upd_phase _ _ _ j t' Hupd Ej) as (t & Et & _ & Hp).
      exists t. split; [done |]. destruct Hp as [<- | [[_ Hb] | [Ha _]]]; [done | |].
      - apply benign_not_renewing in Hb. congruence.
      - rewrite Hact in Ha. by injection Ha as ->. }
    unfold mutex_post in Hpost.
    destruct (renewing (ph t0)) eqn:Hr0, (renewing (ph t1)) eqn:Hr1.
    + (* the holder keeps the mutex *)
      destruct (Hinv i t0 Et0 Hr0) as [-> Hs].
      exists i0. intros j t' Ej Hr. split; [| congruence].
      destruct (decide (j = i0)) as [-> | Hne]; [done |].
      destruct (Hold j t' Ej Hr Hne) as (t & Et & Hrt). by apply (Hinv j t).
    + (* the holder releases it *)
      destruct (Hinv i t0 Et0 Hr0) as [-> Hs].
      exists i0. intros j t' Ej Hr. exfalso.
      destruct (decide (j = i0)) as [-> | Hne]; [congruence |].
      destruct (Hold j t' Ej Hr Hne) as (t & Et & Hrt).
      by destruct (Hinv j t Et Hrt) as [-> _].
    + (* the call takes it; it was free *)
      destruct Hpost as [Hfree Hs'].
      exists i. intros j t' Ej Hr. split; [| done].
      destruct (decide (j = i)) as [-> | Hne]; [done |]. exfalso.
      destruct (Hold j t' Ej Hr Hne) as (t & Et & Hrt).
      destruct (Hinv j t Et Hrt) as [_ Hs]. congruence.
    + exists i0. intros j t' Ej Hr.
      assert (j <> i) as Hne by (intros ->; congruence).
      destruct (Hold j t' Ej Hr Hne) as (t & Et & Hrt).
      destruct (Hinv j t Et Hrt) as [-> Hs]. split; [done | congruence].
  - destruct (step_spawn s ev s' Hstep Hact) as (_ & Hsp & (_ & Hr & _) & _).
    exists i0. intros j t' Ej Hrt. rewrite Hr.
    destruct (Hsp j t' Ej) as [(t & Et & _ & Hp) | [_ Hi]].
    + apply (Hinv j t Et). by rewrite <- Hp.
    + apply initial_not_renewing in Hi. congruence.
Qed.

Lemma run_mutex tr s s' : mutex_inv s -> run s tr = Some s' -> mutex_inv s'.
Proof.
  revert s. induction tr as [| ev tr IH]; intros s Hinv; cbn.
  - by intros [= <-].
  - destruct (step s ev) as [s1 |] eqn:Hstep; [| done].
    apply IH. by eapply step_mutex.
Qed.

(** ** What a transition does outside the calls *)

Lemma queue_obs_step_obs s ev error token o :
  drained s ev = failedQueue s ->
  queue_obs error token (failedQueue s) o -> step_obs s ev o.
Proof.
  intros Hd. destruct o as [| | | | ? [|]]; cbn; try done; rewrite Hd; tauto.
Qed.

Lemma refresh_catch_effects s ev i e :
  drained s ev = failedQueue s ->
  (exists l, log (refresh_catch i e s) = log s ++ l /\ Forall (step_obs s ev) l) /\
  failedQueue (refresh_catch i e s) = [] /\
  secureStore (refresh_catch i e s) = secureStore s.
Proof.
  intros Hd. unfold refresh_catch. simpl_fields. repeat split.
  - destruct (processQueue_log (Some e) null s) as (l & -> & Hl).
    exists l. split; [done |].
    eapply Forall_impl; [apply Hl |]. intros o. by apply queue_obs_step_obs.
  - apply (processQueue_same (Some e) null s).
Qed.

Lemma step_effects s ev s' :
  step s ev = Some s' ->
  (exists l, log s' = log s ++ l /\ Forall (step_obs s ev) l) /\
  (failedQueue s' = failedQueue s \/ failedQueue s' = [] \/
   exists i e, ev = StoreGet i true /\ phase_of i s = Some (AwaitGetRefreshToken e) /\
               failedQueue s' = failedQueue s ++ [i]) /\
  (secureStore s' = secureStore s \/ secureStore s' = None \/
   exists i p0 r, actor ev = Some i /\ phase_of i s = Some p0 /\
                  pending_write r p0 = true /\ secureStore s' = Some r).
Proof.
  intros Hstep. destruct (actor ev) as [i |] eqn:Hact.
  2: { destruct (step_spawn s ev s' Hstep Hact) as (_ & _ & (Hst & _) & Hq & Hl).
       split; [done |]. split; by left. }
  assert (forall r s0, log s0 = log s -> failedQueue s0 = failedQueue s ->
                       (exists l, log (settle i r s0) = log s ++ l /\ Forall (step_obs s ev) l) /\
                       failedQueue (settle i r s0) = failedQueue s /\
                       secureStore (settle i r s0) = secureStore s0) as Hsettle.
  { intros r s0 Hl Hq. rewrite settle_log, settle_failedQueue, Hl, Hq.
    split; [| split; [done | apply settle_same]].
    eexists. split; [done |]. by repeat constructor. }
  assert (forall s0, log s0 = log s ->
                     exists l, log s0 = log s ++ l /\ Forall (step_obs s ev) l) as Hnil.
  { intros s0 ->. exists []. by rewrite app_nil_r. }
  destruct ev as [| | | | | i' r | i' r | i' ok | i' ok | i' ok]; try done;
    injection Hact as ->; cbn in Hstep;
    destruct (phase_of i s) as [p0 |] eqn:Hp0; try done;
    destruct p0; try done; try injection Hstep as <-.
  - (* Respond *)
    destruct r as [resp | resp]; injection Hstep as <-.
    + destruct (Hsettle (Ok resp) s eq_refl eq_refl) as (? & ? & ?). auto.
    + unfold on_rejected. destruct (negb (is401 resp) || _retry (request_of i s)).
      * destruct (Hsettle (Err (AxiosError (ApiCall i) resp)) s eq_refl eq_refl) as (? & ? & ?).
        auto.
      * split; [by apply Hnil |]. split; by left.
  - (* RefreshRespond *)
    unfold on_refresh_reply.
    assert (forall e, (exists l, log (refresh_catch i e s) = log s ++ l /\
                                 Forall (step_obs s (RefreshRespond i r)) l) /\
                      (failedQueue (refresh_catch i e s) = failedQueue s \/
                       failedQueue (refresh_catch i e s) = [] \/
                       exists i0 e0, RefreshRespond i r = StoreGet i0 true /\
                                     phase_of i0 s = Some (AwaitGetRefreshToken e0) /\
                                     failedQueue (refresh_catch i e s) = failedQueue s ++ [i0]) /\
                      (secureStore (refresh_catch i e s) = secureStore s \/
                       secureStore (refresh_catch i e s) = None \/
                       exists i0 p0 r0, actor (RefreshRespond i r) = Some i0 /\
                                        phase_of i0 s = Some p0 /\
                                        pending_write r0 p0 = true /\
                                        secureStore (refresh_catch i e s) = Some r0)) as Hc.
    { intros e. destruct (refresh_catch_effects s (RefreshRespond i r) i e eq_refl) as (? & ? & ?).
      auto. }
    destruct r as [resp | resp]; [| apply Hc].
    destruct (data resp) as [d |]; [| apply Hc].
    split; [by apply Hnil |]. split; by left.
  - (* StoreGet, client.ts *)
    unfold on_refreshToken.
    destruct (Hsettle (Err error0) s eq_refl eq_refl) as (? & ? & ?).
    destruct (getRefreshToken ok s) as [| | rt] eqn:Hrt; auto.
    destruct (negb (truthy (str rt))); auto.
    apply getRefreshToken_str in Hrt as [-> Hst].
    destruct (isRefreshing s) eqn:Hr.
    + split; [by apply Hnil |]. split; [| by left]. right. right. eauto.
    + split; [| split; by left]. eexists. split; [done |].
      repeat constructor. cbn. eauto.
  - (* StoreGet, mount effect *)
    unfold on_mount_token. destruct (truthy (getRefreshToken ok s)).
    + split; [| split; by left]. rewrite apiClient_log. eexists. split; [done |].
      by repeat constructor.
    + split; [by apply Hnil |]. split; by left.
  - (* StoreSet, client.ts *)
    unfold on_refresh_stored.
    destruct (setRefreshToken newRefresh ok s) as [s1 |] eqn:Hs1.
    + unfold setRefreshToken in Hs1. destruct newRefresh as [| | r']; try done.
      destruct ok; [| done]. injection Hs1 as <-.
      set (s2 := set_request i _ _).
      destruct (processQueue_log None access_token0 s2) as (l & El & Hl).
      split; [| split].
      * simpl_fields. rewrite apiClient_log, El. subst s2. simpl_fields.
        rewrite <- app_assoc. eexists. split; [done |].
        apply Forall_app. split; [| by repeat constructor].
        eapply Forall_impl; [apply Hl |]. intros o.
        by apply (queue_obs_step_obs s (StoreSet i true)).
      * right. by left.
      * right. right. exists i, (AwaitSetRefreshToken refreshToken access_token0 (str r')), r'.
        repeat split; try done.
        -- cbn. by rewrite String.eqb_refl.
        -- change (secureStore (processQueue None access_token0 s2) = Some r').
           destruct (processQueue_same None access_token0 s2) as (-> & _). done.
    + destruct (refresh_catch_effects s (StoreSet i ok) i SecureStoreError eq_refl) as (? & ? & ?).
      auto.
  - (* StoreSet, AuthContext.tsx *)
    unfold on_auth_stored, mount_catch.
    destruct (setRefreshToken (str refresh) ok s) as [s1 |] eqn:Hs1.
    + cbn in Hs1. destruct ok; [| done]. injection Hs1 as <-.
      split; [| split; [left; by destruct (op_of i _) |]].
      * destruct (op_of i _); by apply Hnil.
      * right. right. exists i, (AuthSetRefreshToken access refresh), refresh.
        repeat split; try done.
        -- cbn. by rewrite String.eqb_refl.
        -- by destruct (op_of i _).
    + split; [| split; left]; destruct (op_of i s); try done; by apply Hnil.
  - (* StoreDelete, client.ts *)
    unfold on_refresh_cleared.
    destruct (Hsettle (Err refreshError) (set_isRefreshing false (clearRefreshToken ok s)))
      as (Hl & Hq & Hst); [by destruct ok | by destruct ok |].
    split; [done |]. split; [by left |]. rewrite Hst. destruct ok; auto.
  - split; [apply Hnil; by destruct ok |]. split; [left; by destruct ok |].
    destruct ok; auto.
  - split; [apply Hnil; by destruct ok |]. split; [left; by destruct ok |].
    destruct ok; auto.
Qed.

(** ** The log of [processQueue], exactly *)

Lemma emitted_app s s' l : log s' = log s ++ l -> emitted s s' = l.
Proof. unfold emitted. intros ->. apply drop_app_length. Qed.

Lemma request_of_alter_request j i c s :
  _retry c = _retry (request_of i s) ->
  _retry (request_of j (set_request i c s)) = _retry (request_of j s).
Proof.
  intros Hc. unfold request_of, set_request in *. simpl_fields.
  rewrite list_lookup_alter. destruct (decide (i = j)) as [<- |]; [| done].
  destruct (tasks s !! i); done.
Qed.

Lemma request_of_set_phase j i p s : request_of j (set_phase i p s) = request_of j s.
Proof.
  unfold request_of, set_phase. simpl_fields. rewrite list_lookup_alter.
  destruct (decide (i = j)) as [<- |]; [| done]. by destruct (tasks s !! i).
Qed.

Lemma request_of_set_request i c s :
  i < length (tasks s) -> request_of i (set_request i c s) = c.
Proof.
  intros Hi. unfold request_of, set_request. simpl_fields.
  rewrite list_lookup_alter_eq. by destruct (lookup_lt_is_Some_2 _ _ Hi) as [t ->].
Qed.

Lemma apiClient_retry j i s :
  _retry (request_of j (apiClient i s)) = _retry (request_of j s).
Proof.
  unfold apiClient.
  change (_retry (request_of j (set_phase i AwaitResponse
            (set_request i (request_interceptor s (request_of i s)) s))) =
          _retry (request_of j s)).
  rewrite request_of_set_phase. apply request_of_alter_request.
  unfold request_interceptor. by destruct (truthy (accessToken s)).
Qed.

Lemma waiter_resolve_retry j p token s :
  _retry (request_of j (waiter_resolve p token s)) = _retry (request_of j s).
Proof.
  unfold waiter_resolve. rewrite apiClient_retry.
  by apply (request_of_alter_request j p _ (emit _ s)).
Qed.

Lemma request_of_alter_body j i c s :
  body c = body (request_of i s) ->
  body (request_of j (set_request i c s)) = body (request_of j s).
Proof.
  intros Hc. unfold request_of, set_request in *. simpl_fields.
  rewrite list_lookup_alter. destruct (decide (i = j)) as [<- |]; [| done].
  destruct (tasks s !! i); done.
Qed.

Lemma apiClient_body j i s :
  body (request_of j (apiClient i s)) = body (request_of j s).
Proof.
  unfold apiClient.
  change (body (request_of j (set_phase i AwaitResponse
            (set_request i (request_interceptor s (request_of i s)) s))) =
          body (request_of j s)).
  rewrite request_of_set_phase. apply request_of_alter_body.
  unfold request_interceptor. by destruct (truthy (accessToken s)).
Qed.

Lemma waiter_resolve_body j p token s :
  body (request_of j (waiter_resolve p token s)) = body (request_of j s).
Proof.
  unfold waiter_resolve. rewrite apiClient_body.
  by apply (request_of_alter_body j p _ (emit _ s)).
Qed.

Lemma waiter_resolve_log p token s :
  p < length (tasks s) ->
  log (waiter_resolve p token s) =
  log s ++ [WaiterResolved p token;
            Sent p (op_of p s)
              (Some (Bearer (if truthy (accessToken s) then accessToken s else token)))
              (_retry (request_of p s)) (body (request_of p s))].
Proof.
  intros Hp. unfold waiter_resolve. rewrite apiClient_log.
  rewrite (request_of_set_request p _ (emit _ s)) by done.
  rewrite (op_of_upd (fun _ _ => True) p (emit (WaiterResolved p token) s));
    [| apply upd_alter_request].
  unfold request_interceptor. simpl_fields. rewrite <- app_assoc.
  by destruct (truthy (accessToken s)).
Qed.

Lemma loop_reject_log e token q s :
  log (foldl (queue_body (Some e) token) s q) = log s ++ rejections e q.
Proof.
  revert s. induction q as [| p q IH]; intros s; cbn.
  - by rewrite app_nil_r.
  - rewrite IH, waiter_reject_log, <- app_assoc. done.
Qed.

Lemma processQueue_reject_log e token s :
  log (processQueue (Some e) token s) = log s ++ rejections e (failedQueue s).
Proof. rewrite processQueue_unfold. apply loop_reject_log. Qed.

Lemma loop_resolve_tasks (R : nat -> phase -> Prop) token q s :
  (forall p, p ∈ q -> R p AwaitResponse) ->
  upd R (tasks s) (tasks (foldl (queue_body None token) s q)).
Proof.
  revert s. induction q as [| p q IH]; intros s HR; cbn.
  - apply upd_refl.
  - eapply upd_trans; [| apply IH; intros; by apply HR, list_elem_of_further].
    destruct (truthy token); [| apply upd_refl].
    apply waiter_resolve_tasks, HR, list_elem_of_here.
Qed.

Lemma loop_resolve_keeps token q s :
  accessToken (foldl (queue_body None token) s q) = accessToken s /\
  (forall j, op_of j (foldl (queue_body None token) s q) = op_of j s) /\
  (forall j, _retry (request_of j (foldl (queue_body None token) s q)) =
             _retry (request_of j s)).
Proof.
  revert s. induction q as [| p q IH]; intros s; cbn; [done |].
  destruct (IH (if truthy token then waiter_resolve p token s else s)) as (-> & Ho & Hr).
  destruct (truthy token); [| done]. repeat split.
  - intros j. rewrite Ho. apply (op_of_upd (fun _ _ => True)). by apply waiter_resolve_tasks.
  - intros j. rewrite Hr. apply waiter_resolve_retry.
Qed.

Lemma loop_resolve_body token q s j :
  body (request_of j (foldl (queue_body None token) s q)) = body (request_of j s).
Proof.
  revert s. induction q as [| p q IH]; intros s; cbn; [done |].
  rewrite IH. destruct (truthy token); [apply waiter_resolve_body | done].
Qed.

Lemma loop_resolve_elem token q s p :
  truthy token = true -> p ∈ q -> p < length (tasks s) ->
  exists l, log (foldl (queue_body None token) s q) = log s ++ l /\
            WaiterResolved p token ∈ l /\
            Sent p (op_of p s)
              (Some (Bearer (if truthy (accessToken s) then accessToken s else token)))
              (_retry (request_of p s)) (body (request_of p s)) ∈ l.
Proof.
  intros Ht. revert s. induction q as [| p' q IH]; intros s Hp Hlt; [by apply elem_of_nil in Hp |].
  cbn. rewrite Ht.
  destruct (loop_log None token q (waiter_resolve p' token s)) as (l2 & E2 & _).
  destruct (body_log None token p' s) as (l1 & E1 & _).
  unfold queue_body in E1. rewrite Ht in E1.
  apply elem_of_cons in Hp as [-> | Hp].
  - rewrite E2, waiter_resolve_log by done. rewrite <- app_assoc.
    eexists. split; [done |]. split.
    + apply list_elem_of_here.
    + apply list_elem_of_further, list_elem_of_here.
  - destruct (IH (waiter_resolve p' token s) Hp) as (l & E & H1 & H2).
    { by rewrite (upd_length _ _ _ (waiter_resolve_tasks (fun _ _ => True) p' token s I)). }
    rewrite E, E1, <- app_assoc. eexists. split; [done |].
    rewrite (op_of_upd (fun _ _ => True) p s) in H2 by (by apply waiter_resolve_tasks).
    rewrite waiter_resolve_retry, waiter_resolve_body in H2.
    split; apply elem_of_app; by right.
Qed.

Lemma loop_resolve_phase token q s p :
  truthy token = true -> p ∈ q -> p < length (tasks s) ->
  phase_of p (foldl (queue_body None token) s q) = Some AwaitResponse.
Proof.
  intros Ht. revert s. induction q as [| p' q IH]; intros s Hp Hlt; [by apply elem_of_nil in Hp |].
  cbn. rewrite Ht.
  assert (length (tasks (waiter_resolve p' token s)) = length (tasks s)) as Hlen.
  { by rewrite (upd_length _ _ _ (waiter_resolve_tasks (fun _ _ => True) p' token s I)). }
  destruct (decide (p ∈ q)) as [Hq | Hq]; [apply IH; [done | by rewrite Hlen] |].
  apply elem_of_cons in Hp as [-> | Hp]; [| done].
  set (s1 := waiter_resolve p' token s).
  assert (phase_of p' s1 = Some AwaitResponse) as H1.
  { unfold s1, waiter_resolve. apply apiClient_phase. simpl_fields. by rewrite length_alter. }
  pose proof (loop_resolve_tasks (fun j _ => j ∈ q) token q s1 (fun _ H => H)) as Hu.
  destruct (phase_of p' (foldl (queue_body None token) s1 q)) as [p1 |] eqn:E.
  - apply phase_of_Some in E as (t' & Et' & <-).
    destruct (upd_phase _ _ _ p' t' Hu Et') as (t & Et & _ & [Hp | Hp]); [| done].
    apply phase_of_Some in H1 as (t1 & Et1 & <-). congruence.
  - unfold phase_of in E. destruct (tasks _ !! p') eqn:E'; [done |].
    apply lookup_ge_None in E'. rewrite (upd_length _ _ _ Hu) in E'.
    unfold s1 in E'. rewrite Hlen in E'. lia.
Qed.

Lemma loop_skip token q s :
  truthy token = false -> foldl (queue_body None token) s q = s.
Proof.
  intros Ht. induction q as [| p q IH]; cbn; [done |]. by rewrite Ht.
Qed.

Lemma processQueue_skip token s :
  truthy token = false -> processQueue None token s = set_failedQueue [] s.
Proof. intros Ht. rewrite processQueue_unfold. by rewrite loop_skip. Qed.

Lemma rejections_elem e q p :
  p ∈ q -> WaiterRejected p e ∈ rejections e q /\ Returned p (Err e) ∈ rejections e q.
Proof.
  intros Hp. unfold rejections. split; apply list_elem_of_bind; exists p;
    (split; [| done]); [apply list_elem_of_here | apply list_elem_of_further, list_elem_of_here].
Qed.

(** ** A refresh token that is no longer stored is not submitted *)

Lemma parse_Some resp a rt :
  parse resp = Some (a, rt) ->
  exists d, data resp = Some d /\ access_token d = str a /\ refresh_token d = str rt.
Proof.
  unfold parse. destruct (data resp) as [[[| | a'] [| | r'] [| | t']] |]; try done.
  intros [= <- <-]. eauto.
Qed.

Lemma benign_not_pending r p : benign_phase p -> pending_write r p = false.
Proof. by intros [-> | [-> | [res ->]]]. Qed.

Lemma step_no_pending r s ev s' :
  no_pending_write r s -> issues r ev = false -> step s ev = Some s' ->
  no_pending_write r s'.
Proof.
  intros Hinv Hiss Hstep j t' Ej. destruct (actor ev) as [i |] eqn:Hact.
  - destruct (step_abstract s ev s' i Hstep Hact) as [[Hupd _] _].
    destruct (upd_phase _ _ _ j t' Hupd Ej) as (t & Et & _ & [-> | [[_ Hb] | [_ Hm]]]).
    + by apply (Hinv j).
    + by apply benign_not_pending.
    + destruct ev as [| | | | | ? [resp | ?] | ? rr | ? ? | ? ? | ? ?]; try done; cbn in Hm.
      * destruct Hm as [Hb | (a & rt & Hp & ->)]; [by apply benign_not_pending |].
        apply parse_Some in Hp as (d & Hd & _ & Hrt). cbn in *.
        rewrite Hd in Hiss. destruct d as [? rf ?]. cbn in Hrt. by subst rf.
      * destruct Hm as [Hb | (e & ->)]; [by apply benign_not_pending | done].
      * destruct Hm as [(e & ->) | (rt & resp & d & -> & Hd & ->)]; [done |].
        cbn in *. rewrite Hd in Hiss. destruct d as [? [| | rf] ?]; done.
      * destruct Hm as [Hb | [[-> _] | (rt & -> & _)]]; [by apply benign_not_pending | done | done].
      * destruct Hm as [Hb | (e & ->)]; [by apply benign_not_pending | done].
      * by apply benign_not_pending.
  - destruct (step_spawn s ev s' Hstep Hact) as (_ & Hsp & _).
    destruct (Hsp j t' Ej) as [(t & Et & _ & ->) | [_ [-> | [-> | ->]]]]; try done.
    by apply (Hinv j).
Qed.

Lemma step_store_ne r s ev s' :
  no_pending_write r s -> secureStore s <> Some r -> step s ev = Some s' ->
  secureStore s' <> Some r.
Proof.
  intros Hinv Hne Hstep.
  destruct (step_effects s ev s' Hstep) as (_ & _ & [-> | [-> | (i & p0 & r0 & _ & Hp0 & Hw & ->)]]);
    [done | done |].
  intros [= ->]. apply phase_of_Some in Hp0 as (t & Et & <-).
  rewrite (Hinv i t Et) in Hw. done.
Qed.

Lemma step_log s ev s' :
  step s ev = Some s' -> log s' = log s ++ emitted s s'.
Proof.
  intros Hstep. destruct (step_effects s ev s' Hstep) as ((l & El & _) & _).
  by rewrite (emitted_app _ _ _ El).
Qed.

Lemma run_log tr s s' :
  run s tr = Some s' -> log s' = log s ++ emitted s s'.
Proof.
  revert s. induction tr as [| ev tr IH]; intros s; cbn.
  - intros [= <-]. unfold emitted. by rewrite drop_all, app_nil_r.
  - destruct (step s ev) as [s1 |] eqn:Hstep; [| done]. intros Hrun.
    pose proof (step_log _ _ _ Hstep) as E1. pose proof (IH _ Hrun) as E2.
    rewrite E1, <- app_assoc in E2. by rewrite (emitted_app _ _ _ E2).
Qed.

Lemma emitted_step_run s ev s1 tr s' :
  step s ev = Some s1 -> run s1 tr = Some s' ->
  emitted s s' = emitted s s1 ++ emitted s1 s'.
Proof.
  intros Hstep Hrun.
  pose proof (step_log _ _ _ Hstep) as E1. pose proof (run_log _ _ _ Hrun) as E2.
  rewrite E1, <- app_assoc in E2. by rewrite (emitted_app _ _ _ E2).
Qed.

Lemma step_no_submit r s ev s' j :
  secureStore s <> Some r -> step s ev = Some s' -> RefreshPost j r ∉ emitted s s'.
Proof.
  intros Hne Hstep Hin.
  destruct (step_effects s ev s' Hstep) as ((l & El & Hl) & _).
  rewrite (emitted_app _ _ _ El) in Hin.
  rewrite Forall_forall in Hl. destruct (Hl _ Hin) as (e & _ & _ & Hst & _). done.
Qed.

Lemma run_never_again r tr s s' :
  no_pending_write r s -> secureStore s <> Some r ->
  Forall (fun ev => issues r ev = false) tr -> run s tr = Some s' ->
  secureStore s' <> Some r /\ no_pending_write r s' /\
  forall j, RefreshPost j r ∉ emitted s s'.
Proof.
  revert s. induction tr as [| ev tr IH]; intros s Hinv Hne Htr; cbn.
  - intros [= <-]. repeat split; try done.
    intros j. unfold emitted. rewrite drop_all. apply not_elem_of_nil.
  - destruct (step s ev) as [s1 |] eqn:Hstep; [| done]. intros Hrun.
    apply Forall_cons in Htr as [Hev Htr].
    destruct (IH s1) as (H1 & H2 & H3); try done.
    { by eapply step_no_pending. }
    { by eapply step_store_ne. }
    repeat split; try done. intros j.
    rewrite (emitted_step_run _ _ _ _ _ Hstep Hrun), elem_of_app.
    intros [Hin | Hin]; [by eapply (step_no_submit r s ev s1 j) | by eapply H3].
Qed.

(** ** A waiter that is not in the queue *)

Lemma step_stuck p s ev s' :
  phase_of p s = Some Queued -> p ∉ failedQueue s -> step s ev = Some s' ->
  phase_of p s' = Some Queued /\ (p ∉ failedQueue s') /\
  Forall (fun o => completes p o = false) (emitted s s').
Proof.
  intros Hp Hq Hstep.
  assert (actor ev <> Some p) as Hact.
  { intros Ha. destruct ev; try done; injection Ha as ->; cbn in Hstep;
      by rewrite Hp in Hstep. }
  assert (p ∉ drained s ev) as Hd.
  { destruct ev; cbn; try apply not_elem_of_nil; done. }
  destruct (step_effects s ev s' Hstep) as ((l & El & Hl) & Hfq & _).
  apply phase_of_Some in Hp as (t & Et & Hpt).
  repeat split.
  - destruct (actor ev) as [i |] eqn:Hi.
    + destruct (step_abstract s ev s' i Hstep Hi) as [[Hupd _] _].
      destruct (tasks s' !! p) as [t' |] eqn:Et'.
      * apply phase_of_Some. exists t'. split; [done |].
        destruct (upd_phase _ _ _ p t' Hupd Et') as (t0 & Et0 & _ & [-> | [[? _] | [? _]]]);
          [congruence | done | congruence].
      * apply lookup_ge_None in Et'. rewrite (upd_length _ _ _ Hupd) in Et'.
        apply lookup_lt_Some in Et. lia.
    + destruct (step_spawn s ev s' Hstep Hi) as (Hlen & Hsp & _).
      destruct (tasks s' !! p) as [t' |] eqn:Et'.
      * apply phase_of_Some. exists t'. split; [done |].
        destruct (Hsp p t' Et') as [(t0 & Et0 & _ & ->) | [-> _]]; [congruence |].
        apply lookup_lt_Some in Et. lia.
      * apply lookup_ge_None in Et'. apply lookup_lt_Some in Et. lia.
  - destruct Hfq as [-> | [-> | (i & e & -> & Hpi & ->)]]; [done | apply not_elem_of_nil |].
    rewrite elem_of_app, list_elem_of_singleton. intros [? | ->]; [done |].
    apply phase_of_Some in Hpi as (ti & Eti & Hpi). congruence.
  - rewrite (emitted_app _ _ _ El). eapply Forall_impl; [apply Hl |].
    intros [| | j ? | j ? |]; cbn; try done; intros Hj;
      (destruct (Nat.eqb_spec p j) as [-> |]; [done | done]).
Qed.

Lemma run_stuck p tr s s' :
  phase_of p s = Some Queued -> p ∉ failedQueue s -> run s tr = Some s' ->
  phase_of p s' = Some Queued /\ (p ∉ failedQueue s') /\
  Forall (fun o => completes p o = false) (emitted s s').
Proof.
  revert s. induction tr as [| ev tr IH]; intros s Hp Hq; cbn.
  - intros [= <-]. repeat split; try done. unfold emitted. rewrite drop_all. constructor.
  - destruct (step s ev) as [s1 |] eqn:Hstep; [| done]. intros Hrun.
    destruct (step_stuck p s ev s1 Hp Hq Hstep) as (Hp1 & Hq1 & Hl1).
    destruct (IH s1 Hp1 Hq1 Hrun) as (Hp' & Hq' & Hl').
    repeat split; try done.
    rewrite (emitted_step_run _ _ _ _ _ Hstep Hrun). by apply Forall_app.
Qed.

(** * The claims *)

Lemma settle_Fetch i r s :
  op_of i s = Fetch -> i < length (tasks s) ->
  phase_of i (settle i r s) = Some (Done (Some r)).
Proof.
  intros Ho Hi. unfold settle.
  change (op_of i (emit (Returned i r) s)) with (op_of i s). rewrite Ho.
  by apply (phase_of_set_phase i _ (emit _ s)).
Qed.

(** C9.  A response that is not an authorization failure passes through:
    when the request of call [i] is on the wire, a fulfilled response is
    what the call returns, and a failure whose status is not 401 (no
    response at all for a transport failure) is what the call is rejected
    with; in both cases the log gains that one entry, so no renewal request
    is sent, and the mutex, the queue and the secure store are left as
    they were. *)
Theorem pass_through_non_authorization (s : State) (i : nat) :
  phase_of i s = Some AwaitResponse ->
  (forall resp, exists s',
      step s (Respond i (Fulfilled resp)) = Some s' /\
      emitted s s' = [Returned i (Ok resp)] /\
      (op_of i s = Fetch -> phase_of i s' = Some (Done (Some (Ok resp)))) /\
      isRefreshing s' = isRefreshing s /\ failedQueue s' = failedQueue s /\
      secureStore s' = secureStore s) /\
  (forall r, is401 r = false -> exists s',
      step s (Respond i (Failed r)) = Some s' /\
      emitted s s' = [Returned i (Err (AxiosError (ApiCall i) r))] /\
      (op_of i s = Fetch ->
       phase_of i s' = Some (Done (Some (Err (AxiosError (ApiCall i) r))))) /\
      isRefreshing s' = isRefreshing s /\ failedQueue s' = failedQueue s /\
      secureStore s' = secureStore s).
Proof.
  intros Hp. pose proof (phase_of_lt _ _ _ Hp) as Hi.
  assert (forall o, emitted s (settle i o s) = [Returned i o] /\
                    (op_of i s = Fetch -> phase_of i (settle i o s) = Some (Done (Some o))) /\
                    isRefreshing (settle i o s) = isRefreshing s /\
                    failedQueue (settle i o s) = failedQueue s /\
                    secureStore (settle i o s) = secureStore s) as Hsettle.
  { intros o. destruct (settle_same i o s) as (Hst & Hr & _).
    repeat split; try done.
    - apply emitted_app, settle_log.
    - intros Ho. by apply settle_Fetch.
    - apply settle_failedQueue. }
  split.
  - intros resp. exists (settle i (Ok resp) s). split; [| apply Hsettle].
    cbn. by rewrite Hp.
  - intros r Hr. exists (settle i (Err (AxiosError (ApiCall i) r)) s).
    split; [| apply Hsettle].
    cbn. rewrite Hp. unfold on_rejected. by rewrite Hr.
Qed.

Lemma pass_through_non_authorization_witness :
  exists s', step one_request (Respond 0 (Failed None)) = Some s' /\
             emitted one_request s' = [Returned 0 (Err (AxiosError (ApiCall 0) None))].
Proof.
  destruct (pass_through_non_authorization one_request 0 eq_refl) as [_ H].
  destruct (H None eq_refl) as (s' & Hs & He & _).
  exists s'. split; [exact Hs | exact He].
Defined.

(** C8.  Nothing to renew with: when the unmarked request of call [i]
    fails with status 401 and reading the stored refresh token yields
    nothing truthy - the key is absent, the stored string is empty, or
    SecureStore throws ([ok = false]), which [getRefreshToken] turns into
    [null] - the call is rejected with that same 401 error; the log gains
    that one entry, so the refresh endpoint is not called, and the mutex,
    the queue and the secure store are left as they were. *)
Theorem nothing_to_renew_with (s : State) (i : nat) (r : option response) (ok : bool) :
  phase_of i s = Some AwaitResponse ->
  _retry (request_of i s) = false ->
  is401 r = true ->
  truthy (getRefreshToken ok s) = false ->
  getRefreshToken false s = null /\
  exists s',
    run s [Respond i (Failed r); StoreGet i ok] = Some s' /\
    emitted s s' = [Returned i (Err (AxiosError (ApiCall i) r))] /\
    (op_of i s = Fetch ->
     phase_of i s' = Some (Done (Some (Err (AxiosError (ApiCall i) r))))) /\
    isRefreshing s' = isRefreshing s /\ failedQueue s' = failedQueue s /\
    secureStore s' = secureStore s.
Proof.
  intros Hp Hretry H401 Habsent. split; [done |].
  pose proof (phase_of_lt _ _ _ Hp) as Hi.
  set (e := AxiosError (ApiCall i) r).
  set (s1 := set_phase i (AwaitGetRefreshToken e) s).
  assert (step s (Respond i (Failed r)) = Some s1) as H1.
  { cbn. rewrite Hp. unfold on_rejected. by rewrite H401, Hretry. }
  assert (phase_of i s1 = Some (AwaitGetRefreshToken e)) as Hp1.
  { by apply phase_of_set_phase. }
  assert (step s1 (StoreGet i ok) = Some (settle i (Err e) s1)) as H2.
  { cbn [step]. rewrite Hp1. unfold on_refreshToken.
    change (getRefreshToken ok s1) with (getRefreshToken ok s).
    destruct (getRefreshToken ok s) as [| | rt]; try done.
    by rewrite Habsent. }
  exists (settle i (Err e) s1). split.
  { cbn [run]. by rewrite H1, H2. }
  destruct (settle_same i (Err e) s1) as (Hst & Hr & _).
  repeat split; try done.
  - apply emitted_app. by rewrite settle_log.
  - intros Ho. apply settle_Fetch; [| unfold s1; simpl_fields; by rewrite length_alter].
    rewrite <- Ho. apply (op_of_upd (fun _ _ => True)). by apply upd_alter_phase.
  - by rewrite settle_failedQueue.
Qed.

Lemma nothing_to_renew_with_witness :
  exists s',
    run one_request [Respond 0 unauthorized; StoreGet 0 false] = Some s' /\
    emitted one_request s' =
    [Returned 0 (Err (AxiosError (ApiCall 0) (Some {| status := 401; data := None |})))].
Proof.
  destruct (nothing_to_renew_with one_request 0 (Some {| status := 401; data := None |}) false
              eq_refl eq_refl eq_refl eq_refl) as (_ & s' & Hs & He & _).
  exists s'. split; [exact Hs | exact He].
Defined.

(** ** The failure path of a renewal, lines 84-92 *)

Lemma refresh_catch_phase i e s :
  i < length (tasks s) ->
  phase_of i (refresh_catch i e s) = Some (AwaitClearRefreshToken e).
Proof.
  intros Hi.
  destruct (acts_phase (fun _ _ => True) (eq (AwaitClearRefreshToken e)) i s (refresh_catch i e s))
    as (p & Hp & <-); [| done].
  by apply refresh_catch_acts.
Qed.

Lemma catch_then_clear s i e ok :
  i < length (tasks s) ->
  let s1 := refresh_catch i e s in
  exists s2,
    step s1 (StoreDelete i ok) = Some s2 /\
    emitted s s1 = rejections e (failedQueue s) /\
    failedQueue s1 = [] /\ accessToken s1 = null /\
    emitted s1 s2 = [Returned i (Err e)] /\
    accessToken s2 = null /\
    secureStore s2 = (if ok then None else secureStore s) /\
    isRefreshing s2 = false /\ failedQueue s2 = [] /\
    isAuthenticated s2 = isAuthenticated s.
Proof.
  intros Hi s1.
  pose proof (refresh_catch_phase i e s Hi) as Hp1. fold s1 in Hp1.
  set (s1' := set_isRefreshing false (clearRefreshToken ok s1)).
  exists (settle i (Err e) s1'). split.
  { cbn [step]. by rewrite Hp1. }
  assert (accessToken s1 = null) as Ha1 by done.
  destruct (processQueue_same (Some e) null s) as (Hst & _ & Hau & _).
  destruct (settle_same i (Err e) s1') as (Hst2 & Hr2 & Hau2 & _).
  repeat split.
  - apply emitted_app. unfold s1, refresh_catch. simpl_fields.
    apply processQueue_reject_log.
  - apply emitted_app. rewrite settle_log. unfold s1'. by destruct ok.
  - destruct (settle_Err_accessToken i e s1') as [-> | ->]; [| done].
    unfold s1'. by destruct ok.
  - rewrite Hst2. unfold s1'. destruct ok; [done |]. exact Hst.
  - by rewrite Hr2.
  - rewrite settle_failedQueue. unfold s1'. by destruct ok.
  - rewrite Hau2. unfold s1'. destruct ok; exact Hau.
Qed.

(** C3, as stated, fails: [isAuthenticated] is React state of
    [AuthProvider], written by [login], [register], [logout] and the mount
    effect only.  After a login, three data calls fail with 401 and share
    one renewal; the refresh endpoint answers 401.  All three calls are
    rejected with that renewal error and both tokens are gone, yet
    [isAuthenticated] is still [true]. *)
Lemma session_is_a_view_counterexample :
  exists s,
    run (init None)
      (three_calls_renewing ++ [RefreshRespond 1 unauthorized; StoreDelete 1 true]) = Some s /\
    phase_of 1 s = Some (Done (Some (Err renewal_rejected))) /\
    phase_of 2 s = Some (Done (Some (Err renewal_rejected))) /\
    phase_of 3 s = Some (Done (Some (Err renewal_rejected))) /\
    accessToken s = null /\ getRefreshToken true s = null /\
    isAuthenticated s = true.
Proof. eexists. split; [vm_compute; reflexivity |]. vm_compute. repeat split. Qed.

(** C3, amended.  When the refresh POST of call [i] is rejected, every call
    that is in the queue at that moment is rejected with that renewal
    error, there and then, and the access token is dropped.  When the
    deletion of the stored token that follows has succeeded, call [i]
    itself is rejected with the same error, and nothing else is; the
    access token is [null], reading the refresh token yields [null], and
    [isAuthenticated] has the value it had before the rejection. *)
Theorem renewal_rejected_session (s : State) (i : nat) (rt : string) (r : option response) :
  phase_of i s = Some (AwaitRefreshPost rt) ->
  exists s1 s',
    step s (RefreshRespond i (Failed r)) = Some s1 /\
    step s1 (StoreDelete i true) = Some s' /\
    (forall p, p ∈ failedQueue s ->
               Returned p (Err (AxiosError (RefreshCall i) r)) ∈ emitted s s1) /\
    accessToken s1 = null /\
    emitted s1 s' = [Returned i (Err (AxiosError (RefreshCall i) r))] /\
    accessToken s' = null /\ getRefreshToken true s' = null /\
    isAuthenticated s' = isAuthenticated s.
Proof.
  intros Hp. pose proof (phase_of_lt _ _ _ Hp) as Hi.
  set (e := AxiosError (RefreshCall i) r).
  destruct (catch_then_clear s i e true Hi)
    as (s2 & H2 & He1 & _ & Ha1 & He2 & Ha & Hst & _ & _ & Hau).
  assert (step s (RefreshRespond i (Failed r)) = Some (refresh_catch i e s)) as H1.
  { cbn [step]. by rewrite Hp. }
  exists (refresh_catch i e s), s2. split; [exact H1 |]. split; [exact H2 |].
  split.
  { intros p Hq. rewrite He1. by apply rejections_elem. }
  split; [exact Ha1 |]. split; [exact He2 |]. split; [exact Ha |].
  split; [unfold getRefreshToken; by rewrite Hst | exact Hau].
Qed.

Lemma renewal_rejected_session_witness :
  exists s1 s',
    step (state_after None three_calls_renewing) (RefreshRespond 1 unauthorized) = Some s1 /\
    step s1 (StoreDelete 1 true) = Some s' /\
    Returned 2 (Err renewal_rejected) ∈ emitted (state_after None three_calls_renewing) s1 /\
    Returned 3 (Err renewal_rejected) ∈ emitted (state_after None three_calls_renewing) s1 /\
    emitted s1 s' = [Returned 1 (Err renewal_rejected)] /\
    accessToken s' = null /\ getRefreshToken true s' = null /\
    isAuthenticated s' = true.
Proof.
  destruct (renewal_rejected_session (state_after None three_calls_renewing) 1 "R1"
              (Some {| status := 401; data := None |}) eq_refl)
    as (s1 & s' & H1 & H2 & Hq & _ & He & Ha & Hr & Hau).
  exists s1, s'. split; [exact H1 |]. split; [exact H2 |].
  split; [apply Hq; vm_compute; apply list_elem_of_here |].
  split; [apply Hq; vm_compute; apply list_elem_of_further, list_elem_of_here |].
  split; [exact He |]. split; [exact Ha |]. split; [exact Hr | exact Hau].
Defined.

(** C5, as stated, fails: [clearRefreshToken] catches and ignores an
    exception of [SecureStore.deleteItemAsync].  The refresh POST fails on
    the network, the deletion throws, and the renewal is over with "R1"
    still in the secure store. *)
Lemma renewal_failure_path_counterexample :
  exists s,
    run (init (Some "R1"%string))
      (one_call_renewing ++ [RefreshRespond 0 (Failed None); StoreDelete 0 false]) = Some s /\
    isRefreshing s = false /\
    phase_of 0 s = Some (Done (Some (Err (AxiosError (RefreshCall 0) None)))) /\
    getRefreshToken true s = str "R1".
Proof. eexists. split; [vm_compute; reflexivity |]. vm_compute. repeat split. Qed.

(** C5, amended.  When the refresh POST of call [i] fails - no response, or
    a response with any status - every waiter in the queue at that moment
    is rejected with that error, once and in order, the queue is emptied
    and the access token is cleared; the deletion of the stored refresh
    token is then awaited, and when it completes call [i] is rejected with
    the renewal error, which is not the 401 error of its own request; the
    refresh token is gone if the deletion succeeded and is what it was if
    the deletion threw. *)
Theorem renewal_failure_path (s : State) (i : nat) (rt : string) (r : option response)
    (ok : bool) :
  phase_of i s = Some (AwaitRefreshPost rt) ->
  exists s1 s2,
    step s (RefreshRespond i (Failed r)) = Some s1 /\
    step s1 (StoreDelete i ok) = Some s2 /\
    emitted s s1 = rejections (AxiosError (RefreshCall i) r) (failedQueue s) /\
    failedQueue s1 = [] /\ accessToken s1 = null /\
    emitted s1 s2 = [Returned i (Err (AxiosError (RefreshCall i) r))] /\
    (forall r0, AxiosError (RefreshCall i) r <> AxiosError (ApiCall i) r0) /\
    accessToken s2 = null /\
    secureStore s2 = (if ok then None else secureStore s) /\
    isRefreshing s2 = false.
Proof.
  intros Hp. pose proof (phase_of_lt _ _ _ Hp) as Hi.
  set (e := AxiosError (RefreshCall i) r).
  destruct (catch_then_clear s i e ok Hi)
    as (s2 & H2 & He1 & Hq & Ha1 & He2 & Ha & Hst & Hr & _ & _).
  exists (refresh_catch i e s), s2. repeat split; try done.
  cbn [step]. by rewrite Hp.
Qed.

Lemma renewal_failure_path_witness :
  exists s1 s2,
    step (state_after None three_calls_renewing) (RefreshRespond 1 unauthorized) = Some s1 /\
    step s1 (StoreDelete 1 true) = Some s2 /\
    emitted (state_after None three_calls_renewing) s1 = rejections renewal_rejected [2; 3] /\
    secureStore s2 = None.
Proof.
  destruct (renewal_failure_path (state_after None three_calls_renewing) 1 "R1"
              (Some {| status := 401; data := None |}) true eq_refl)
    as (s1 & s2 & H1 & H2 & He & _ & _ & _ & _ & _ & Hst & _).
  exists s1, s2. split; [exact H1 |]. split; [exact H2 |]. split; [exact He | exact Hst].
Defined.

(** C10, as stated, fails in the clause on the persisted credential: the
    deletion that follows a failed [setRefreshToken] is the same
    best-effort [clearRefreshToken].  The refresh endpoint answers with a
    new pair, storing "R2" throws and so does the deletion: the waiter and
    the initiating call are rejected with the storage error and the access
    token is cleared, but "R1" is still in the secure store. *)
Lemma renewal_not_persisted_counterexample :
  exists s,
    run (init (Some "R1"%string))
      (one_waiter_renewing ++
       [RefreshRespond 0 (token_pair (str "A2") (str "R2")); StoreSet 0 false;
        StoreDelete 0 false]) = Some s /\
    phase_of 0 s = Some (Done (Some (Err SecureStoreError))) /\
    phase_of 1 s = Some (Done (Some (Err SecureStoreError))) /\
    accessToken s = null /\ isRefreshing s = false /\
    getRefreshToken true s = str "R1".
Proof. eexists. split; [vm_compute; reflexivity |]. vm_compute. repeat split. Qed.

(** C10, amended.  When the refresh POST of call [i] is fulfilled with a
    body and [setRefreshToken] then throws: the new access token is in
    memory while the write is awaited; when the write fails every waiter in
    the queue is rejected with the storage error, once and in order - none
    is resolved -, the queue is emptied and the access token is cleared;
    when the deletion that follows completes, call [i] is rejected with the
    storage error; the stored refresh token is gone if the deletion
    succeeded and is what it was if the deletion threw too. *)
Theorem renewal_not_persisted (s : State) (i : nat) (rt : string) (resp : response)
    (d : fields) (ok : bool) :
  phase_of i s = Some (AwaitRefreshPost rt) ->
  data resp = Some d ->
  exists s1 s2 s3,
    step s (RefreshRespond i (Fulfilled resp)) = Some s1 /\
    step s1 (StoreSet i false) = Some s2 /\
    step s2 (StoreDelete i ok) = Some s3 /\
    emitted s s1 = [] /\ accessToken s1 = access_token d /\
    emitted s1 s2 = rejections SecureStoreError (failedQueue s) /\
    failedQueue s2 = [] /\ accessToken s2 = null /\
    emitted s2 s3 = [Returned i (Err SecureStoreError)] /\
    accessToken s3 = null /\
    secureStore s3 = (if ok then None else secureStore s) /\
    isRefreshing s3 = false.
Proof.
  intros Hp Hd. pose proof (phase_of_lt _ _ _ Hp) as Hi.
  set (s1 := set_phase i (AwaitSetRefreshToken rt (access_token d) (refresh_token d))
               (setAccessToken (access_token d) s)).
  assert (step s (RefreshRespond i (Fulfilled resp)) = Some s1) as H1.
  { cbn [step]. rewrite Hp. unfold on_refresh_reply. by rewrite Hd. }
  assert (i < length (tasks s1)) as Hi1.
  { unfold s1. simpl_fields. by rewrite length_alter. }
  assert (phase_of i s1 = Some (AwaitSetRefreshToken rt (access_token d) (refresh_token d))) as Hp1.
  { by apply (phase_of_set_phase i _ (setAccessToken _ s)). }
  destruct (catch_then_clear s1 i SecureStoreError ok Hi1)
    as (s3 & H3 & He2 & Hq2 & Ha2 & He3 & Ha3 & Hst3 & Hr3 & _ & _).
  assert (step s1 (StoreSet i false) = Some (refresh_catch i SecureStoreError s1)) as H2.
  { cbn [step]. rewrite Hp1. unfold on_refresh_stored, setRefreshToken.
    by destruct (refresh_token d). }
  exists s1, (refresh_catch i SecureStoreError s1), s3.
  repeat split; try done.
  apply emitted_app. by rewrite app_nil_r.
Qed.

Lemma renewal_not_persisted_witness :
  exists s1 s2 s3,
    step (state_after (Some "R1"%string) one_waiter_renewing)
      (RefreshRespond 0 (token_pair (str "A2") (str "R2"))) = Some s1 /\
    step s1 (StoreSet 0 false) = Some s2 /\
    step s2 (StoreDelete 0 true) = Some s3 /\
    emitted s1 s2 = rejections SecureStoreError [1] /\
    accessToken s3 = null /\ secureStore s3 = None.
Proof.
  destruct (renewal_not_persisted (state_after (Some "R1"%string) one_waiter_renewing) 0 "R1"
              {| status := 200;
                 data := Some {| access_token := str "A2"; refresh_token := str "R2";
                                 token_type := str "bearer" |} |}
              {| access_token := str "A2"; refresh_token := str "R2";
                 token_type := str "bearer" |} true eq_refl eq_refl)
    as (s1 & s2 & s3 & H1 & H2 & H3 & _ & _ & He & _ & _ & _ & Ha & Hst & _).
  exists s1, s2, s3. repeat split; [exact H1 | exact H2 | exact H3 | exact He | exact Ha | exact Hst].
Defined.

(** ** Waiters that [processQueue] leaves behind *)

Lemma phase_of_frame (R : nat -> phase -> Prop) p s s' :
  upd R (tasks s) (tasks s') -> (forall q, ~ R p q) -> phase_of p s' = phase_of p s.
Proof.
  intros Hu HR. unfold phase_of.
  destruct (tasks s' !! p) as [t' |] eqn:E'.
  - destruct (upd_phase _ _ _ p t' Hu E') as (t & -> & _ & [Hp | H]).
    + cbn. by rewrite Hp.
    + by apply HR in H.
  - apply lookup_ge_None in E'. rewrite (upd_length _ _ _ Hu) in E'.
    apply lookup_ge_None in E'. by rewrite E'.
Qed.

Lemma phase_of_apiClient_ne p i s : p <> i -> phase_of p (apiClient i s) = phase_of p s.
Proof.
  intros Hne. apply (phase_of_frame (fun j _ => j = i)); [by apply apiClient_tasks | by intros _].
Qed.

Lemma phase_of_set_request p i c s : phase_of p (set_request i c s) = phase_of p s.
Proof.
  apply (phase_of_frame (fun _ _ => False)); [apply upd_alter_request | by intros _ []].
Qed.

Lemma phase_of_set_phase_ne p i q s : p <> i -> phase_of p (set_phase i q s) = phase_of p s.
Proof.
  intros Hne. apply (phase_of_frame (fun j _ => j = i)); [by apply upd_alter_phase | by intros _].
Qed.

(** The refresh response carries no truthy access token: [processQueue]
    calls neither callback of a waiter and empties the queue. *)
Lemma waiter_dropped s i rt a r p :
  phase_of i s = Some (AwaitSetRefreshToken rt a (str r)) ->
  truthy a = false ->
  phase_of p s = Some Queued ->
  exists s1,
    step s (StoreSet i true) = Some s1 /\
    isRefreshing s1 = false /\ failedQueue s1 = [] /\
    forall tr s2, run s1 tr = Some s2 ->
      phase_of p s2 = Some Queued /\
      Forall (fun o => completes p o = false) (emitted s s2).
Proof.
  intros Hi Ha Hp.
  assert (p <> i) as Hne by (intros ->; congruence).
  set (s0 := set_request i {| _retry := _retry (request_of i (set_secureStore (Some r) s));
                              Authorization := Some (Bearer a);
                              body := body (request_of i (set_secureStore (Some r) s)) |}
               (set_secureStore (Some r) s)).
  set (s1 := set_isRefreshing false (apiClient i (set_failedQueue [] s0))).
  assert (step s (StoreSet i true) = Some s1) as H1.
  { cbn [step]. rewrite Hi. unfold on_refresh_stored, setRefreshToken.
    by rewrite processQueue_skip. }
  assert (phase_of p s1 = Some Queued) as Hp1.
  { change (phase_of p (apiClient i (set_failedQueue [] s0)) = Some Queued).
    rewrite phase_of_apiClient_ne by done.
    change (phase_of p s0 = Some Queued). unfold s0. by rewrite phase_of_set_request. }
  exists s1. repeat split; try done.
  - destruct (run_stuck p tr s1 s2 Hp1) as (Hp2 & _); [apply not_elem_of_nil | done | done].
  - destruct (run_stuck p tr s1 s2 Hp1) as (_ & _ & Hl2); [apply not_elem_of_nil | done |].
    rewrite (emitted_step_run s _ s1 tr s2 H1) by done.
    apply Forall_app. split; [| done].
    rewrite (emitted_app s s1 [Sent i (op_of i (set_failedQueue [] s0))
                                 (Authorization (request_interceptor (set_failedQueue [] s0)
                                                   (request_of i (set_failedQueue [] s0))))
                                 (_retry (request_of i (set_failedQueue [] s0)))
                                 (body (request_of i (set_failedQueue [] s0)))]).
    + by repeat constructor.
    + unfold s1. simpl_fields. by rewrite apiClient_log.
Qed.

(** A call reads the stored token while the holder of the mutex awaits
    [clearRefreshToken] in the [catch] block: the queue has been processed
    already, [isRefreshing] is still set, so the call queues, and the
    renewal ends without a callback of its waiter having been called. *)
Lemma waiter_queued_after_drain s i e p e' rt ok :
  phase_of i s = Some (AwaitClearRefreshToken e) ->
  phase_of p s = Some (AwaitGetRefreshToken e') ->
  isRefreshing s = true -> failedQueue s = [] ->
  secureStore s = Some rt -> rt <> ""%string ->
  exists s2,
    run s [StoreGet p true; StoreDelete i ok] = Some s2 /\
    isRefreshing s2 = false /\
    phase_of p s2 = Some Queued /\ failedQueue s2 = [p] /\
    Forall (fun o => completes p o = false) (emitted s s2).
Proof.
  intros Hi Hp Hr Hq Hst Hrt.
  assert (p <> i) as Hne by (intros ->; congruence).
  pose proof (phase_of_lt _ _ _ Hi) as Hlt.
  set (s1 := set_phase p Queued (set_failedQueue (failedQueue s ++ [p]) s)).
  assert (step s (StoreGet p true) = Some s1) as H1.
  { cbn [step]. rewrite Hp. unfold on_refreshToken, getRefreshToken. rewrite Hst.
    cbn [truthy]. apply String.eqb_neq in Hrt. rewrite Hrt. cbn [negb]. by rewrite Hr. }
  assert (phase_of i s1 = Some (AwaitClearRefreshToken e)) as Hi1.
  { unfold s1. rewrite phase_of_set_phase_ne by done. done. }
  set (s1' := set_isRefreshing false (clearRefreshToken ok s1)).
  assert (step s1 (StoreDelete i ok) = Some (settle i (Err e) s1')) as H2.
  { cbn [step]. by rewrite Hi1. }
  exists (settle i (Err e) s1'). split; [cbn [run]; by rewrite H1, H2 |].
  destruct (settle_same i (Err e) s1') as (_ & Hr2 & _).
  repeat split.
  - by rewrite Hr2.
  - rewrite (phase_of_frame (fun j _ => j = i) p s1'); [| by apply settle_Err_tasks | by intros _].
    change (phase_of p s1' ) with (phase_of p (clearRefreshToken ok s1)).
    replace (phase_of p (clearRefreshToken ok s1)) with (phase_of p s1) by (by destruct ok).
    apply phase_of_set_phase. by apply phase_of_lt in Hp.
  - rewrite settle_failedQueue.
    replace (failedQueue s1') with (failedQueue s1) by (by destruct ok).
    unfold s1. simpl_fields. by rewrite Hq.
  - rewrite (emitted_app s (settle i (Err e) s1') [Returned i (Err e)]).
    + by repeat constructor.
    + rewrite settle_log. by destruct ok.
Qed.

(** C6.  A waiter of a renewal can be left with neither callback called.
    (1) The refresh POST of call [i] was fulfilled without a truthy access
    token ([undefined], [null] or the empty string) and the new refresh
    token has been stored: the renewal is over and the queue is empty, but
    the queued call [p] is still queued and no later transition ever calls
    [resolve] or [reject] of its waiter.  (2) Call [p] reads the stored
    token while the holder [i] of the mutex awaits [clearRefreshToken]
    after a failed renewal: [p] queues behind a renewal whose queue was
    processed already, and is still queued, uncompleted, when that renewal
    is over. *)
Theorem waiter_not_completed (s : State) (i p : nat) :
  (forall rt a r,
      phase_of i s = Some (AwaitSetRefreshToken rt a (str r)) ->
      truthy a = false ->
      phase_of p s = Some Queued ->
      exists s1,
        step s (StoreSet i true) = Some s1 /\
        isRefreshing s1 = false /\ failedQueue s1 = [] /\
        forall tr s2, run s1 tr = Some s2 ->
          phase_of p s2 = Some Queued /\
          Forall (fun o => completes p o = false) (emitted s s2)) /\
  (forall e e' rt ok,
      phase_of i s = Some (AwaitClearRefreshToken e) ->
      phase_of p s = Some (AwaitGetRefreshToken e') ->
      isRefreshing s = true -> failedQueue s = [] ->
      secureStore s = Some rt -> rt <> ""%string ->
      exists s2,
        run s [StoreGet p true; StoreDelete i ok] = Some s2 /\
        isRefreshing s2 = false /\
        phase_of p s2 = Some Queued /\ failedQueue s2 = [p] /\
        Forall (fun o => completes p o = false) (emitted s s2)).
Proof.
  split.
  - intros rt a r. apply waiter_dropped.
  - intros e e' rt ok. apply waiter_queued_after_drain.
Qed.

(** ** The transitions of a renewal, one by one *)

Lemma execute_spec s :
  exists s1,
    step s Execute = Some s1 /\
    phase_of (length (tasks s)) s1 = Some AwaitResponse /\
    op_of (length (tasks s)) s1 = Fetch /\
    _retry (request_of (length (tasks s)) s1) = false /\
    emitted s s1 =
      [Sent (length (tasks s)) Fetch
         (if truthy (accessToken s) then Some (Bearer (accessToken s)) else None) false
         None] /\
    accessToken s1 = accessToken s /\ same_store s s1 /\
    failedQueue s1 = failedQueue s.
Proof.
  set (i := length (tasks s)).
  set (s0 := spawn Fetch AwaitResponse s).
  assert (tasks s0 !! i = Some {| op := Fetch;
                                  originalRequest := {| _retry := false; Authorization := None; body := None |};
                                  ph := AwaitResponse |}) as E0.
  { unfold s0, i. simpl_fields. apply list_lookup_middle. done. }
  assert (i < length (tasks s0)) as Hi by (by apply lookup_lt_Some in E0).
  assert (request_of i s0 = {| _retry := false; Authorization := None; body := None |}) as Hreq.
  { unfold request_of. by rewrite E0. }
  assert (op_of i s0 = Fetch) as Hop.
  { unfold op_of. by rewrite E0. }
  exists (apiClient i s0). repeat split; try done.
  - by apply apiClient_phase.
  - rewrite <- Hop. apply (op_of_upd (fun _ _ => True)). by apply apiClient_tasks.
  - by rewrite apiClient_retry, Hreq.
  - apply emitted_app. rewrite apiClient_log, Hop, Hreq. unfold request_interceptor.
    change (accessToken s0) with (accessToken s). by destruct (truthy (accessToken s)).
Qed.

Lemma respond_401_spec s i r :
  phase_of i s = Some AwaitResponse -> _retry (request_of i s) = false ->
  is401 r = true ->
  step s (Respond i (Failed r)) =
  Some (set_phase i (AwaitGetRefreshToken (AxiosError (ApiCall i) r)) s).
Proof.
  intros Hp Hr H401. cbn [step]. rewrite Hp. unfold on_rejected. by rewrite H401, Hr.
Qed.

Lemma initiator_spec s i e rt :
  phase_of i s = Some (AwaitGetRefreshToken e) -> isRefreshing s = false ->
  secureStore s = Some rt -> rt <> ""%string ->
  step s (StoreGet i true) =
  Some (emit (RefreshPost i rt)
          (set_phase i (AwaitRefreshPost rt)
             (set_isRefreshing true
                (set_request i {| _retry := true;
                                  Authorization := Authorization (request_of i s);
                                  body := body (request_of i s) |} s)))).
Proof.
  intros Hp Hr Hst Hrt. cbn [step]. rewrite Hp. unfold on_refreshToken, getRefreshToken.
  rewrite Hst. cbn [truthy]. apply String.eqb_neq in Hrt. rewrite Hrt. cbn [negb].
  by rewrite Hr.
Qed.

Lemma waiter_spec s i e rt :
  phase_of i s = Some (AwaitGetRefreshToken e) -> isRefreshing s = true ->
  secureStore s = Some rt -> rt <> ""%string ->
  step s (StoreGet i true) =
  Some (set_phase i Queued (set_failedQueue (failedQueue s ++ [i]) s)).
Proof.
  intros Hp Hr Hst Hrt. cbn [step]. rewrite Hp. unfold on_refreshToken, getRefreshToken.
  rewrite Hst. cbn [truthy]. apply String.eqb_neq in Hrt. rewrite Hrt. cbn [negb].
  by rewrite Hr.
Qed.

Lemma refresh_ok_spec s i rt resp d :
  phase_of i s = Some (AwaitRefreshPost rt) -> data resp = Some d ->
  step s (RefreshRespond i (Fulfilled resp)) =
  Some (set_phase i (AwaitSetRefreshToken rt (access_token d) (refresh_token d))
          (setAccessToken (access_token d) s)).
Proof.
  intros Hp Hd. cbn [step]. rewrite Hp. unfold on_refresh_reply. by rewrite Hd.
Qed.

Lemma request_of_apiClient i s :
  i < length (tasks s) ->
  request_of i (apiClient i s) = request_interceptor s (request_of i s).
Proof.
  intros Hi. unfold apiClient.
  change (request_of i (set_phase i AwaitResponse
            (set_request i (request_interceptor s (request_of i s)) s)) =
          request_interceptor s (request_of i s)).
  rewrite request_of_set_phase. by apply request_of_set_request.
Qed.

(** The success path, lines 79-83 and the [finally], with a string as the
    new refresh token and [SecureStore] accepting it. *)
Lemma stored_spec s i rt a r :
  phase_of i s = Some (AwaitSetRefreshToken rt a (str r)) ->
  exists s',
    step s (StoreSet i true) = Some s' /\
    secureStore s' = Some r /\ accessToken s' = accessToken s /\
    isRefreshing s' = false /\ failedQueue s' = [] /\
    phase_of i s' = Some AwaitResponse /\
    (forall j, op_of j s' = op_of j s) /\
    (forall j, _retry (request_of j s') = _retry (request_of j s)) /\
    (failedQueue s = [] ->
     emitted s s' = [Sent i (op_of i s) (Some (Bearer (if truthy (accessToken s)
                                                      then accessToken s else a)))
                       (_retry (request_of i s)) (body (request_of i s))] /\
     Authorization (request_of i s') =
       Some (Bearer (if truthy (accessToken s) then accessToken s else a))) /\
    (truthy a = true -> forall p, p ∈ failedQueue s -> p < length (tasks s) ->
       WaiterResolved p a ∈ emitted s s' /\
       Sent p (op_of p s)
         (Some (Bearer (if truthy (accessToken s) then accessToken s else a)))
         (_retry (request_of p s)) (body (request_of p s)) ∈ emitted s s' /\
       (p <> i -> phase_of p s' = Some AwaitResponse)).
Proof.
  intros Hp. pose proof (phase_of_lt _ _ _ Hp) as Hi.
  set (s0 := set_request i {| _retry := _retry (request_of i (set_secureStore (Some r) s));
                              Authorization := Some (Bearer a);
                              body := body (request_of i (set_secureStore (Some r) s)) |}
               (set_secureStore (Some r) s)).
  set (s1 := processQueue None a s0).
  exists (set_isRefreshing false (apiClient i s1)).
  assert (upd (fun _ _ => True) (tasks s) (tasks s0)) as H0 by apply upd_alter_request.
  assert (upd (fun _ _ => True) (tasks s0) (tasks s1)) as H1.
  { by apply processQueue_tasks. }
  assert (length (tasks s1) = length (tasks s)) as Hlen.
  { by rewrite (upd_length _ _ _ H1), (upd_length _ _ _ H0). }
  assert (forall j, op_of j s0 = op_of j s) as Hop0.
  { intros j. by apply (op_of_upd (fun _ _ => True)). }
  assert (forall j, _retry (request_of j s0) = _retry (request_of j s)) as Hre0.
  { intros j. unfold s0. by rewrite (request_of_alter_request j i _ (set_secureStore (Some r) s)). }
  destruct (loop_resolve_keeps a (failedQueue s0) s0) as (Ha1 & Hop1 & Hre1).
  change (foldl (queue_body None a) s0 (failedQueue s0)) with
    (foldl (queue_body None a) s0 (failedQueue s)) in *.
  assert (accessToken s1 = accessToken s) as Ha by exact Ha1.
  assert (forall j, op_of j s1 = op_of j s) as Hop.
  { intros j. rewrite <- Hop0. apply Hop1. }
  assert (forall j, _retry (request_of j s1) = _retry (request_of j s)) as Hre.
  { intros j. rewrite <- Hre0. apply Hre1. }
  assert (forall j, body (request_of j s0) = body (request_of j s)) as Hbo0.
  { intros j. unfold s0. by rewrite (request_of_alter_body j i _ (set_secureStore (Some r) s)). }
  assert (forall j, body (request_of j s1) = body (request_of j s)) as Hbo.
  { intros j. rewrite <- Hbo0. apply (loop_resolve_body a (failedQueue s) s0 j). }
  split; [cbn [step]; by rewrite Hp |].
  split; [apply (processQueue_same None a s0) |].
  split; [exact Ha |]. split; [done |]. split; [done |].
  split; [apply apiClient_phase; by rewrite Hlen |].
  split.
  { intros j. rewrite <- Hop. apply (op_of_upd (fun _ _ => True)). by apply apiClient_tasks. }
  split.
  { intros j. rewrite <- Hre. apply apiClient_retry. }
  assert (log (set_isRefreshing false (apiClient i s1)) =
          log s1 ++ [Sent i (op_of i s)
                       (Authorization (request_interceptor s1 (request_of i s1)))
                       (_retry (request_of i s)) (body (request_of i s))]) as Hlog.
  { simpl_fields. by rewrite apiClient_log, Hop, Hre, Hbo. }
  split.
  - intros Hq. assert (s1 = set_failedQueue [] s0) as Es1.
    { unfold s1. rewrite processQueue_unfold.
      change (failedQueue s0) with (failedQueue s). by rewrite Hq. }
    assert (request_interceptor s1 (request_of i s1) =
            {| _retry := _retry (request_of i s);
               Authorization := Some (Bearer (if truthy (accessToken s)
                                              then accessToken s else a));
               body := body (request_of i s) |}) as Hri.
    { rewrite Es1. change (request_of i (set_failedQueue [] s0)) with (request_of i s0).
      unfold s0 at 2. rewrite request_of_set_request by done.
      unfold request_interceptor. change (accessToken (set_failedQueue [] s0)) with (accessToken s).
      change (request_of i (set_secureStore (Some r) s)) with (request_of i s).
      by destruct (truthy (accessToken s)). }
    split.
    + apply emitted_app. rewrite Hlog, Hri, Es1. done.
    + change (Authorization (request_of i (apiClient i s1)) = 
              Some (Bearer (if truthy (accessToken s) then accessToken s else a))).
      rewrite request_of_apiClient by (by rewrite Hlen). by rewrite Hri.
  - intros Ht p Hq Hlt.
    destruct (loop_resolve_elem a (failedQueue s) s0 p Ht Hq) as (l & El & Hl1 & Hl2).
    { by rewrite (upd_length _ _ _ H0). }
    rewrite Hop0, Hre0, Hbo0 in Hl2. change (accessToken s0) with (accessToken s) in Hl2.
    assert (log s1 = log s ++ l) as El1 by exact El.
    rewrite El1, <- app_assoc in Hlog.
    rewrite (emitted_app s _ _ Hlog).
    split; [apply elem_of_app; by left |]. split; [apply elem_of_app; by left |].
    intros Hne. change (phase_of p (apiClient i s1) = Some AwaitResponse).
    rewrite phase_of_apiClient_ne by done.
    apply (loop_resolve_phase a (failedQueue s) s0 p Ht Hq).
    by rewrite (upd_length _ _ _ H0).
Qed.

Lemma waiter_not_completed_witness :
  (exists s1,
      step renewal_answered_no_access (StoreSet 0 true) = Some s1 /\
      isRefreshing s1 = false /\ failedQueue s1 = [] /\
      phase_of 1 s1 = Some Queued) /\
  (exists s2,
      run clearing_after_failure [StoreGet 1 true; StoreDelete 0 true] = Some s2 /\
      isRefreshing s2 = false /\ phase_of 1 s2 = Some Queued /\ failedQueue s2 = [1]).
Proof.
  split.
  - destruct (proj1 (waiter_not_completed renewal_answered_no_access 0 1)
                "R1"%string undefined "R2"%string eq_refl eq_refl eq_refl)
      as (s1 & H1 & Hr & Hq & Hall).
    exists s1. split; [exact H1 |]. split; [exact Hr |]. split; [exact Hq |].
    exact (proj1 (Hall [] s1 eq_refl)).
  - destruct (proj2 (waiter_not_completed clearing_after_failure 0 1)
                (AxiosError (RefreshCall 0) (Some {| status := 401; data := None |}))
                (AxiosError (ApiCall 1) (Some {| status := 401; data := None |}))
                "R1"%string true eq_refl eq_refl eq_refl eq_refl eq_refl
                ltac:(discriminate))
      as (s2 & H2 & Hr & Hp & Hq & _).
    exists s2. split; [exact H2 |]. split; [exact Hr |]. split; [exact Hp | exact Hq].
Defined.

(** C2.  A call that queued behind a renewal is sent again without the
    retry mark.  When the new pair of the renewal of call [i] has been
    stored, the queued call [p], unmarked so far, is resolved with the new
    access token and its request leaves again with [_retry] still unset; a
    401 on that second attempt is therefore not returned: the call reads
    the stored token again and, no renewal being in progress, sends another
    refresh POST, with the token that was just stored. *)
Theorem queued_call_retried_unmarked (s : State) (i p : nat) (rt : string) (a : value)
    (r : string) :
  phase_of i s = Some (AwaitSetRefreshToken rt a (str r)) ->
  truthy a = true -> r <> ""%string ->
  p ∈ failedQueue s -> phase_of p s = Some Queued ->
  _retry (request_of p s) = false ->
  exists s1 s2,
    step s (StoreSet i true) = Some s1 /\
    WaiterResolved p a ∈ emitted s s1 /\
    Sent p (op_of p s)
      (Some (Bearer (if truthy (accessToken s) then accessToken s else a))) false
      (body (request_of p s)) ∈ emitted s s1 /\
    phase_of p s1 = Some AwaitResponse /\ _retry (request_of p s1) = false /\
    run s1 [Respond p unauthorized; StoreGet p true] = Some s2 /\
    emitted s1 s2 = [RefreshPost p r] /\
    phase_of p s2 = Some (AwaitRefreshPost r).
Proof.
  intros Hi Ha Hr Hq Hp Hretry.
  assert (p <> i) as Hne by (intros ->; congruence).
  pose proof (phase_of_lt _ _ _ Hp) as Hlt.
  destruct (stored_spec s i rt a r Hi)
    as (s1 & H1 & Hst & _ & Hrf & _ & _ & _ & Hre & _ & Hw).
  destruct (Hw Ha p Hq Hlt) as (Hw1 & Hw2 & Hp1). specialize (Hp1 Hne).
  rewrite Hretry in Hw2. pose proof (Hre p) as Hre1. rewrite Hretry in Hre1.
  set (e := AxiosError (ApiCall p) (Some {| status := 401; data := None |})).
  set (s1' := set_phase p (AwaitGetRefreshToken e) s1).
  assert (step s1 (Respond p unauthorized) = Some s1') as H2.
  { by apply respond_401_spec. }
  assert (p < length (tasks s1)) as Hlt1 by (by apply phase_of_lt in Hp1).
  assert (phase_of p s1' = Some (AwaitGetRefreshToken e)) as Hp2.
  { by apply phase_of_set_phase. }
  pose proof (initiator_spec s1' p e r Hp2 Hrf Hst Hr) as H3.
  eexists s1, _. split; [exact H1 |]. split; [exact Hw1 |]. split; [exact Hw2 |].
  split; [exact Hp1 |]. split; [exact Hre1 |].
  split; [cbn [run]; rewrite H2, H3; reflexivity |].
  split; [by apply emitted_app |].
  apply (phase_of_set_phase p _ (set_isRefreshing true (set_request p _ s1'))).
  unfold s1'. simpl_fields. by rewrite !length_alter.
Qed.

Lemma queued_call_retried_unmarked_witness :
  exists s1 s2,
    step renewal_answered (StoreSet 0 true) = Some s1 /\
    Sent 1 Fetch (Some (Bearer (str "A2"))) false None ∈ emitted renewal_answered s1 /\
    run s1 [Respond 1 unauthorized; StoreGet 1 true] = Some s2 /\
    emitted s1 s2 = [RefreshPost 1 "R2"].
Proof.
  destruct (queued_call_retried_unmarked renewal_answered 0 1 "R1" (str "A2") "R2"
              eq_refl eq_refl ltac:(discriminate)
              ltac:(apply list_elem_of_here) eq_refl eq_refl)
    as (s1 & s2 & H1 & _ & Hs & _ & _ & H2 & He & _).
  exists s1, s2. split; [exact H1 |]. split; [exact Hs |]. split; [exact H2 | exact He].
Defined.

Lemma filter_at_least_one {A} (P : A -> bool) (l : list A) j x :
  l !! j = Some x -> P x = true -> 1 <= length (List.filter P l).
Proof.
  revert j. induction l as [| a l IH]; intros j Ej Hx; [by rewrite lookup_nil in Ej |].
  cbn. destruct j as [| j].
  - injection Ej as ->. rewrite Hx. cbn. lia.
  - destruct (P a); cbn; [lia |]. by apply (IH j).
Qed.

Lemma stored_frame s i rt a r p s' :
  phase_of i s = Some (AwaitSetRefreshToken rt a (str r)) -> failedQueue s = [] ->
  step s (StoreSet i true) = Some s' -> p <> i ->
  phase_of p s' = phase_of p s.
Proof.
  intros Hp Hq Hstep Hne. cbn [step] in Hstep. rewrite Hp in Hstep. injection Hstep as <-.
  unfold on_refresh_stored, setRefreshToken.
  rewrite processQueue_unfold. simpl_fields. rewrite Hq. cbn [foldl].
  change (phase_of p (apiClient i (set_failedQueue []
            (set_request i {| _retry := _retry (request_of i (set_secureStore (Some r) s));
                              Authorization := Some (Bearer a);
                              body := body (request_of i (set_secureStore (Some r) s)) |}
               (set_secureStore (Some r) s)))) = phase_of p s).
  rewrite phase_of_apiClient_ne by done.
  apply (phase_of_set_request p i _ (set_secureStore (Some r) s)).
Qed.

(** C1.  Renewal is not single-flight.  (1) The mount effect takes no part
    in the mutex: [endpoints.refreshTokens] never looks at [isRefreshing].
    While the refresh POST of call [i] is on the wire with the stored token
    [rt] and [isRefreshing] is set, the mount effect that has just read
    the same token posts it to [/api/v1/auth/refresh] as well: two renewal
    requests are in flight, both with [rt].  (2) [isRefreshing] is tested
    after the awaited read of the stored token, not before it.  Calls [i]
    and [p] have both failed with status 401 while no renewal was in
    progress.  Call [i] reads the token, renews and is sent again; only then
    does the read of call [p] complete: the flag is down again, so call [p]
    sends a refresh POST of its own, with the token the first renewal
    stored.  The endpoint is invoked twice for the one expiry, and the two
    calls go on with different renewals. *)
Theorem single_flight_broken :
  (forall s i j rt,
      isRefreshing s = true -> phase_of i s = Some (AwaitRefreshPost rt) ->
      phase_of j s = Some MountGetRefreshToken -> op_of j s = SilentRefresh ->
      secureStore s = Some rt -> rt <> ""%string ->
      exists s' hdr,
        step s (StoreGet j true) = Some s' /\
        emitted s s' = [Sent j SilentRefresh hdr false (Some (str rt))] /\
        isRefreshing s' = true /\
        phase_of i s' = Some (AwaitRefreshPost rt) /\
        phase_of j s' = Some AwaitResponse /\
        2 <= renewals_in_flight s') /\
  (forall s i p e e' R1 a R2,
      i <> p ->
      phase_of i s = Some (AwaitGetRefreshToken e) ->
      phase_of p s = Some (AwaitGetRefreshToken e') ->
      isRefreshing s = false -> failedQueue s = [] ->
      secureStore s = Some R1 -> R1 <> ""%string -> R2 <> ""%string ->
      exists s',
        run s [StoreGet i true; RefreshRespond i (token_pair a (str R2)); StoreSet i true;
               StoreGet p true] = Some s' /\
        List.filter is_RefreshPost (emitted s s') = [RefreshPost i R1; RefreshPost p R2] /\
        phase_of i s' = Some AwaitResponse /\
        phase_of p s' = Some (AwaitRefreshPost R2)).
Proof.
  split.
  - intros s i j rt Hr Hi Hj Hoj Hst Hrt.
    pose proof (phase_of_lt _ _ _ Hj) as Hlt.
    assert (i <> j) as Hne by (intros ->; congruence).
    set (c := {| _retry := false; Authorization := None; body := Some (str rt) |}).
    set (s0 := set_request j c s).
    assert (step s (StoreGet j true) = Some (apiClient j s0)) as Hstep.
    { cbn [step]. rewrite Hj. unfold on_mount_token, getRefreshToken. rewrite Hst.
      cbn [truthy]. by apply String.eqb_neq in Hrt as ->. }
    assert (j < length (tasks s0)) as Hlt0 by (unfold s0; simpl_fields; by rewrite length_alter).
    assert (request_of j s0 = c) as Hreq by (by apply request_of_set_request).
    assert (op_of j s0 = SilentRefresh) as Ho0.
    { rewrite <- Hoj. apply (op_of_upd (fun _ _ => True)). apply upd_alter_request. }
    assert (phase_of j (apiClient j s0) = Some AwaitResponse) as Hj' by (by apply apiClient_phase).
    assert (phase_of i (apiClient j s0) = Some (AwaitRefreshPost rt)) as Hi'.
    { rewrite phase_of_apiClient_ne by done. unfold s0. by rewrite phase_of_set_request. }
    exists (apiClient j s0), (Authorization (request_interceptor s0 c)).
    split; [exact Hstep |].
    split; [apply emitted_app; by rewrite apiClient_log, Ho0, Hreq |].
    split; [exact Hr |]. split; [exact Hi' |]. split; [exact Hj' |].
    apply phase_of_Some in Hi' as (ti & Eti & Hti).
    apply phase_of_Some in Hj' as (tj & Etj & Htj).
    assert (op tj = SilentRefresh) as Hotj.
    { assert (op_of j (apiClient j s0) = op_of j s0) as E.
      { apply (op_of_upd (fun _ _ => True)). by apply apiClient_tasks. }
      unfold op_of in E. rewrite Etj in E. fold (op_of j s0) in E. by rewrite E. }
    unfold renewals_in_flight.
    assert (1 <= length (List.filter posting (tasks (apiClient j s0)))) as H1.
    { apply (filter_at_least_one posting _ i ti Eti). unfold posting. by rewrite Hti. }
    assert (1 <= length (List.filter silent_posting (tasks (apiClient j s0)))) as H2.
    { apply (filter_at_least_one silent_posting _ j tj Etj). unfold silent_posting.
      by rewrite Hotj, Htj. }
    lia.
  - intros s i p e e' R1 a R2 Hne Hi Hp Hr Hq Hst Hrt1 Hrt2.
    pose proof (phase_of_lt _ _ _ Hi) as Hlti. pose proof (phase_of_lt _ _ _ Hp) as Hltp.
    (* call [i] reads the stored token and sends the refresh POST *)
    pose proof (initiator_spec s i e R1 Hi Hr Hst Hrt1) as H1.
    set (s1 := emit (RefreshPost i R1) _) in H1.
    assert (phase_of i s1 = Some (AwaitRefreshPost R1)) as Hi1.
    { apply (phase_of_set_phase i _ (set_isRefreshing true (set_request i _ s))).
      simpl_fields. by rewrite length_alter. }
    assert (phase_of p s1 = Some (AwaitGetRefreshToken e')) as Hp1.
    { unfold s1.
      change (phase_of p (set_phase i (AwaitRefreshPost R1)
                (set_request i {| _retry := true; Authorization := Authorization (request_of i s);
                                  body := body (request_of i s) |} s)) = Some (AwaitGetRefreshToken e')).
      rewrite phase_of_set_phase_ne by done. by rewrite phase_of_set_request. }
    (* the answer *)
    assert (step s1 (RefreshRespond i (token_pair a (str R2))) =
            Some (set_phase i (AwaitSetRefreshToken R1 a (str R2)) (setAccessToken a s1))) as H2.
    { by apply (refresh_ok_spec s1 i R1 _ {| access_token := a; refresh_token := str R2;
                                             token_type := str "bearer" |}). }
    set (s2 := set_phase i (AwaitSetRefreshToken R1 a (str R2)) (setAccessToken a s1)) in H2.
    assert (phase_of i s2 = Some (AwaitSetRefreshToken R1 a (str R2))) as Hi2.
    { apply (phase_of_set_phase i _ (setAccessToken a s1)). by apply phase_of_lt in Hi1. }
    assert (phase_of p s2 = Some (AwaitGetRefreshToken e')) as Hp2.
    { unfold s2. rewrite phase_of_set_phase_ne by done. exact Hp1. }
    (* the new pair is stored and call [i] is sent again *)
    destruct (stored_spec s2 i R1 a R2 Hi2)
      as (s3 & H3 & Hst3 & _ & Hr3 & _ & Hi3 & _ & _ & Hlone & _).
    destruct Hlone as [He3 _]; [done |].
    assert (phase_of p s3 = Some (AwaitGetRefreshToken e')) as Hp3.
    { rewrite (stored_frame s2 i R1 a R2 p s3 Hi2) by done. exact Hp2. }
    (* only now does the read of call [p] complete *)
    pose proof (initiator_spec s3 p e' R2 Hp3 Hr3 Hst3 Hrt2) as H4.
    set (s4 := emit (RefreshPost p R2) _) in H4.
    exists s4. split; [cbn [run]; by rewrite H1, H2, H3, H4 |].
    split.
    { pose proof (step_log _ _ _ H3) as Hl3. rewrite He3 in Hl3.
      erewrite emitted_app;
        [| unfold s4; simpl_fields; rewrite Hl3; unfold s2, s1; simpl_fields;
           rewrite <- !app_assoc; reflexivity].
      done. }
    split.
    { unfold s4.
      change (phase_of i (set_phase p (AwaitRefreshPost R2)
                (set_request p {| _retry := true; Authorization := Authorization (request_of p s3);
                                  body := body (request_of p s3) |} s3)) = Some AwaitResponse).
      rewrite phase_of_set_phase_ne by done. by rewrite phase_of_set_request. }
    apply (phase_of_set_phase p _ (set_isRefreshing true (set_request p _ s3))).
    simpl_fields. rewrite length_alter. by apply phase_of_lt in Hp3.
Qed.

Lemma single_flight_broken_witness :
  (exists s',
      step (state_after (Some "R1"%string)
              [Execute; Respond 0 unauthorized; StoreGet 0 true; Mount])
        (StoreGet 1 true) = Some s' /\
      emitted (state_after (Some "R1"%string)
                 [Execute; Respond 0 unauthorized; StoreGet 0 true; Mount]) s' =
        [Sent 1 SilentRefresh None false (Some (str "R1"))] /\
      isRefreshing s' = true /\
      phase_of 0 s' = Some (AwaitRefreshPost "R1") /\
      2 <= renewals_in_flight s') /\
  (exists s',
      run (state_after (Some "R1"%string)
             [Execute; Execute; Respond 0 unauthorized; Respond 1 unauthorized])
        [StoreGet 0 true; RefreshRespond 0 (token_pair (str "A2") (str "R2"));
         StoreSet 0 true; StoreGet 1 true] = Some s' /\
      List.filter is_RefreshPost
        (emitted (state_after (Some "R1"%string)
                    [Execute; Execute; Respond 0 unauthorized; Respond 1 unauthorized]) s') =
        [RefreshPost 0 "R1"; RefreshPost 1 "R2"]).
Proof.
  destruct single_flight_broken as [HA HB]. split.
  - destruct (HA (state_after (Some "R1"%string)
                    [Execute; Respond 0 unauthorized; StoreGet 0 true; Mount])
                0 1 "R1"%string
                ltac:(vm_compute; reflexivity) ltac:(vm_compute; reflexivity)
                ltac:(vm_compute; reflexivity) ltac:(vm_compute; reflexivity)
                ltac:(vm_compute; reflexivity) ltac:(discriminate))
      as (s' & hdr & Hs & He & Hr & Hp & _ & Hn).
    exists s'. split; [exact Hs |]. split; [| by split; [| split]].
    vm_compute in Hs. injection Hs as <-. vm_compute in He. vm_compute.
    by injection He as <-.
  - destruct (HB (state_after (Some "R1"%string)
                    [Execute; Execute; Respond 0 unauthorized; Respond 1 unauthorized])
                0 1
                (AxiosError (ApiCall 0) (Some {| status := 401; data := None |}))
                (AxiosError (ApiCall 1) (Some {| status := 401; data := None |}))
                "R1"%string (str "A2") "R2"%string
                ltac:(discriminate)
                ltac:(vm_compute; reflexivity) ltac:(vm_compute; reflexivity)
                ltac:(vm_compute; reflexivity) ltac:(vm_compute; reflexivity)
                ltac:(vm_compute; reflexivity) ltac:(discriminate) ltac:(discriminate))
      as (s' & Hs & He & _).
    exists s'. split; [exact Hs | exact He].
Defined.

(** The request of the mount effect submits the token just read from the
    secure store. *)
Lemma mount_submits s j ok s' o hdr retry b :
  phase_of j s = Some MountGetRefreshToken -> step s (StoreGet j ok) = Some s' ->
  Sent j o hdr retry (Some b) ∈ emitted s s' ->
  exists rt, b = str rt /\ secureStore s = Some rt /\ secureStore s' = Some rt.
Proof.
  intros Hp Hstep Hin. cbn [step] in Hstep. rewrite Hp in Hstep. injection Hstep as <-.
  unfold on_mount_token in *. destruct (truthy (getRefreshToken ok s)) eqn:Ht.
  - rewrite (emitted_app s _ _ (apiClient_log j (set_request j _ s))) in Hin.
    apply list_elem_of_singleton in Hin.
    pose proof (phase_of_lt _ _ _ Hp) as Hj.
    rewrite (request_of_set_request j _ s Hj) in Hin. cbn [body] in Hin.
    injection Hin as _ _ _ ->.
    destruct (getRefreshToken ok s) as [| | rt] eqn:Eg; try done.
    apply getRefreshToken_str in Eg as [_ Hst]. exists rt. by repeat split.
  - unfold emitted in Hin. simpl_fields. rewrite drop_all in Hin. by apply elem_of_nil in Hin.
Qed.

(** C4, as stated, fails.  (1) The refresh endpoint answers the renewal of
    call 0, which submitted "R1", with a new pair; storing "R2" throws and
    the deletion that follows throws too, so "R1" is still stored when the
    renewal is over.  The next call that fails with status 401 submits
    "R1" again.  (2) The mount effect posts "R1" to the refresh endpoint
    and gets a 401; the interceptor renews with "R1", stores "R2", and
    sends the request of the mount effect again as it is: the renewal
    request that leaves at line 83 submits "R1" while the store holds
    "R2". *)
Lemma renewal_credential_single_use_counterexample :
  (exists s,
      run (init (Some "R1"%string)) rotation_lost = Some s /\
      List.filter is_RefreshPost (log s) = [RefreshPost 0 "R1"; RefreshPost 1 "R1"]) /\
  (exists s,
      run (init (Some "R1"%string)) refresh_sent_again = Some s /\
      secureStore s = Some "R2"%string /\
      log s = [Sent 0 SilentRefresh None false (Some (str "R1"));
               RefreshPost 0 "R1";
               Sent 0 SilentRefresh (Some "Bearer A2"%string) true (Some (str "R1"))]).
Proof.
  split.
  - eexists. split; [vm_compute; reflexivity |]. vm_compute. reflexivity.
  - eexists. split; [vm_compute; reflexivity |]. vm_compute. by split.
Qed.

(** C4, amended.  (1) A refresh POST of the interceptor submits the token
    the secure store holds in the state it is sent from, and leaves it
    there.  So does the request of the mount effect when it is first sent.
    (2) Once the renewal of call [i], which submitted [r1], has stored a
    different new token, the secure store never holds [r1] again, no
    refresh POST of the interceptor submits it, and no mount effect that
    reads the store from then on submits it with its first request, in any
    continuation in which the server does not hand out [r1] again,
    provided no earlier response that carried [r1] is still waiting to be
    stored.  (A request that the interceptor sends again after a renewal
    is not covered.)  (3) When storing the new token throws and the
    deletion that follows throws too, the store holds what it held, and
    the next call that renews submits [r1] again. *)
Theorem renewal_credential_single_use :
  (forall s ev s' j rt,
      step s ev = Some s' -> RefreshPost j rt ∈ emitted s s' ->
      secureStore s = Some rt /\ secureStore s' = Some rt) /\
  (forall s j rt,
      phase_of j s = Some MountGetRefreshToken ->
      secureStore s = Some rt -> rt <> ""%string ->
      exists s' hdr,
        step s (StoreGet j true) = Some s' /\
        emitted s s' = [Sent j (op_of j s) hdr false (Some (str rt))] /\
        secureStore s' = Some rt) /\
  (forall s i r1 a r2 tr s2,
      phase_of i s = Some (AwaitSetRefreshToken r1 a (str r2)) -> r2 <> r1 ->
      no_pending_write r1 s ->
      Forall (fun ev => issues r1 ev = false) tr ->
      run s (StoreSet i true :: tr) = Some s2 ->
      secureStore s2 <> Some r1 /\
      (forall j, RefreshPost j r1 ∉ emitted s s2) /\
      (forall j ok s3 o hdr retry,
          phase_of j s2 = Some MountGetRefreshToken -> step s2 (StoreGet j ok) = Some s3 ->
          Sent j o hdr retry (Some (str r1)) ∉ emitted s2 s3)) /\
  (forall s i r1 a r2,
      phase_of i s = Some (AwaitSetRefreshToken r1 a r2) ->
      exists s',
        run s [StoreSet i false; StoreDelete i false] = Some s' /\
        secureStore s' = secureStore s /\ isRefreshing s' = false /\
        forall p e, phase_of p s' = Some (AwaitGetRefreshToken e) ->
                    secureStore s = Some r1 -> r1 <> ""%string ->
                    exists s'', step s' (StoreGet p true) = Some s'' /\
                                emitted s' s'' = [RefreshPost p r1]).
Proof.
  split; [| split; [| split]].
  - intros s ev s' j rt Hstep Hin.
    destruct (step_effects s ev s' Hstep) as ((l & El & Hl) & _).
    rewrite (emitted_app _ _ _ El) in Hin. rewrite Forall_forall in Hl.
    destruct (Hl _ Hin) as (e & -> & Hp & Hst & Hr). split; [done |].
    assert (rt <> ""%string) as Hrt.
    { intros ->. cbn [step] in Hstep. rewrite Hp in Hstep.
      unfold on_refreshToken, getRefreshToken in Hstep. rewrite Hst in Hstep.
      cbn in Hstep. injection Hstep as <-. rewrite settle_log in El.
      apply app_inv_head in El. subst l. apply list_elem_of_singleton in Hin. done. }
    rewrite (initiator_spec s j e rt Hp Hr Hst Hrt) in Hstep. by injection Hstep as <-.
  - intros s j rt Hp Hst Hrt. pose proof (phase_of_lt _ _ _ Hp) as Hj.
    set (c := {| _retry := false; Authorization := None; body := Some (str rt) |}).
    exists (apiClient j (set_request j c s)),
           (Authorization (request_interceptor (set_request j c s) c)).
    split.
    { cbn [step]. rewrite Hp. unfold on_mount_token, getRefreshToken. rewrite Hst.
      cbn [truthy]. by apply String.eqb_neq in Hrt as ->. }
    split; [| done].
    apply emitted_app. rewrite apiClient_log.
    rewrite (request_of_set_request j c s Hj).
    by rewrite (op_of_upd (fun _ _ => True) j s (set_request j c s))
      by apply upd_alter_request.
  - intros s i r1 a r2 tr s2 Hi Hne Hnp Htr Hrun.
    cbn [run] in Hrun. destruct (step s (StoreSet i true)) as [s1 |] eqn:H1; [| done].
    destruct (stored_spec s i r1 a r2 Hi) as (s1' & H1' & Hst & _).
    assert (s1' = s1) as -> by congruence.
    assert (secureStore s1 <> Some r1) as Hst1 by (rewrite Hst; congruence).
    pose proof (step_no_pending r1 s (StoreSet i true) s1 Hnp eq_refl H1) as Hnp1.
    destruct (run_never_again r1 tr s1 s2 Hnp1 Hst1 Htr Hrun) as (Hst2 & _ & Hlog).
    split; [done |]. split.
    + intros j.
      rewrite (emitted_step_run s _ s1 tr s2 H1 Hrun), elem_of_app.
      intros [Hin | Hin]; [| by eapply Hlog].
      destruct (step_effects s _ s1 H1) as ((l & El & Hl) & _).
      rewrite (emitted_app _ _ _ El) in Hin. rewrite Forall_forall in Hl.
      by destruct (Hl _ Hin) as (e & ? & _).
    + intros j ok s3 o hdr retry Hp Hstep Hin.
      destruct (mount_submits s2 j ok s3 o hdr retry (str r1) Hp Hstep Hin)
        as (rt & [= <-] & Hs & _).
      done.
  - intros s i r1 a r2 Hi. pose proof (phase_of_lt _ _ _ Hi) as Hlt.
    destruct (catch_then_clear s i SecureStoreError false Hlt)
      as (s2 & H2 & _ & _ & _ & _ & _ & Hst & Hr & _).
    assert (step s (StoreSet i false) = Some (refresh_catch i SecureStoreError s)) as H1.
    { cbn [step]. rewrite Hi. unfold on_refresh_stored, setRefreshToken. by destruct r2. }
    exists s2. split; [cbn [run]; by rewrite H1, H2 |].
    split; [exact Hst |]. split; [exact Hr |].
    intros p e Hp Hs Hne.
    eexists. split; [apply (initiator_spec s2 p e r1); try done; by rewrite Hst |].
    by apply emitted_app.
Qed.

Lemma renewal_credential_single_use_witness :
  (exists s2,
      run renewal_answered_alone (StoreSet 0 true :: two_rotations) = Some s2 /\
      secureStore s2 <> Some "R1"%string /\
      List.filter is_RefreshPost (emitted renewal_answered_alone s2) = [RefreshPost 1 "R2"]) /\
  (exists s',
      step (state_after (Some "R1"%string) [Mount]) (StoreGet 0 true) = Some s' /\
      emitted (state_after (Some "R1"%string) [Mount]) s' =
        [Sent 0 SilentRefresh None false (Some (str "R1"))]).
Proof.
  split.
  - eexists. split; [vm_compute; reflexivity |]. split; [| vm_compute; reflexivity].
    refine (proj1 (proj1 (proj2 (proj2 renewal_credential_single_use)) renewal_answered_alone 0
                     "R1"%string (str "A2") "R2"%string two_rotations _ _ _ _ _ _)).
    + vm_compute. reflexivity.
    + discriminate.
    + intros j t Ej. vm_compute in Ej.
      destruct j as [| j]; [by injection Ej as <- | done].
    + vm_compute. repeat constructor.
    + vm_compute. reflexivity.
  - destruct (proj1 (proj2 renewal_credential_single_use)
                (state_after (Some "R1"%string) [Mount]) 0 "R1"%string
                ltac:(vm_compute; reflexivity) ltac:(vm_compute; reflexivity)
                ltac:(discriminate))
      as (s' & hdr & Hs & He & _).
    exists s'. split; [exact Hs |].
    vm_compute in Hs. injection Hs as <-. vm_compute in He. vm_compute.
    by injection He as <-.
Defined.

Lemma run_no_pending r tr s s' :
  no_pending_write r s -> Forall (fun ev => issues r ev = false) tr ->
  run s tr = Some s' -> no_pending_write r s'.
Proof.
  revert s. induction tr as [| ev tr IH]; intros s Hinv Htr; cbn.
  - by intros [= <-].
  - destruct (step s ev) as [s1 |] eqn:Hstep; [| done].
    apply Forall_cons in Htr as [Hev Htr]. apply IH; [| done].
    by eapply step_no_pending.
Qed.

Lemma request_of_tasks j s s' : tasks s' = tasks s -> request_of j s' = request_of j s.
Proof. unfold request_of. by intros ->. Qed.

Lemma execute_body s s1 :
  step s Execute = Some s1 -> body (request_of (length (tasks s)) s1) = None.
Proof.
  intros [= <-]. rewrite apiClient_body. unfold request_of. simpl_fields.
  by rewrite list_lookup_middle.
Qed.

Lemma initiator_body j i c s :
  body c = body (request_of i s) ->
  forall p o,
    body (request_of j (emit o (set_phase i p (set_isRefreshing true (set_request i c s))))) =
    body (request_of j s).
Proof.
  intros Hc p o.
  rewrite (request_of_tasks j (set_phase i p (set_isRefreshing true (set_request i c s)))) by done.
  rewrite request_of_set_phase.
  rewrite (request_of_tasks j (set_request i c s)) by done.
  by apply request_of_alter_body.
Qed.

Lemma stored_body s i rt a r j s' :
  phase_of i s = Some (AwaitSetRefreshToken rt a (str r)) ->
  step s (StoreSet i true) = Some s' ->
  body (request_of j s') = body (request_of j s).
Proof.
  intros Hp Hstep. cbn [step] in Hstep. rewrite Hp in Hstep. injection Hstep as <-.
  unfold on_refresh_stored, setRefreshToken.
  set (s1 := set_secureStore (Some r) s).
  set (c := {| _retry := _; Authorization := _; body := _ |}).
  rewrite (request_of_tasks j (apiClient i (processQueue None a (set_request i c s1)))) by done.
  rewrite apiClient_body, processQueue_unfold.
  rewrite (request_of_tasks j (foldl (queue_body None a) (set_request i c s1)
                                 (failedQueue (set_request i c s1)))) by done.
  rewrite loop_resolve_body. by apply (request_of_alter_body j i c s1).
Qed.

Lemma config_eta (c : config) b h d :
  _retry c = b -> Authorization c = h -> body c = d ->
  c = {| _retry := b; Authorization := h; body := d |}.
Proof. destruct c. cbn. by intros -> -> ->. Qed.

(** The run of a renewal that succeeds, from the request to its retry. *)
Lemma rotation_run (s : State) (R1 A2 R2 : string) (tt : value) (st : Z)
    (d401 : option fields) :
  isRefreshing s = false -> failedQueue s = [] ->
  secureStore s = Some R1 -> R1 <> ""%string ->
  exists s',
    run s [Execute;
           Respond (length (tasks s)) (Failed (Some {| status := 401; data := d401 |}));
           StoreGet (length (tasks s)) true;
           RefreshRespond (length (tasks s))
             (Fulfilled {| status := st;
                           data := Some {| access_token := str A2; refresh_token := str R2;
                                           token_type := tt |} |});
           StoreSet (length (tasks s)) true] = Some s' /\
    emitted s s' =
      [Sent (length (tasks s)) Fetch
         (if truthy (accessToken s) then Some (Bearer (accessToken s)) else None) false None;
       RefreshPost (length (tasks s)) R1;
       Sent (length (tasks s)) Fetch (Some (Bearer (str A2))) true None] /\
    accessToken s' = str A2 /\ secureStore s' = Some R2 /\
    getRefreshToken true s' = str R2 /\
    phase_of (length (tasks s)) s' = Some AwaitResponse /\
    request_of (length (tasks s)) s' =
      {| _retry := true; Authorization := Some (Bearer (str A2)); body := None |} /\
    isRefreshing s' = false /\
    (R2 <> R1 -> no_pending_write R1 s ->
     forall tr s'', Forall (fun ev => issues R1 ev = false) tr -> run s' tr = Some s'' ->
       (forall ok, getRefreshToken ok s'' <> str R1) /\
       forall j, RefreshPost j R1 ∉ emitted s' s'').
Proof.
  intros Hr Hq Hst Hrt. set (i := length (tasks s)).
  set (r401 := Some {| status := 401; data := d401 |}).
  set (d := {| access_token := str A2; refresh_token := str R2; token_type := tt |}).
  set (resp := {| status := st; data := Some d |}).
  destruct (execute_spec s) as (s1 & H1 & Hp1 & Ho1 & Hre1 & He1 & Ha1 & (Hst1 & Hr1 & _) & Hq1).
  fold i in H1, Hp1, Ho1, Hre1, He1.
  pose proof (phase_of_lt _ _ _ Hp1) as Hi1.
  pose proof (step_log _ _ _ H1) as Hl1. rewrite He1 in Hl1.
  (* the 401 *)
  set (e := AxiosError (ApiCall i) r401).
  set (s2 := set_phase i (AwaitGetRefreshToken e) s1).
  assert (step s1 (Respond i (Failed r401)) = Some s2) as H2.
  { by apply respond_401_spec. }
  assert (phase_of i s2 = Some (AwaitGetRefreshToken e)) as Hp2.
  { by apply phase_of_set_phase. }
  (* the refresh POST *)
  set (s3 := emit (RefreshPost i R1)
               (set_phase i (AwaitRefreshPost R1)
                  (set_isRefreshing true
                     (set_request i {| _retry := true;
                                       Authorization := Authorization (request_of i s2);
                                       body := body (request_of i s2) |} s2)))).
  assert (step s2 (StoreGet i true) = Some s3) as H3.
  { apply (initiator_spec s2 i e R1); try done.
    - change (isRefreshing s2) with (isRefreshing s1). congruence.
    - change (secureStore s2) with (secureStore s1). congruence. }
  assert (i < length (tasks s3)) as Hi3.
  { unfold s3, s2. simpl_fields. by rewrite !length_alter. }
  assert (phase_of i s3 = Some (AwaitRefreshPost R1)) as Hp3.
  { apply (phase_of_set_phase i _ (set_isRefreshing true (set_request i _ s2))).
    unfold s2. simpl_fields. by rewrite !length_alter. }
  (* the answer *)
  set (s4 := set_phase i (AwaitSetRefreshToken R1 (str A2) (str R2))
               (setAccessToken (str A2) s3)).
  assert (step s3 (RefreshRespond i (Fulfilled resp)) = Some s4) as H4.
  { by apply (refresh_ok_spec s3 i R1 resp d). }
  assert (phase_of i s4 = Some (AwaitSetRefreshToken R1 (str A2) (str R2))) as Hp4.
  { by apply (phase_of_set_phase i _ (setAccessToken (str A2) s3)). }
  assert (op_of i s4 = Fetch) as Ho4.
  { rewrite <- Ho1. apply (op_of_upd (fun _ _ => True)).
    unfold s4, s3, s2. simpl_fields.
    repeat (eapply upd_trans; [| first [by apply upd_alter_phase | apply upd_alter_request]]).
    apply upd_refl. }
  assert (_retry (request_of i s4) = true) as Hre4.
  { unfold s4. rewrite request_of_set_phase.
    change (_retry (request_of i s3) = true). unfold s3.
    change (_retry (request_of i (set_phase i (AwaitRefreshPost R1)
              (set_isRefreshing true
                 (set_request i {| _retry := true;
                                   Authorization := Authorization (request_of i s2);
                                   body := body (request_of i s2) |} s2)))) = true).
    rewrite request_of_set_phase.
    change (_retry (request_of i (set_request i
              {| _retry := true; Authorization := Authorization (request_of i s2); body := body (request_of i s2) |} s2)) = true).
    rewrite request_of_set_request; [done |].
    unfold s2. simpl_fields. by rewrite length_alter. }
  (* the new pair is stored *)
  destruct (stored_spec s4 i R1 (str A2) R2 Hp4)
    as (s5 & H5 & Hst5 & Ha5 & Hr5 & _ & Hp5 & _ & Hre5 & Hlone & _).
  destruct Hlone as [He5 Hau5].
  { change (failedQueue s4) with (failedQueue s1). by rewrite Hq1. }
  change (accessToken s4) with (str A2) in *.
  assert ((if truthy (str A2) then str A2 else str A2) = str A2) as Hif
    by (by destruct (truthy (str A2))).
  assert (body (request_of i s4) = None) as Hbo4.
  { unfold s4. rewrite request_of_set_phase.
    rewrite (request_of_tasks i s3) by done. unfold s3.
    rewrite initiator_body by done.
    unfold s2. rewrite request_of_set_phase. by apply execute_body. }
  rewrite Hif, Ho4, Hre4, Hbo4 in He5. rewrite Hif in Hau5.
  pose proof (step_log _ _ _ H5) as Hl5. rewrite He5 in Hl5.
  assert (run s [Execute; Respond i (Failed r401); StoreGet i true;
                 RefreshRespond i (Fulfilled resp); StoreSet i true] = Some s5) as Hrun.
  { cbn [run]. by rewrite H1, H2, H3, H4, H5. }
  exists s5. split; [exact Hrun |].
  split.
  { apply emitted_app. rewrite Hl5.
    change (log s4) with (log s1 ++ [RefreshPost i R1]). rewrite Hl1, <- !app_assoc. done. }
  split; [done |]. split; [done |].
  split; [unfold getRefreshToken; by rewrite Hst5 |].
  split; [done |].
  split; [apply config_eta; [by rewrite Hre5 | done |] |].
  { by rewrite (stored_body s4 i R1 (str A2) R2 i s5 Hp4 H5). }
  split; [done |].
  intros Hne Hnp tr s'' Htr Hrun'.
  assert (no_pending_write R1 s5) as Hnp5.
  { eapply (run_no_pending R1 _ s s5 Hnp); [| exact Hrun].
    repeat constructor. cbn. by apply String.eqb_neq. }
  destruct (run_never_again R1 tr s5 s'' Hnp5) as (Hst'' & _ & Hlog); try done.
  { rewrite Hst5. congruence. }
  split; [| done]. intros ok. unfold getRefreshToken. destruct ok; [| done].
  destruct (secureStore s'') as [x |]; [| done]. intros [= ->]. done.
Qed.

(** C7.  Rotation on a successful renewal.  With [R1] stored and no renewal
    in progress, a data request is sent, fails with status 401, and the
    refresh endpoint answers [{access_token: A2, refresh_token: R2}], which
    SecureStore accepts.  The run exists; what went out is the request, one
    refresh POST that submits [R1], and the request again, marked and with
    the header ["Bearer " ++ A2]; the access token is [A2], the secure
    store holds [R2] and [getRefreshToken] yields [R2].  If [R2] differs
    from [R1], reading the stored token never yields [R1] again and no
    refresh POST of the interceptor submits it, in any continuation in
    which the server does not hand out [R1] again (no response that carried
    [R1] being still about to be stored). *)
Theorem rotation_on_renewal (s : State) (R1 A2 R2 : string) (tt : value) (st : Z)
    (d401 : option fields) :
  isRefreshing s = false -> failedQueue s = [] ->
  secureStore s = Some R1 -> R1 <> ""%string ->
  exists s',
    run s [Execute;
           Respond (length (tasks s)) (Failed (Some {| status := 401; data := d401 |}));
           StoreGet (length (tasks s)) true;
           RefreshRespond (length (tasks s))
             (Fulfilled {| status := st;
                           data := Some {| access_token := str A2; refresh_token := str R2;
                                           token_type := tt |} |});
           StoreSet (length (tasks s)) true] = Some s' /\
    emitted s s' =
      [Sent (length (tasks s)) Fetch
         (match accessToken s with
          | str a => if String.eqb a "" then None else Some ("Bearer " ++ a)%string
          | _ => None
          end) false None;
       RefreshPost (length (tasks s)) R1;
       Sent (length (tasks s)) Fetch (Some ("Bearer " ++ A2)%string) true None] /\
    accessToken s' = str A2 /\ secureStore s' = Some R2 /\
    getRefreshToken true s' = str R2 /\
    phase_of (length (tasks s)) s' = Some AwaitResponse /\
    request_of (length (tasks s)) s' =
      {| _retry := true; Authorization := Some ("Bearer " ++ A2)%string; body := None |} /\
    isRefreshing s' = false /\
    (R2 <> R1 -> no_pending_write R1 s ->
     forall tr s'', Forall (fun ev => issues R1 ev = false) tr -> run s' tr = Some s'' ->
       (forall ok, getRefreshToken ok s'' <> str R1) /\
       forall j, RefreshPost j R1 ∉ emitted s' s'').
Proof.
  intros Hr Hq Hst Hrt.
  destruct (rotation_run s R1 A2 R2 tt st d401 Hr Hq Hst Hrt)
    as (s' & Hrun & He & Ha & Hs & Hg & Hp & Hreq & Hrf & Hnever).
  exists s'. split; [exact Hrun |]. split.
  { rewrite He. f_equal. f_equal.
    destruct (accessToken s) as [| | a]; try done. cbn.
    by destruct (String.eqb a ""). }
  split; [exact Ha |]. split; [exact Hs |]. split; [exact Hg |]. split; [exact Hp |].
  split; [exact Hreq |]. split; [exact Hrf | exact Hnever].
Qed.

Lemma rotation_on_renewal_witness :
  exists s',
    run (init (Some "R1"%string))
      [Execute; Respond 0 unauthorized; StoreGet 0 true;
       RefreshRespond 0 (token_pair (str "A2") (str "R2")); StoreSet 0 true] = Some s' /\
    emitted (init (Some "R1"%string)) s' =
      [Sent 0 Fetch None false None; RefreshPost 0 "R1";
       Sent 0 Fetch (Some "Bearer A2"%string) true None] /\
    accessToken s' = str "A2" /\ getRefreshToken true s' = str "R2".
Proof.
  destruct (rotation_on_renewal (init (Some "R1"%string)) "R1" "A2" "R2" (str "bearer") 200 None
              eq_refl eq_refl eq_refl ltac:(discriminate))
    as (s' & Hrun & He & Ha & _ & Hg & _).
  exists s'. split; [exact Hrun |]. split; [exact He |]. split; [exact Ha | exact Hg].
Defined.

(** * Further properties of the client *)

(** ** What [settle] does, by operation *)

Lemma set_accessToken_id s : set_accessToken (accessToken s) s = s.
Proof. by destruct s. Qed.

Lemma settle_settled i r s :
  settle i r s =
  set_phase i (settled (op_of i s) r)
    (set_accessToken (settled_token (op_of i s) r (accessToken s)) (emit (Returned i r) s)).
Proof.
  unfold settle. change (op_of i (emit (Returned i r) s)) with (op_of i s).
  assert (forall p, set_phase i p (emit (Returned i r) s) =
                    set_phase i p (set_accessToken (accessToken s) (emit (Returned i r) s))) as E.
  { intros p. change (accessToken s) with (accessToken (emit (Returned i r) s)).
    by rewrite set_accessToken_id. }
  destruct (op_of i s), r as [resp | e]; cbn [settled settled_token]; try apply E; try done;
    destruct (parse resp) as [[a rt] |]; try apply E; done.
Qed.

Lemma op_of_set_phase j i p s : op_of j (set_phase i p s) = op_of j s.
Proof.
  unfold op_of, set_phase. simpl_fields.
  destruct (decide (j = i)) as [-> |].
  - rewrite list_lookup_alter_eq. by destruct (tasks s !! i).
  - by rewrite list_lookup_alter_ne.
Qed.

Lemma op_of_set_request j i c s : op_of j (set_request i c s) = op_of j s.
Proof.
  unfold op_of, set_request. simpl_fields.
  destruct (decide (j = i)) as [-> |].
  - rewrite list_lookup_alter_eq. by destruct (tasks s !! i).
  - by rewrite list_lookup_alter_ne.
Qed.

Lemma length_set_phase i p s : length (tasks (set_phase i p s)) = length (tasks s).
Proof. unfold set_phase. simpl_fields. apply length_alter. Qed.

Lemma settle_phase_of i r s :
  i < length (tasks s) -> phase_of i (settle i r s) = Some (settled (op_of i s) r).
Proof. intros Hi. rewrite settle_settled. by apply phase_of_set_phase. Qed.

Lemma settle_accessToken i r s :
  accessToken (settle i r s) = settled_token (op_of i s) r (accessToken s).
Proof. by rewrite settle_settled. Qed.

Lemma settle_op_of j i r s : op_of j (settle i r s) = op_of j s.
Proof. rewrite settle_settled. by rewrite op_of_set_phase. Qed.

Lemma settle_length i r s : length (tasks (settle i r s)) = length (tasks s).
Proof. rewrite settle_settled. by rewrite length_set_phase. Qed.

(** ** [login] and [register] *)

(** X1.  [login] and [register] on a well-formed response: the access token is
    put in memory as soon as the response is there; once the refresh token
    is stored the user is signed in and the function returns.  A request
    made afterwards carries the access token [a], as the header
    ["Bearer " ++ a]. *)
Theorem login_stores_the_pair (s : State) (i : nat) (resp : response) (a r : string) :
  phase_of i s = Some AwaitResponse ->
  op_of i s = Login \/ op_of i s = Register ->
  parse resp = Some (a, r) ->
  exists s1 s2,
    step s (Respond i (Fulfilled resp)) = Some s1 /\
    step s1 (StoreSet i true) = Some s2 /\
    accessToken s1 = str a /\ secureStore s1 = secureStore s /\
    isAuthenticated s1 = isAuthenticated s /\
    accessToken s2 = str a /\ secureStore s2 = Some r /\
    isAuthenticated s2 = true /\
    phase_of i s2 = Some (Done None) /\
    emitted s s2 = [Returned i (Ok resp)] /\
    (a <> ""%string ->
     exists s3, step s2 Execute = Some s3 /\
                emitted s2 s3 =
                  [Sent (length (tasks s2)) Fetch (Some ("Bearer " ++ a)%string) false None]).
Proof.
  intros Hp Ho Hparse. pose proof (phase_of_lt _ _ _ Hp) as Hi.
  set (s1 := settle i (Ok resp) s).
  assert (settled (op_of i s) (Ok resp) = AuthSetRefreshToken a r) as Hs.
  { destruct Ho as [-> | ->]; cbn; by rewrite Hparse. }
  assert (settled_token (op_of i s) (Ok resp) (accessToken s) = str a) as Ht.
  { destruct Ho as [-> | ->]; cbn; by rewrite Hparse. }
  assert (phase_of i s1 = Some (AuthSetRefreshToken a r)) as Hp1.
  { unfold s1. by rewrite settle_phase_of, Hs. }
  assert (op_of i s1 = Login \/ op_of i s1 = Register) as Ho1.
  { unfold s1. by rewrite settle_op_of. }
  assert (i < length (tasks s1)) as Hi1 by (unfold s1; by rewrite settle_length).
  destruct (settle_same i (Ok resp) s) as (Hst & _ & Hau & _). fold s1 in Hst, Hau.
  set (s2 := set_phase i (Done None) (setIsAuthenticated true (set_secureStore (Some r) s1))).
  assert (step s1 (StoreSet i true) = Some s2) as H2.
  { cbn [step]. rewrite Hp1. unfold on_auth_stored. cbn [setRefreshToken].
    change (op_of i (setIsAuthenticated true (set_secureStore (Some r) s1))) with (op_of i s1).
    by destruct Ho1 as [-> | ->]. }
  exists s1, s2. split; [cbn [step]; by rewrite Hp |]. split; [exact H2 |].
  split; [unfold s1; by rewrite settle_accessToken |].
  split; [done |]. split; [done |].
  split; [change (accessToken s2) with (accessToken s1); unfold s1;
          by rewrite settle_accessToken |].
  split; [done |]. split; [done |].
  split; [by apply (phase_of_set_phase i _ (setIsAuthenticated true (set_secureStore _ s1))) |].
  split; [apply emitted_app; change (log s2) with (log s1); apply settle_log |].
  intros Hne. destruct (execute_spec s2) as (s3 & H3 & _ & _ & _ & He & _).
  exists s3. split; [done |]. rewrite He.
  change (accessToken s2) with (accessToken s1). unfold s1.
  rewrite settle_accessToken, Ht. cbn [truthy]. by apply String.eqb_neq in Hne as ->.
Qed.

Lemma login_stores_the_pair_witness :
  exists s2 s3,
    run (init None) [CallLogin; Respond 0 (token_pair (str "A1") (str "R1")); StoreSet 0 true]
      = Some s2 /\
    accessToken s2 = str "A1" /\ secureStore s2 = Some "R1"%string /\
    isAuthenticated s2 = true /\
    step s2 Execute = Some s3 /\
    emitted s2 s3 = [Sent 1 Fetch (Some "Bearer A1"%string) false None].
Proof.
  destruct (login_stores_the_pair (state_after None [CallLogin]) 0
              {| status := 200;
                 data := Some {| access_token := str "A1"; refresh_token := str "R1";
                                 token_type := str "bearer" |} |} "A1" "R1"
              eq_refl (or_introl eq_refl) eq_refl)
    as (s1 & s2 & H1 & H2 & _ & _ & _ & Ha & Hs & Hau & _ & _ & Hnext).
  destruct (Hnext ltac:(discriminate)) as (s3 & H3 & He3).
  vm_compute in H1. injection H1 as <-. vm_compute in H2. injection H2 as <-.
  match type of H3 with step ?x _ = _ => exists x, s3 end.
  split; [vm_compute; reflexivity |].
  split; [exact Ha |]. split; [exact Hs |]. split; [exact Hau |].
  split; [exact H3 | exact He3].
Defined.

(** X2.  [login] and [register] when SecureStore refuses the refresh token: the
    function is rejected with that error and [isAuthenticated] is left
    alone, but the access token [a] stays in memory - a request made
    afterwards carries it, as the header ["Bearer " ++ a]. *)
Theorem login_store_failure (s : State) (i : nat) (resp : response) (a r : string) :
  phase_of i s = Some AwaitResponse ->
  op_of i s = Login \/ op_of i s = Register ->
  parse resp = Some (a, r) ->
  exists s2,
    run s [Respond i (Fulfilled resp); StoreSet i false] = Some s2 /\
    phase_of i s2 = Some (Done (Some (Err SecureStoreError))) /\
    isAuthenticated s2 = isAuthenticated s /\ secureStore s2 = secureStore s /\
    accessToken s2 = str a /\
    (a <> ""%string ->
     exists s3, step s2 Execute = Some s3 /\
                emitted s2 s3 =
                  [Sent (length (tasks s2)) Fetch (Some ("Bearer " ++ a)%string) false None]).
Proof.
  intros Hp Ho Hparse. pose proof (phase_of_lt _ _ _ Hp) as Hi.
  set (s1 := settle i (Ok resp) s).
  assert (settled (op_of i s) (Ok resp) = AuthSetRefreshToken a r) as Hs.
  { destruct Ho as [-> | ->]; cbn; by rewrite Hparse. }
  assert (settled_token (op_of i s) (Ok resp) (accessToken s) = str a) as Ht.
  { destruct Ho as [-> | ->]; cbn; by rewrite Hparse. }
  assert (phase_of i s1 = Some (AuthSetRefreshToken a r)) as Hp1.
  { unfold s1. by rewrite settle_phase_of, Hs. }
  assert (op_of i s1 = Login \/ op_of i s1 = Register) as Ho1.
  { unfold s1. by rewrite settle_op_of. }
  assert (i < length (tasks s1)) as Hi1 by (unfold s1; by rewrite settle_length).
  destruct (settle_same i (Ok resp) s) as (Hst & _ & Hau & _). fold s1 in Hst, Hau.
  set (s2 := set_phase i (Done (Some (Err SecureStoreError))) s1).
  assert (step s1 (StoreSet i false) = Some s2) as H2.
  { cbn [step]. rewrite Hp1. unfold on_auth_stored. cbn [setRefreshToken].
    by destruct Ho1 as [-> | ->]. }
  assert (accessToken s2 = str a) as Ha.
  { change (accessToken s2) with (accessToken s1). unfold s1. by rewrite settle_accessToken. }
  assert (step s (Respond i (Fulfilled resp)) = Some s1) as H1.
  { cbn [step]. by rewrite Hp. }
  exists s2. split; [cbn [run]; by rewrite H1, H2 |].
  split; [by apply phase_of_set_phase |].
  split; [done |]. split; [done |]. split; [done |].
  intros Hne. destruct (execute_spec s2) as (s3 & H3 & _ & _ & _ & He & _).
  exists s3. split; [done |]. rewrite He, Ha. cbn [truthy].
  by apply String.eqb_neq in Hne as ->.
Qed.

Lemma login_store_failure_witness :
  exists s2 s3,
    run (init None) [CallLogin; Respond 0 (token_pair (str "A1") (str "R1")); StoreSet 0 false]
      = Some s2 /\
    isAuthenticated s2 = false /\ secureStore s2 = None /\ accessToken s2 = str "A1" /\
    step s2 Execute = Some s3 /\
    emitted s2 s3 = [Sent 1 Fetch (Some "Bearer A1"%string) false None].
Proof.
  destruct (login_store_failure (state_after None [CallLogin]) 0
              {| status := 200;
                 data := Some {| access_token := str "A1"; refresh_token := str "R1";
                                 token_type := str "bearer" |} |} "A1" "R1"
              eq_refl (or_introl eq_refl) eq_refl)
    as (s2 & H2 & _ & Hau & Hs & Ha & Hnext).
  destruct (Hnext ltac:(discriminate)) as (s3 & H3 & He3).
  vm_compute in H2. injection H2 as <-.
  match type of H3 with step ?x _ = _ => exists x, s3 end.
  split; [vm_compute; reflexivity |].
  split; [exact Hau |]. split; [exact Hs |]. split; [exact Ha |].
  split; [exact H3 | exact He3].
Defined.

(** X3.  [login] and [register] validate the body: a 2xx response that is not
    three strings makes the function throw a [ZodError]; no token is put
    in memory or stored and [isAuthenticated] is left alone. *)
Theorem login_rejects_malformed_body (s : State) (i : nat) (resp : response) :
  phase_of i s = Some AwaitResponse ->
  op_of i s = Login \/ op_of i s = Register ->
  parse resp = None ->
  exists s1,
    step s (Respond i (Fulfilled resp)) = Some s1 /\
    phase_of i s1 = Some (Done (Some (Err ZodError))) /\
    accessToken s1 = accessToken s /\ secureStore s1 = secureStore s /\
    isAuthenticated s1 = isAuthenticated s /\
    emitted s s1 = [Returned i (Ok resp)].
Proof.
  intros Hp Ho Hparse. pose proof (phase_of_lt _ _ _ Hp) as Hi.
  exists (settle i (Ok resp) s). split; [cbn [step]; by rewrite Hp |].
  destruct (settle_same i (Ok resp) s) as (Hst & _ & Hau & _).
  rewrite settle_phase_of, settle_accessToken by done.
  split; [destruct Ho as [-> | ->]; cbn; by rewrite Hparse |].
  split; [destruct Ho as [-> | ->]; cbn; by rewrite Hparse |].
  split; [done |]. split; [done |]. apply emitted_app, settle_log.
Qed.

Lemma login_rejects_malformed_body_witness :
  exists s1,
    step (state_after None [CallLogin]) (Respond 0 (token_pair (str "A1") null)) = Some s1 /\
    phase_of 0 s1 = Some (Done (Some (Err ZodError))) /\ accessToken s1 = null.
Proof.
  destruct (login_rejects_malformed_body (state_after None [CallLogin]) 0
              {| status := 200;
                 data := Some {| access_token := str "A1"; refresh_token := null;
                                 token_type := str "bearer" |} |}
              eq_refl (or_introl eq_refl) eq_refl)
    as (s1 & H1 & Hp & Ha & _).
  exists s1. split; [exact H1 |]. split; [exact Hp | exact Ha].
Defined.

(** ** A call that has just been started *)

Lemma spawn_lookup_new o p s :
  tasks (spawn o p s) !! length (tasks s) =
  Some {| op := o; originalRequest := {| _retry := false; Authorization := None; body := None |}; ph := p |}.
Proof. simpl_fields. by apply list_lookup_middle. Qed.

Lemma spawn_lookup_old o p j s :
  j < length (tasks s) -> tasks (spawn o p s) !! j = tasks s !! j.
Proof. intros Hj. simpl_fields. by apply lookup_app_l. Qed.

Lemma phase_of_spawn_new o p s : phase_of (length (tasks s)) (spawn o p s) = Some p.
Proof. unfold phase_of. by rewrite spawn_lookup_new. Qed.

Lemma op_of_spawn_new o p s : op_of (length (tasks s)) (spawn o p s) = o.
Proof. unfold op_of. by rewrite spawn_lookup_new. Qed.

Lemma request_of_spawn_new o p s :
  request_of (length (tasks s)) (spawn o p s) = {| _retry := false; Authorization := None; body := None |}.
Proof. unfold request_of. by rewrite spawn_lookup_new. Qed.

Lemma phase_of_spawn_old o p j q s :
  phase_of j s = Some q -> phase_of j (spawn o p s) = Some q.
Proof.
  intros Hq. pose proof (phase_of_lt _ _ _ Hq) as Hj.
  unfold phase_of in *. by rewrite spawn_lookup_old.
Qed.

Lemma length_spawn o p s : length (tasks (spawn o p s)) = S (length (tasks s)).
Proof. simpl_fields. rewrite length_app. cbn. lia. Qed.

Lemma lookup_set_phase_ne j i p s : j <> i -> tasks (set_phase i p s) !! j = tasks s !! j.
Proof. intros Hne. unfold set_phase. simpl_fields. by apply list_lookup_alter_ne. Qed.

(** ** [logout] *)

(** X4.  [logout] cannot fail and tells the server nothing.  The access token
    is dropped at once; when the deletion has completed [isAuthenticated]
    is lowered, whether SecureStore deleted the refresh token or threw, and
    in the latter case the token is still stored.  The calls in flight, the
    queue and the refresh mutex are left as they are, and a request made
    afterwards carries no [Authorization] header. *)
Theorem logout_signs_out (s : State) (ok : bool) :
  exists s1 s2,
    step s CallLogout = Some s1 /\
    step s1 (StoreDelete (length (tasks s)) ok) = Some s2 /\
    accessToken s1 = null /\ isAuthenticated s1 = isAuthenticated s /\
    accessToken s2 = null /\ isAuthenticated s2 = false /\
    secureStore s2 = (if ok then None else secureStore s) /\
    phase_of (length (tasks s)) s2 = Some (Done None) /\
    emitted s s2 = [] /\
    isRefreshing s2 = isRefreshing s /\ failedQueue s2 = failedQueue s /\
    (forall j, j < length (tasks s) -> tasks s2 !! j = tasks s !! j) /\
    exists s3, step s2 Execute = Some s3 /\
               emitted s2 s3 = [Sent (length (tasks s2)) Fetch None false None].
Proof.
  set (i := length (tasks s)).
  set (s1 := spawn Logout LogoutClearAll (set_accessToken null s)).
  set (s2 := set_phase i (Done None) (setIsAuthenticated false (clearRefreshToken ok s1))).
  assert (phase_of i s1 = Some LogoutClearAll) as Hp1.
  { apply (phase_of_spawn_new Logout LogoutClearAll (set_accessToken null s)). }
  assert (i < length (tasks s1)) as Hi1 by (by apply phase_of_lt in Hp1).
  assert (tasks (clearRefreshToken ok s1) = tasks s1) as Ht by (by destruct ok).
  exists s1, s2. split; [done |].
  split; [cbn [step]; by rewrite Hp1 |].
  split; [done |]. split; [done |].
  split; [unfold s2; by destruct ok |].
  split; [done |].
  split; [unfold s2; by destruct ok |].
  split.
  { apply (phase_of_set_phase i _ (setIsAuthenticated false (clearRefreshToken ok s1))).
    simpl_fields. by rewrite Ht. }
  split; [unfold emitted, s2; destruct ok; simpl_fields; by rewrite drop_all |].
  split; [unfold s2; by destruct ok |].
  split; [unfold s2; by destruct ok |].
  split.
  { intros j Hj. unfold s2. rewrite lookup_set_phase_ne by (unfold i; lia).
    simpl_fields. rewrite Ht.
    by apply (spawn_lookup_old Logout LogoutClearAll j (set_accessToken null s)). }
  destruct (execute_spec s2) as (s3 & H3 & _ & _ & _ & He & _).
  exists s3. split; [done |]. rewrite He.
  assert (accessToken s2 = null) as -> by (unfold s2; by destruct ok). done.
Qed.

(** ** The interceptor and the React state of [AuthProvider] *)

Lemma same_store_session s s' : same_store s s' -> same_session s s'.
Proof. by intros (_ & _ & ? & ?). Qed.

Lemma same_session_trans s s' s'' :
  same_session s s' -> same_session s' s'' -> same_session s s''.
Proof. intros [? ?] [? ?]. split; congruence. Qed.

Lemma refresh_catch_session i e s : same_session s (refresh_catch i e s).
Proof.
  unfold refresh_catch.
  apply (same_store_session s (processQueue (Some e) null s)), processQueue_same.
Qed.

Lemma on_rejected_session i r s : same_session s (on_rejected i r s).
Proof.
  unfold on_rejected. destruct (negb (is401 r) || _retry (request_of i s)); [| done].
  apply same_store_session, settle_same.
Qed.

Lemma on_refreshToken_session i e v s : same_session s (on_refreshToken i e v s).
Proof.
  unfold on_refreshToken.
  destruct v as [| | rt]; try apply same_store_session, settle_same.
  destruct (negb (truthy (str rt))); [apply same_store_session, settle_same |].
  by destruct (isRefreshing s).
Qed.

Lemma on_refresh_reply_session i rt r s : same_session s (on_refresh_reply i rt r s).
Proof.
  unfold on_refresh_reply. destruct r as [resp | resp]; [| apply refresh_catch_session].
  destruct (data resp); [done | apply refresh_catch_session].
Qed.

Lemma on_refresh_stored_session i a r ok s : same_session s (on_refresh_stored i a r ok s).
Proof.
  unfold on_refresh_stored.
  destruct (setRefreshToken r ok s) as [s0 |] eqn:E; [| apply refresh_catch_session].
  assert (same_session s s0) as H0.
  { unfold setRefreshToken in E. destruct r; try done. destruct ok; [| done].
    by injection E as <-. }
  eapply same_session_trans; [exact H0 |].
  set (s1 := set_request i _ s0).
  apply (same_store_session s1 (processQueue None a s1)), processQueue_same.
Qed.

Lemma on_refresh_cleared_session i e ok s : same_session s (on_refresh_cleared i e ok s).
Proof.
  unfold on_refresh_cleared.
  eapply same_session_trans; [| apply same_store_session, settle_same].
  by destruct ok.
Qed.

Lemma on_mount_token_session i v s :
  isAuthenticated (on_mount_token i v s) = isAuthenticated s.
Proof. unfold on_mount_token. by destruct (truthy v). Qed.

(** X5.  [isAuthenticated] changes in two places only: it is raised when
    [login], [register] or the mount effect has stored the refresh token of
    its response, and lowered when the deletion of [logout] has completed.
    No step of the interceptors changes it, whatever becomes of the
    tokens. *)
Theorem session_flag_changes (s : State) (ev : event) (s' : State) :
  step s ev = Some s' ->
  isAuthenticated s' = isAuthenticated s \/
  (exists i a r, ev = StoreSet i true /\ phase_of i s = Some (AuthSetRefreshToken a r) /\
                 isAuthenticated s' = true /\ secureStore s' = Some r) \/
  (exists i ok, ev = StoreDelete i ok /\ phase_of i s = Some LogoutClearAll /\
                isAuthenticated s' = false).
Proof.
  intros Hstep. destruct ev as [| | | | | i r | i r | i ok | i ok | i ok]; cbn [step] in Hstep;
    try (injection Hstep as <-; by left).
  - destruct (phase_of i s) as [[] |]; try done. destruct r as [resp | resp];
      injection Hstep as <-; left.
    + apply settle_same.
    + apply on_rejected_session.
  - destruct (phase_of i s) as [[] |]; try done. injection Hstep as <-. left.
    apply on_refresh_reply_session.
  - destruct (phase_of i s) as [[] |]; try done; injection Hstep as <-; left.
    + apply on_refreshToken_session.
    + apply on_mount_token_session.
  - destruct (phase_of i s) as [[| | | | | | | a r | | |] |] eqn:Hp; try done;
      injection Hstep as <-.
    + left. apply on_refresh_stored_session.
    + unfold on_auth_stored, setRefreshToken. destruct ok.
      * right. left. exists i, a, r. split; [done |]. split; [done |].
        change (op_of i (setIsAuthenticated true (set_secureStore (Some r) s)))
          with (op_of i s).
        by destruct (op_of i s).
      * left. by destruct (op_of i s).
  - destruct (phase_of i s) as [[] |] eqn:Hp; try done; injection Hstep as <-.
    + left. apply on_refresh_cleared_session.
    + left. by destruct ok.
    + right. right. by exists i, ok.
Qed.

Lemma session_flag_changes_witness :
  isAuthenticated (state_after None three_calls_renewing) = true /\
  exists s',
    step (state_after None three_calls_renewing) (RefreshRespond 1 unauthorized) = Some s' /\
    isAuthenticated s' = true.
Proof.
  split; [reflexivity |]. eexists. split; [vm_compute; reflexivity |].
  destruct (session_flag_changes (state_after None three_calls_renewing)
              (RefreshRespond 1 unauthorized) _ ltac:(vm_compute; reflexivity))
    as [H | [(i & a & r & [=] & _) | (i & ok & [=] & _)]].
  exact H.
Defined.

(** X6.  [logout] does not stop a renewal in flight: when the refresh POST of
    call [i] is on the wire while the user signs out, its response is
    handled as ever - the new access token is put in memory and the new
    refresh token is stored - so the tokens of a session are back although
    [isAuthenticated] is lowered. *)
Theorem logout_during_renewal (s : State) (i : nat) (rt : string) (resp : response)
    (d : fields) (r : string) (ok : bool) :
  phase_of i s = Some (AwaitRefreshPost rt) ->
  data resp = Some d -> refresh_token d = str r ->
  exists s',
    run s [CallLogout; StoreDelete (length (tasks s)) ok;
           RefreshRespond i (Fulfilled resp); StoreSet i true] = Some s' /\
    isAuthenticated s' = false /\
    accessToken s' = access_token d /\ secureStore s' = Some r.
Proof.
  intros Hp Hd Hr. pose proof (phase_of_lt _ _ _ Hp) as Hi.
  set (j := length (tasks s)).
  set (s1 := spawn Logout LogoutClearAll (set_accessToken null s)).
  set (s2 := set_phase j (Done None) (setIsAuthenticated false (clearRefreshToken ok s1))).
  assert (phase_of j s1 = Some LogoutClearAll) as Hp1.
  { apply (phase_of_spawn_new Logout LogoutClearAll (set_accessToken null s)). }
  assert (step s1 (StoreDelete j ok) = Some s2) as H2 by (cbn [step]; by rewrite Hp1).
  assert (phase_of i s2 = Some (AwaitRefreshPost rt)) as Hp2.
  { unfold s2. rewrite phase_of_set_phase_ne by (unfold j; lia).
    assert (phase_of i s1 = Some (AwaitRefreshPost rt)) as Hp1'.
    { by apply (phase_of_spawn_old Logout LogoutClearAll i _ (set_accessToken null s)). }
    by destruct ok. }
  pose proof (refresh_ok_spec s2 i rt resp d Hp2 Hd) as H3. rewrite Hr in H3.
  set (s3 := set_phase i (AwaitSetRefreshToken rt (access_token d) (str r))
               (setAccessToken (access_token d) s2)) in H3.
  assert (phase_of i s3 = Some (AwaitSetRefreshToken rt (access_token d) (str r))) as Hp3.
  { apply (phase_of_set_phase i _ (setAccessToken (access_token d) s2)).
    by apply phase_of_lt in Hp2. }
  destruct (stored_spec s3 i rt (access_token d) r Hp3) as (s4 & H4 & Hst & Ha & _).
  assert (step s CallLogout = Some s1) as H1 by done.
  exists s4. split; [cbn [run]; by rewrite H1, H2, H3, H4 |].
  split; [| by split].
  assert (s4 = on_refresh_stored i (access_token d) (str r) true s3) as ->.
  { cbn [step] in H4. rewrite Hp3 in H4. by injection H4 as <-. }
  destruct (on_refresh_stored_session i (access_token d) (str r) true s3) as [-> _].
  done.
Qed.

Lemma logout_during_renewal_witness :
  exists s',
    run (state_after (Some "R1"%string) one_call_renewing)
      [CallLogout; StoreDelete 1 true; RefreshRespond 0 (token_pair (str "A2") (str "R2"));
       StoreSet 0 true] = Some s' /\
    isAuthenticated s' = false /\ accessToken s' = str "A2" /\
    secureStore s' = Some "R2"%string.
Proof.
  exact (logout_during_renewal (state_after (Some "R1"%string) one_call_renewing) 0 "R1"
           {| status := 200;
              data := Some {| access_token := str "A2"; refresh_token := str "R2";
                              token_type := str "bearer" |} |}
           {| access_token := str "A2"; refresh_token := str "R2"; token_type := str "bearer" |}
           "R2" true ltac:(vm_compute; reflexivity) eq_refl eq_refl).
Defined.

(** ** The mount effect of [AuthProvider] *)

Lemma apiClient_op_of j i s : op_of j (apiClient i s) = op_of j s.
Proof. apply (op_of_upd (fun _ _ => True)). by apply apiClient_tasks. Qed.

Lemma apiClient_length i s : length (tasks (apiClient i s)) = length (tasks s).
Proof. apply (upd_length (fun _ _ => True)). by apply apiClient_tasks. Qed.

(** The request of a call that has just been started leaves with the
    access token in memory, if there is one. *)
Lemma apiClient_spawn o p s :
  let i := length (tasks s) in
  let s1 := apiClient i (spawn o p s) in
  phase_of i s1 = Some AwaitResponse /\ op_of i s1 = o /\
  _retry (request_of i s1) = false /\
  log s1 = log s ++ [Sent i o (if truthy (accessToken s) then Some (Bearer (accessToken s))
                               else None) false None] /\
  accessToken s1 = accessToken s /\ same_store s s1 /\ failedQueue s1 = failedQueue s /\
  length (tasks s1) = S (length (tasks s)).
Proof.
  intros i s1. set (s0 := spawn o p s).
  assert (i < length (tasks s0)) as Hi by (unfold s0; rewrite length_spawn; unfold i; lia).
  repeat split; try done.
  - by apply apiClient_phase.
  - unfold s1. rewrite apiClient_op_of. apply op_of_spawn_new.
  - unfold s1. rewrite apiClient_retry. unfold s0, i. by rewrite request_of_spawn_new.
  - unfold s1. rewrite apiClient_log. unfold s0, i.
    rewrite op_of_spawn_new, request_of_spawn_new. unfold request_interceptor.
    change (accessToken (spawn o p s)) with (accessToken s).
    by destruct (truthy (accessToken s)).
  - unfold s1. rewrite apiClient_length. apply length_spawn.
Qed.

(** X7.  With nothing to read from the secure store - no item, an empty string,
    or SecureStore throwing - the mount effect sends nothing and touches
    nothing; it only lowers [isLoading]. *)
Theorem mount_without_token (s : State) (ok : bool) :
  truthy (getRefreshToken ok s) = false ->
  exists s',
    run s [Mount; StoreGet (length (tasks s)) ok] = Some s' /\
    isLoading s' = false /\ emitted s s' = [] /\
    phase_of (length (tasks s)) s' = Some (Done None) /\
    isAuthenticated s' = isAuthenticated s /\
    accessToken s' = accessToken s /\ secureStore s' = secureStore s.
Proof.
  intros Ht. set (j := length (tasks s)).
  set (s1 := spawn SilentRefresh MountGetRefreshToken s).
  set (s2 := set_phase j (Done None) (setIsLoading false s1)).
  assert (phase_of j s1 = Some MountGetRefreshToken) as Hp1 by apply phase_of_spawn_new.
  assert (step s1 (StoreGet j ok) = Some s2) as H2.
  { cbn [step]. rewrite Hp1. unfold on_mount_token.
    change (getRefreshToken ok s1) with (getRefreshToken ok s). by rewrite Ht. }
  assert (step s Mount = Some s1) as H1 by done.
  exists s2. split; [cbn [run]; by rewrite H1, H2 |].
  split; [done |].
  split; [unfold emitted, s2; simpl_fields; by rewrite drop_all |].
  split; [| done].
  apply (phase_of_set_phase j _ (setIsLoading false s1)). by apply phase_of_lt in Hp1.
Qed.

Lemma mount_without_token_witness :
  exists s',
    run (init None) [Mount; StoreGet 0 true] = Some s' /\
    isLoading s' = false /\ emitted (init None) s' = [].
Proof.
  destruct (mount_without_token (init None) true eq_refl) as (s' & H & Hl & He & _).
  exists s'. split; [exact H |]. split; [exact Hl | exact He].
Defined.

(** The request of the mount effect leaves with the access token in
    memory, if there is one, and carries the token read from the store. *)
Lemma mount_request s rt :
  let i := length (tasks s) in
  let s1 := apiClient i (set_request i {| _retry := false; Authorization := None;
                                          body := Some (str rt) |}
                           (spawn SilentRefresh MountGetRefreshToken s)) in
  phase_of i s1 = Some AwaitResponse /\ op_of i s1 = SilentRefresh /\
  _retry (request_of i s1) = false /\
  log s1 = log s ++ [Sent i SilentRefresh
                       (if truthy (accessToken s) then Some (Bearer (accessToken s)) else None)
                       false (Some (str rt))] /\
  accessToken s1 = accessToken s /\ same_store s s1 /\ failedQueue s1 = failedQueue s /\
  length (tasks s1) = S (length (tasks s)).
Proof.
  intros i s1. set (c := {| _retry := false; Authorization := None; body := Some (str rt) |}).
  set (s0 := set_request i c (spawn SilentRefresh MountGetRefreshToken s)).
  assert (i < length (tasks (spawn SilentRefresh MountGetRefreshToken s))) as Hi'.
  { rewrite length_spawn. unfold i. lia. }
  assert (i < length (tasks s0)) as Hi.
  { unfold s0. simpl_fields. by rewrite length_alter. }
  assert (request_of i s0 = c) as Hreq by (by apply request_of_set_request).
  assert (op_of i s0 = SilentRefresh) as Hop.
  { unfold s0. rewrite op_of_set_request. apply op_of_spawn_new. }
  repeat split; try done.
  - by apply apiClient_phase.
  - unfold s1. fold c. fold s0. by rewrite apiClient_op_of.
  - unfold s1. fold c. fold s0. by rewrite apiClient_retry, Hreq.
  - unfold s1. fold c. fold s0. rewrite apiClient_log, Hop, Hreq.
    unfold request_interceptor.
    change (accessToken s0) with (accessToken s). by destruct (truthy (accessToken s)).
  - unfold s1. fold c. fold s0. rewrite apiClient_length. unfold s0. simpl_fields.
    rewrite length_alter, length_app. cbn. lia.
Qed.

Lemma mount_sends s rt :
  secureStore s = Some rt -> rt <> ""%string ->
  let j := length (tasks s) in
  let s2 := apiClient j (set_request j {| _retry := false; Authorization := None;
                                          body := Some (str rt) |}
                           (spawn SilentRefresh MountGetRefreshToken s)) in
  run s [Mount; StoreGet j true] = Some s2.
Proof.
  intros Hst Hrt j s2. set (s1 := spawn SilentRefresh MountGetRefreshToken s).
  assert (phase_of j s1 = Some MountGetRefreshToken) as Hp1 by apply phase_of_spawn_new.
  assert (step s Mount = Some s1) as H1 by done.
  cbn [run]. rewrite H1. cbn [step]. rewrite Hp1. unfold on_mount_token, getRefreshToken.
  change (secureStore s1) with (secureStore s). rewrite Hst. cbn [truthy].
  by apply String.eqb_neq in Hrt as ->.
Qed.

Lemma run_app s tr1 tr2 s1 :
  run s tr1 = Some s1 -> run s (tr1 ++ tr2) = run s1 tr2.
Proof.
  revert s. induction tr1 as [| ev tr1 IH]; intros s; cbn.
  - by intros [= ->].
  - destruct (step s ev); [apply IH | done].
Qed.

(** X8.  The silent refresh: with a refresh token stored, the mount effect sends
    one request; on a well-formed response it puts the access token in
    memory, stores the refresh token of the response, raises
    [isAuthenticated] and lowers [isLoading]. *)
Theorem mount_signs_in (s : State) (rt : string) (resp : response) (a r : string) :
  secureStore s = Some rt -> rt <> ""%string ->
  parse resp = Some (a, r) ->
  exists s',
    run s [Mount; StoreGet (length (tasks s)) true;
           Respond (length (tasks s)) (Fulfilled resp);
           StoreSet (length (tasks s)) true] = Some s' /\
    emitted s s' =
      [Sent (length (tasks s)) SilentRefresh
         (if truthy (accessToken s) then Some (Bearer (accessToken s)) else None) false
         (Some (str rt));
       Returned (length (tasks s)) (Ok resp)] /\
    accessToken s' = str a /\ secureStore s' = Some r /\
    isAuthenticated s' = true /\ isLoading s' = false /\
    phase_of (length (tasks s)) s' = Some (Done None).
Proof.
  intros Hst Hrt Hparse. set (j := length (tasks s)).
  pose proof (mount_sends s rt Hst Hrt) as H12. cbv zeta in H12. fold j in H12.
  destruct (mount_request s rt)
    as (Hp2 & Ho2 & _ & Hl2 & _ & _ & _ & Hlen2).
  fold j in Hp2, Ho2, Hl2, Hlen2.
  set (s2 := apiClient j (set_request j _ (spawn SilentRefresh MountGetRefreshToken s))) in *.
  assert (j < length (tasks s2)) as Hj2 by lia.
  set (s3 := settle j (Ok resp) s2).
  assert (step s2 (Respond j (Fulfilled resp)) = Some s3) as H3.
  { cbn [step]. by rewrite Hp2. }
  assert (phase_of j s3 = Some (AuthSetRefreshToken a r)) as Hp3.
  { unfold s3. rewrite settle_phase_of, Ho2 by done. cbn. by rewrite Hparse. }
  assert (op_of j s3 = SilentRefresh) as Ho3 by (unfold s3; by rewrite settle_op_of).
  assert (accessToken s3 = str a) as Ha3.
  { unfold s3. rewrite settle_accessToken, Ho2. cbn. by rewrite Hparse. }
  set (s4 := set_phase j (Done None)
               (setIsLoading false (setIsAuthenticated true (set_secureStore (Some r) s3)))).
  assert (step s3 (StoreSet j true) = Some s4) as H4.
  { cbn [step]. rewrite Hp3. unfold on_auth_stored. cbn [setRefreshToken].
    change (op_of j (setIsAuthenticated true (set_secureStore (Some r) s3))) with (op_of j s3).
    by rewrite Ho3. }
  exists s4. split.
  { change (run s ([Mount; StoreGet j true] ++
                   [Respond j (Fulfilled resp); StoreSet j true]) = Some s4).
    rewrite (run_app _ _ _ _ H12). cbn [run]. by rewrite H3, H4. }
  split.
  { apply emitted_app. change (log s4) with (log s3). unfold s3.
    rewrite settle_log, Hl2, <- app_assoc. done. }
  split; [done |]. split; [done |]. split; [done |]. split; [done |].
  apply (phase_of_set_phase j _
           (setIsLoading false (setIsAuthenticated true (set_secureStore (Some r) s3)))).
  simpl_fields. unfold s3. by rewrite settle_length.
Qed.

Lemma mount_signs_in_witness :
  exists s',
    run (init (Some "R1"%string))
      [Mount; StoreGet 0 true; Respond 0 (token_pair (str "A2") (str "R2")); StoreSet 0 true]
      = Some s' /\
    accessToken s' = str "A2" /\ secureStore s' = Some "R2"%string /\
    isAuthenticated s' = true /\ isLoading s' = false.
Proof.
  destruct (mount_signs_in (init (Some "R1"%string)) "R1"
              {| status := 200;
                 data := Some {| access_token := str "A2"; refresh_token := str "R2";
                                 token_type := str "bearer" |} |} "A2" "R2"
              eq_refl ltac:(discriminate) eq_refl)
    as (s' & H & _ & Ha & Hs & Hau & Hl & _).
  exists s'. split; [exact H |]. by repeat split.
Defined.

(** X9.  The mount effect clears what it finds when the silent refresh fails
    for any reason other than a 401 - a transport failure with the device
    offline, a server error: the access token is dropped and deletion of
    the stored refresh token is attempted (it is gone unless SecureStore
    throws); [isLoading] is lowered and [isAuthenticated] left alone. *)
Theorem mount_failure_clears (s : State) (rt : string) (r : option response) (ok : bool) :
  secureStore s = Some rt -> rt <> ""%string ->
  is401 r = false ->
  exists s',
    run s [Mount; StoreGet (length (tasks s)) true;
           Respond (length (tasks s)) (Failed r);
           StoreDelete (length (tasks s)) ok] = Some s' /\
    emitted s s' =
      [Sent (length (tasks s)) SilentRefresh
         (if truthy (accessToken s) then Some (Bearer (accessToken s)) else None) false
         (Some (str rt));
       Returned (length (tasks s)) (Err (AxiosError (ApiCall (length (tasks s))) r))] /\
    accessToken s' = null /\
    secureStore s' = (if ok then None else Some rt) /\
    isLoading s' = false /\ isAuthenticated s' = isAuthenticated s /\
    phase_of (length (tasks s)) s' = Some (Done None).
Proof.
  intros Hst Hrt H401. set (j := length (tasks s)).
  pose proof (mount_sends s rt Hst Hrt) as H12. cbv zeta in H12. fold j in H12.
  destruct (mount_request s rt)
    as (Hp2 & Ho2 & _ & Hl2 & _ & (Hst2 & _ & Hau2 & _) & _ & Hlen2).
  fold j in Hp2, Ho2, Hl2, Hlen2, Hst2, Hau2.
  set (s2 := apiClient j (set_request j _ (spawn SilentRefresh MountGetRefreshToken s))) in *.
  assert (j < length (tasks s2)) as Hj2 by lia.
  set (e := AxiosError (ApiCall j) r).
  set (s3 := settle j (Err e) s2).
  assert (step s2 (Respond j (Failed r)) = Some s3) as H3.
  { cbn [step]. rewrite Hp2. unfold on_rejected. by rewrite H401. }
  assert (phase_of j s3 = Some MountClearAll) as Hp3.
  { unfold s3. by rewrite settle_phase_of, Ho2. }
  assert (accessToken s3 = null) as Ha3.
  { unfold s3. by rewrite settle_accessToken, Ho2. }
  destruct (settle_same j (Err e) s2) as (Hst3 & _ & Hau3 & _). fold s3 in Hst3, Hau3.
  set (s4 := set_phase j (Done None) (setIsLoading false (clearRefreshToken ok s3))).
  assert (step s3 (StoreDelete j ok) = Some s4) as H4.
  { cbn [step]. by rewrite Hp3. }
  exists s4. split.
  { change (run s ([Mount; StoreGet j true] ++
                   [Respond j (Failed r); StoreDelete j ok]) = Some s4).
    rewrite (run_app _ _ _ _ H12). cbn [run]. by rewrite H3, H4. }
  split.
  { apply emitted_app. transitivity (log s3); [unfold s4; by destruct ok |].
    unfold s3. rewrite settle_log, Hl2, <- app_assoc. done. }
  split; [unfold s4; by destruct ok |].
  split; [unfold s4; destruct ok; simpl_fields; cbn [clearRefreshToken];
          [done | congruence] |].
  split; [done |].
  split; [unfold s4; destruct ok; simpl_fields; cbn [clearRefreshToken]; simpl_fields;
          congruence |].
  apply (phase_of_set_phase j _ (setIsLoading false (clearRefreshToken ok s3))).
  assert (tasks (clearRefreshToken ok s3) = tasks s3) as Et by (by destruct ok).
  simpl_fields. rewrite Et. unfold s3. by rewrite settle_length.
Qed.

Lemma mount_failure_clears_witness :
  exists s',
    run (init (Some "R1"%string))
      [Mount; StoreGet 0 true; Respond 0 (Failed None); StoreDelete 0 true] = Some s' /\
    secureStore s' = None /\ isLoading s' = false.
Proof.
  destruct (mount_failure_clears (init (Some "R1"%string)) "R1" None true
              eq_refl ltac:(discriminate) eq_refl)
    as (s' & H & _ & _ & Hs & Hl & _).
  exists s'. split; [exact H |]. split; [exact Hs | exact Hl].
Defined.

(** X10.  At start-up a stored refresh token that the server rejects with 401 is
    submitted a second time: the silent refresh goes through [apiClient],
    so its 401 reaches the response interceptor, which reads the same
    stored token and sends its own refresh POST.  When that one fails too,
    the interceptor clears the tokens and then the mount effect clears
    them again; [isLoading] is lowered at the end. *)
Theorem mount_rejected_token_resubmitted (s : State) (rt : string)
    (r r' : option response) (ok1 ok2 : bool) :
  secureStore s = Some rt -> rt <> ""%string ->
  isRefreshing s = false -> failedQueue s = [] ->
  is401 r = true ->
  exists s',
    run s [Mount; StoreGet (length (tasks s)) true;
           Respond (length (tasks s)) (Failed r);
           StoreGet (length (tasks s)) true;
           RefreshRespond (length (tasks s)) (Failed r');
           StoreDelete (length (tasks s)) ok1;
           StoreDelete (length (tasks s)) ok2] = Some s' /\
    emitted s s' =
      [Sent (length (tasks s)) SilentRefresh
         (if truthy (accessToken s) then Some (Bearer (accessToken s)) else None) false
         (Some (str rt));
       RefreshPost (length (tasks s)) rt;
       Returned (length (tasks s)) (Err (AxiosError (RefreshCall (length (tasks s))) r'))] /\
    accessToken s' = null /\
    secureStore s' = (if ok1 || ok2 then None else Some rt) /\
    isLoading s' = false /\ isAuthenticated s' = isAuthenticated s /\
    isRefreshing s' = false /\
    phase_of (length (tasks s)) s' = Some (Done None).
Proof.
  intros Hst Hrt Hr Hq H401. set (j := length (tasks s)).
  pose proof (mount_sends s rt Hst Hrt) as H12. cbv zeta in H12. fold j in H12.
  destruct (mount_request s rt)
    as (Hp2 & Ho2 & Hre2 & Hl2 & _ & (Hst2 & Hr2 & Hau2 & _) & Hq2 & Hlen2).
  fold j in Hp2, Ho2, Hre2, Hl2, Hlen2, Hst2, Hr2, Hau2, Hq2.
  set (s2 := apiClient j (set_request j _ (spawn SilentRefresh MountGetRefreshToken s))) in *.
  assert (j < length (tasks s2)) as Hj2 by lia.
  (* the 401 of the silent refresh *)
  set (e := AxiosError (ApiCall j) r).
  set (s3 := set_phase j (AwaitGetRefreshToken e) s2).
  assert (step s2 (Respond j (Failed r)) = Some s3) as H3 by (by apply respond_401_spec).
  assert (phase_of j s3 = Some (AwaitGetRefreshToken e)) as Hp3 by (by apply phase_of_set_phase).
  (* the refresh POST of the interceptor *)
  set (s4 := emit (RefreshPost j rt)
               (set_phase j (AwaitRefreshPost rt)
                  (set_isRefreshing true
                     (set_request j {| _retry := true;
                                       Authorization := Authorization (request_of j s3);
                                       body := body (request_of j s3) |} s3)))).
  assert (step s3 (StoreGet j true) = Some s4) as H4.
  { apply (initiator_spec s3 j e rt Hp3); [| | done].
    - change (isRefreshing s3) with (isRefreshing s2). congruence.
    - change (secureStore s3) with (secureStore s2). congruence. }
  assert (length (tasks s4) = length (tasks s2)) as Hlen4.
  { unfold s4, s3. simpl_fields. by rewrite !length_alter. }
  assert (phase_of j s4 = Some (AwaitRefreshPost rt)) as Hp4.
  { apply (phase_of_set_phase j _ (set_isRefreshing true (set_request j _ s3))).
    unfold s3. simpl_fields. by rewrite !length_alter. }
  assert (op_of j s4 = SilentRefresh) as Ho4.
  { rewrite <- Ho2. unfold s4.
    change (op_of j (emit ?o ?x)) with (op_of j x). rewrite op_of_set_phase.
    change (op_of j (set_isRefreshing true ?x)) with (op_of j x).
    rewrite op_of_set_request. apply op_of_set_phase. }
  (* it fails *)
  set (e' := AxiosError (RefreshCall j) r').
  set (s5 := set_phase j (AwaitClearRefreshToken e') (clearAccessToken (set_failedQueue [] s4))).
  assert (step s4 (RefreshRespond j (Failed r')) = Some s5) as H5.
  { cbn [step]. rewrite Hp4. unfold on_refresh_reply, refresh_catch.
    rewrite processQueue_unfold.
    assert (failedQueue s4 = []) as -> by (change (failedQueue s4) with (failedQueue s2);
                                            congruence).
    done. }
  assert (phase_of j s5 = Some (AwaitClearRefreshToken e')) as Hp5.
  { apply (phase_of_set_phase j _ (clearAccessToken (set_failedQueue [] s4))).
    simpl_fields. lia. }
  assert (op_of j s5 = SilentRefresh) as Ho5.
  { unfold s5. by rewrite op_of_set_phase. }
  set (s5' := set_isRefreshing false (clearRefreshToken ok1 s5)).
  set (s6 := settle j (Err e') s5').
  assert (step s5 (StoreDelete j ok1) = Some s6) as H6.
  { cbn [step]. by rewrite Hp5. }
  assert (tasks s5' = tasks s5) as Et5 by (unfold s5'; by destruct ok1).
  assert (op_of j s5' = SilentRefresh) as Ho5'.
  { unfold op_of in *. by rewrite Et5. }
  assert (phase_of j s6 = Some MountClearAll) as Hp6.
  { unfold s6. rewrite settle_phase_of, Ho5'; [done |].
    rewrite Et5. unfold s5. rewrite length_set_phase. simpl_fields. lia. }
  destruct (settle_same j (Err e') s5') as (Hst6 & Hr6 & Hau6 & _).
  fold s6 in Hst6, Hr6, Hau6.
  set (s7 := set_phase j (Done None) (setIsLoading false (clearRefreshToken ok2 s6))).
  assert (step s6 (StoreDelete j ok2) = Some s7) as H7.
  { cbn [step]. by rewrite Hp6. }
  assert (tasks (clearRefreshToken ok2 s6) = tasks s6) as Et6 by (by destruct ok2).
  exists s7. split.
  { change (run s ([Mount; StoreGet j true] ++
                   [Respond j (Failed r); StoreGet j true; RefreshRespond j (Failed r');
                    StoreDelete j ok1; StoreDelete j ok2]) = Some s7).
    rewrite (run_app _ _ _ _ H12). cbn [run]. by rewrite H3, H4, H5, H6, H7. }
  split.
  { apply emitted_app. transitivity (log s6); [unfold s7; by destruct ok2 |].
    unfold s6. rewrite settle_log.
    assert (log s5' = log s2 ++ [RefreshPost j rt]) as -> by (unfold s5'; by destruct ok1).
    rewrite Hl2, <- !app_assoc. done. }
  split.
  { transitivity (accessToken s6); [unfold s7; by destruct ok2 |].
    unfold s6. by rewrite settle_accessToken, Ho5'. }
  split.
  { assert (secureStore s5 = Some rt) as Hst5.
    { change (secureStore s5) with (secureStore s2). congruence. }
    assert (secureStore s6 = if ok1 then None else Some rt) as Hst6'.
    { rewrite Hst6. unfold s5'. by destruct ok1. }
    unfold s7. destruct ok2; simpl_fields; cbn [clearRefreshToken]; simpl_fields.
    - by rewrite orb_true_r.
    - by rewrite Hst6', orb_false_r. }
  split; [done |].
  split.
  { transitivity (isAuthenticated s6); [unfold s7; by destruct ok2 |].
    rewrite Hau6. transitivity (isAuthenticated s2); [unfold s5'; by destruct ok1 | done]. }
  split.
  { transitivity (isRefreshing s6); [unfold s7; by destruct ok2 |]. by rewrite Hr6. }
  apply (phase_of_set_phase j _ (setIsLoading false (clearRefreshToken ok2 s6))).
  simpl_fields. rewrite Et6. by apply phase_of_lt in Hp6.
Qed.

Lemma mount_rejected_token_resubmitted_witness :
  exists s',
    run (init (Some "R1"%string))
      [Mount; StoreGet 0 true; Respond 0 unauthorized; StoreGet 0 true;
       RefreshRespond 0 unauthorized; StoreDelete 0 true; StoreDelete 0 true] = Some s' /\
    emitted (init (Some "R1"%string)) s' =
      [Sent 0 SilentRefresh None false (Some (str "R1")); RefreshPost 0 "R1";
       Returned 0 (Err (AxiosError (RefreshCall 0) (Some {| status := 401; data := None |})))] /\
    secureStore s' = None /\ isLoading s' = false.
Proof.
  destruct (mount_rejected_token_resubmitted (init (Some "R1"%string)) "R1"
              (Some {| status := 401; data := None |})
              (Some {| status := 401; data := None |}) true true
              eq_refl ltac:(discriminate) eq_refl eq_refl eq_refl)
    as (s' & H & He & _ & Hs & Hl & _).
  exists s'. split; [exact H |]. split; [exact He |]. split; [exact Hs | exact Hl].
Defined.

(** X25.  A start-up refresh that the interceptor sends again submits the
    token it was first sent with.  The request of the mount effect is on
    the wire with the refresh token [R1]; it gets a 401, so the interceptor
    renews with the token the store holds now, [Rs] ([R1], or a newer one
    that another call has stored in the meantime), stores the new pair and,
    at line 83, sends the request of the mount effect again as it is:
    marked, with the new access token as its header, and still with [R1]
    in its body although the store holds [Rn].  When that request fails,
    the mark makes the failure final; the mount effect takes it as a failed
    silent refresh and clears both tokens, those of the renewal that has
    just succeeded. *)
Theorem silent_refresh_sent_again (s : State) (j : nat) (R1 Rs A Rn : string)
    (r : option response) :
  phase_of j s = Some AwaitResponse -> op_of j s = SilentRefresh ->
  _retry (request_of j s) = false -> body (request_of j s) = Some (str R1) ->
  secureStore s = Some Rs -> Rs <> ""%string ->
  isRefreshing s = false -> failedQueue s = [] ->
  is401 r = true ->
  exists s1,
    run s [Respond j (Failed r); StoreGet j true;
           RefreshRespond j (token_pair (str A) (str Rn)); StoreSet j true] = Some s1 /\
    emitted s s1 =
      [RefreshPost j Rs;
       Sent j SilentRefresh (Some ("Bearer " ++ A)%string) true (Some (str R1))] /\
    accessToken s1 = str A /\ secureStore s1 = Some Rn /\
    forall (r' : option response) (ok : bool),
    exists s',
      run s1 [Respond j (Failed r'); StoreDelete j ok] = Some s' /\
      emitted s1 s' = [Returned j (Err (AxiosError (ApiCall j) r'))] /\
      accessToken s' = null /\
      secureStore s' = (if ok then None else Some Rn) /\
      isAuthenticated s' = isAuthenticated s /\ isLoading s' = false /\
      phase_of j s' = Some (Done None).
Proof.
  intros Hp Ho Hre Hbo Hst Hrs Hr Hq H401.
  pose proof (phase_of_lt _ _ _ Hp) as Hj.
  (* the 401 of the silent refresh *)
  set (e := AxiosError (ApiCall j) r).
  set (s1 := set_phase j (AwaitGetRefreshToken e) s).
  assert (step s (Respond j (Failed r)) = Some s1) as H1 by (by apply respond_401_spec).
  assert (phase_of j s1 = Some (AwaitGetRefreshToken e)) as Hp1 by (by apply phase_of_set_phase).
  (* the refresh POST of the interceptor *)
  pose proof (initiator_spec s1 j e Rs Hp1 Hr Hst Hrs) as H2.
  set (s2 := emit (RefreshPost j Rs) _) in H2.
  assert (length (tasks s2) = length (tasks s)) as Hlen2.
  { unfold s2, s1. simpl_fields. by rewrite !length_alter. }
  assert (phase_of j s2 = Some (AwaitRefreshPost Rs)) as Hp2.
  { apply (phase_of_set_phase j _ (set_isRefreshing true (set_request j _ s1))).
    unfold s1. simpl_fields. by rewrite !length_alter. }
  assert (op_of j s2 = SilentRefresh) as Ho2.
  { rewrite <- Ho. unfold s2.
    change (op_of j (emit ?o ?x)) with (op_of j x). rewrite op_of_set_phase.
    change (op_of j (set_isRefreshing true ?x)) with (op_of j x).
    rewrite op_of_set_request. apply op_of_set_phase. }
  assert (request_of j s2 = {| _retry := true; Authorization := Authorization (request_of j s);
                               body := Some (str R1) |}) as Hreq2.
  { unfold s2. rewrite (request_of_tasks j (set_phase j (AwaitRefreshPost Rs)
                          (set_isRefreshing true (set_request j _ s1)))) by done.
    rewrite request_of_set_phase.
    rewrite (request_of_tasks j (set_request j _ s1)) by done.
    rewrite request_of_set_request by (unfold s1; by rewrite length_set_phase).
    unfold s1. rewrite request_of_set_phase. by rewrite Hbo. }
  (* the answer *)
  set (s3 := set_phase j (AwaitSetRefreshToken Rs (str A) (str Rn)) (setAccessToken (str A) s2)).
  assert (step s2 (RefreshRespond j (token_pair (str A) (str Rn))) = Some s3) as H3.
  { by apply (refresh_ok_spec s2 j Rs _ {| access_token := str A; refresh_token := str Rn;
                                           token_type := str "bearer" |}). }
  assert (phase_of j s3 = Some (AwaitSetRefreshToken Rs (str A) (str Rn))) as Hp3.
  { apply (phase_of_set_phase j _ (setAccessToken (str A) s2)).
    change (j < length (tasks s2)). lia. }
  assert (op_of j s3 = SilentRefresh) as Ho3 by (unfold s3; by rewrite op_of_set_phase).
  assert (request_of j s3 = request_of j s2) as Hreq3.
  { unfold s3. by rewrite request_of_set_phase. }
  (* the new pair is stored and the request is sent again *)
  destruct (stored_spec s3 j Rs (str A) Rn Hp3)
    as (s4 & H4 & Hst4 & Ha4 & Hr4 & Hq4 & Hp4 & Ho4 & Hre4 & Hlone & _).
  destruct Hlone as [He4 _].
  { change (failedQueue s3) with (failedQueue s). exact Hq. }
  change (accessToken s3) with (str A) in *.
  assert ((if truthy (str A) then str A else str A) = str A) as Hif
    by (by destruct (truthy (str A))).
  rewrite Hif, Ho3, Hreq3, Hreq2 in He4. cbn [_retry body] in He4.
  pose proof (step_log _ _ _ H4) as Hl4. rewrite He4 in Hl4.
  assert (same_session s s4) as Hss.
  { assert (s4 = on_refresh_stored j (str A) (str Rn) true s3) as ->.
    { cbn [step] in H4. rewrite Hp3 in H4. by injection H4 as <-. }
    eapply same_session_trans; [| apply on_refresh_stored_session]. done. }
  exists s4. split; [cbn [run]; by rewrite H1, H2, H3, H4 |].
  split.
  { apply emitted_app. rewrite Hl4.
    change (log s3) with (log s ++ [RefreshPost j Rs]). by rewrite <- app_assoc. }
  split; [exact Ha4 |]. split; [exact Hst4 |].
  intros r' ok.
  (* the stale request fails: the mark makes that final *)
  set (e' := AxiosError (ApiCall j) r').
  set (s5 := settle j (Err e') s4).
  assert (_retry (request_of j s4) = true) as Hm4.
  { by rewrite Hre4, Hreq3, Hreq2. }
  assert (step s4 (Respond j (Failed r')) = Some s5) as H5.
  { cbn [step]. rewrite Hp4. unfold on_rejected. by rewrite Hm4, orb_true_r. }
  assert (j < length (tasks s4)) as Hj4 by (by apply phase_of_lt in Hp4).
  assert (op_of j s4 = SilentRefresh) as Ho4' by (by rewrite Ho4).
  assert (phase_of j s5 = Some MountClearAll) as Hp5.
  { unfold s5. by rewrite settle_phase_of, Ho4'. }
  destruct (settle_same j (Err e') s4) as (Hst5 & _ & Hau5 & _). fold s5 in Hst5, Hau5.
  set (s6 := set_phase j (Done None) (setIsLoading false (clearRefreshToken ok s5))).
  assert (step s5 (StoreDelete j ok) = Some s6) as H6.
  { cbn [step]. by rewrite Hp5. }
  exists s6. split; [cbn [run]; by rewrite H5, H6 |].
  split.
  { apply emitted_app. transitivity (log s5); [unfold s6; by destruct ok |].
    unfold s5. by rewrite settle_log. }
  split.
  { transitivity (accessToken s5); [unfold s6; by destruct ok |].
    unfold s5. by rewrite settle_accessToken, Ho4'. }
  split.
  { unfold s6. destruct ok; simpl_fields; cbn [clearRefreshToken]; simpl_fields; [done |].
    by rewrite Hst5. }
  split.
  { transitivity (isAuthenticated s5); [unfold s6; by destruct ok |].
    rewrite Hau5. by destruct Hss. }
  split; [done |].
  apply (phase_of_set_phase j _ (setIsLoading false (clearRefreshToken ok s5))).
  simpl_fields.
  assert (tasks (clearRefreshToken ok s5) = tasks s5) as -> by (by destruct ok).
  by apply phase_of_lt in Hp5.
Qed.

Lemma silent_refresh_sent_again_witness :
  exists s1 s',
    run (state_after (Some "R1"%string)
           [Mount; StoreGet 0 true; Execute; Respond 1 unauthorized; StoreGet 1 true;
            RefreshRespond 1 (token_pair (str "A2") (str "R2")); StoreSet 1 true])
      [Respond 0 unauthorized; StoreGet 0 true;
       RefreshRespond 0 (token_pair (str "A3") (str "R3")); StoreSet 0 true] = Some s1 /\
    emitted (state_after (Some "R1"%string)
               [Mount; StoreGet 0 true; Execute; Respond 1 unauthorized; StoreGet 1 true;
                RefreshRespond 1 (token_pair (str "A2") (str "R2")); StoreSet 1 true]) s1 =
      [RefreshPost 0 "R2";
       Sent 0 SilentRefresh (Some "Bearer A3"%string) true (Some (str "R1"))] /\
    secureStore s1 = Some "R3"%string /\
    run s1 [Respond 0 unauthorized; StoreDelete 0 true] = Some s' /\
    accessToken s' = null /\ secureStore s' = None /\ isAuthenticated s' = false.
Proof.
  destruct (silent_refresh_sent_again
              (state_after (Some "R1"%string)
                 [Mount; StoreGet 0 true; Execute; Respond 1 unauthorized; StoreGet 1 true;
                  RefreshRespond 1 (token_pair (str "A2") (str "R2")); StoreSet 1 true])
              0 "R1" "R2" "A3" "R3" (Some {| status := 401; data := None |})
              ltac:(vm_compute; reflexivity) ltac:(vm_compute; reflexivity)
              ltac:(vm_compute; reflexivity) ltac:(vm_compute; reflexivity)
              ltac:(vm_compute; reflexivity) ltac:(discriminate)
              ltac:(vm_compute; reflexivity) ltac:(vm_compute; reflexivity)
              ltac:(vm_compute; reflexivity))
    as (s1 & H1 & He & _ & Hst & Hnext).
  destruct (Hnext (Some {| status := 401; data := None |}) true)
    as (s' & H2 & _ & Ha & Hs & Hau & _).
  exists s1, s'. split; [exact H1 |]. split; [exact He |]. split; [exact Hst |].
  split; [exact H2 |]. split; [exact Ha |]. split; [exact Hs | exact Hau].
Defined.

(** ** What the secure store holds *)

(** X11.  Whatever the execution, the item in the secure store is the one found
    at start or the [refresh_token] member of the body of a 2xx response
    received since: the client stores nothing else there - not the access
    token, nothing of its own making. *)
Theorem stored_token_provenance (stored : option string) (tr : list event) (s : State)
    (r : string) :
  run (init stored) tr = Some s ->
  secureStore s = Some r ->
  stored = Some r \/ Exists (fun ev => issues r ev = true) tr.
Proof.
  intros Hrun Hst.
  assert (stored = Some r \/ stored <> Some r) as [| Hne]; [| by left | right].
  { destruct stored as [x |]; [| by right].
    destruct (String.eqb_spec x r) as [-> | Hx]; [by left | right; congruence]. }
  destruct (Forall_Exists_dec (fun ev => issues r ev = false) (fun ev => issues r ev = true)
              (fun ev => match issues r ev as b return {b = false} + {b = true} with
                         | true => right eq_refl
                         | false => left eq_refl
                         end) tr) as [Hall | Hex]; [| done].
  destruct (run_never_again r tr (init stored) s) as (Hs & _); done.
Qed.

Lemma stored_token_provenance_witness :
  Some "R1"%string = Some "R2"%string \/
  Exists (fun ev => issues "R2" ev = true)
    (one_call_renewing ++
     [RefreshRespond 0 (token_pair (str "A2") (str "R2")); StoreSet 0 true]).
Proof.
  eapply (stored_token_provenance (Some "R1"%string) _ _ "R2").
  - vm_compute. reflexivity.
  - reflexivity.
Defined.

(** ** The life of a call, step by step *)

Lemma settle_upd (R : nat -> phase -> Prop) i r s :
  R i (settled (op_of i s) r) -> upd R (tasks s) (tasks (settle i r s)).
Proof. intros HR. rewrite settle_settled. by apply upd_alter_phase. Qed.

Lemma waiter_reject_upd (R : nat -> phase -> Prop) p e s :
  R p (settled (op_of p s) (Err e)) -> upd R (tasks s) (tasks (waiter_reject p e s)).
Proof. intros HR. unfold waiter_reject. by apply (settle_upd R p (Err e) (emit _ s)). Qed.

Lemma queue_body_upd (R : nat -> phase -> Prop) error token p s :
  match error with
  | Some e => R p (settled (op_of p s) (Err e))
  | None => R p AwaitResponse
  end ->
  upd R (tasks s) (tasks (queue_body error token s p)).
Proof.
  intros HR. unfold queue_body. destruct error as [e |].
  - by apply waiter_reject_upd.
  - destruct (truthy token); [by apply waiter_resolve_tasks | apply upd_refl].
Qed.

Lemma loop_upd (R : nat -> phase -> Prop) error token q s :
  (forall p, p ∈ q -> match error with
                      | Some e => R p (settled (op_of p s) (Err e))
                      | None => R p AwaitResponse
                      end) ->
  upd R (tasks s) (tasks (foldl (queue_body error token) s q)).
Proof.
  revert s. induction q as [| p q IH]; intros s HR; cbn [foldl].
  - apply upd_refl.
  - assert (upd R (tasks s) (tasks (queue_body error token s p))) as H1.
    { apply queue_body_upd, HR, list_elem_of_here. }
    eapply upd_trans; [exact H1 |]. apply IH. intros p' Hp'.
    rewrite (op_of_upd R p' _ _ H1). by apply HR, list_elem_of_further.
Qed.

Lemma processQueue_upd (R : nat -> phase -> Prop) error token s :
  (forall p, p ∈ failedQueue s -> match error with
                                  | Some e => R p (settled (op_of p s) (Err e))
                                  | None => R p AwaitResponse
                                  end) ->
  upd R (tasks s) (tasks (processQueue error token s)).
Proof. intros HR. rewrite processQueue_unfold. by apply loop_upd. Qed.

Lemma refresh_catch_upd (R : nat -> phase -> Prop) i e s :
  (forall p, p ∈ failedQueue s -> R p (settled (op_of p s) (Err e))) ->
  R i (AwaitClearRefreshToken e) ->
  upd R (tasks s) (tasks (refresh_catch i e s)).
Proof.
  intros Hq Hi. unfold refresh_catch.
  eapply upd_trans; [apply (processQueue_upd R (Some e) null s Hq) |].
  by apply upd_alter_phase.
Qed.

Lemma hops_actor s ev s' i p0 p :
  actor ev = Some i -> phase_of i s = Some p0 -> p0 <> Queued ->
  hop (op_of i s) p0 p -> hops s ev s' i p.
Proof. intros Ha Hp Hq Hh. exists p0. split; [done |]. split; [done |]. by destruct p0. Qed.

Lemma hops_drained s ev s' p q :
  queue_inv s -> failedQueue s' = [] -> p ∈ failedQueue s ->
  hop (op_of p s) Queued q -> hops s ev s' p q.
Proof.
  intros [_ Hq] He Hp Hh. exists Queued. split; [by apply Hq |]. by split.
Qed.

Lemma refresh_catch_hops s ev i e p0 :
  queue_inv s -> actor ev = Some i -> phase_of i s = Some p0 -> p0 <> Queued ->
  hop (op_of i s) p0 (AwaitClearRefreshToken e) ->
  upd (hops s ev (refresh_catch i e s)) (tasks s) (tasks (refresh_catch i e s)).
Proof.
  intros Hinv Ha Hp Hne Hh. apply refresh_catch_upd.
  - intros p Hin. apply hops_drained; try done. constructor.
  - by eapply hops_actor.
Qed.

Lemma step_hops s ev s' i :
  queue_inv s -> step s ev = Some s' -> actor ev = Some i ->
  upd (hops s ev s') (tasks s) (tasks s').
Proof.
  intros Hinv Hstep Ha.
  destruct ev as [| | | | | k r | k r | k ok | k ok | k ok]; try done;
    injection Ha as ->; cbn [step] in Hstep;
    destruct (phase_of i s) as [p0 |] eqn:Hp; try done.
  - (* the request completes *)
    destruct p0; try done. destruct r as [resp | resp]; injection Hstep as <-.
    + apply settle_upd. eapply hops_actor; try done. constructor.
    + unfold on_rejected. destruct (negb (is401 resp) || _retry (request_of i s)).
      * apply settle_upd. eapply hops_actor; try done. constructor.
      * apply upd_alter_phase. eapply hops_actor; try done. constructor.
  - (* the refresh POST completes *)
    destruct p0 as [| | | rt | | | | | | |]; try done. injection Hstep as <-.
    unfold on_refresh_reply. destruct r as [resp | resp].
    + destruct (data resp) as [d |].
      * apply upd_alter_phase. eapply hops_actor; try done. constructor.
      * eapply refresh_catch_hops; try done. constructor.
    + eapply refresh_catch_hops; try done. constructor.
  - (* the stored token has been read *)
    destruct p0 as [| e | | | | | | | | |]; try done; injection Hstep as <-.
    + unfold on_refreshToken.
      destruct (getRefreshToken ok s) as [| | rt];
        try (apply settle_upd; eapply hops_actor; try done; constructor).
      destruct (negb (truthy (str rt)));
        [apply settle_upd; eapply hops_actor; try done; constructor |].
      destruct (isRefreshing s).
      * apply upd_alter_phase. eapply hops_actor; try done. constructor.
      * simpl_fields. eapply upd_trans; [apply upd_alter_request |].
        apply upd_alter_phase. eapply hops_actor; try done. constructor.
    + unfold on_mount_token. destruct (truthy (getRefreshToken ok s)).
      * set (c := {| _retry := false; Authorization := None;
                     body := Some (getRefreshToken ok s) |}).
        apply (upd_trans _ _ (tasks (set_request i c s))); [apply upd_alter_request |].
        apply apiClient_tasks. eapply hops_actor; try done. constructor.
      * apply upd_alter_phase. eapply hops_actor; try done. constructor.
  - (* [setRefreshToken] completes *)
    destruct p0 as [| | | | rt a r | | | a r | | |]; try done; injection Hstep as <-.
    + unfold on_refresh_stored.
      destruct (setRefreshToken r ok s) as [s0 |] eqn:E.
      * assert (tasks s0 = tasks s /\ failedQueue s0 = failedQueue s) as [Et Eq].
        { unfold setRefreshToken in E. destruct r; try done. destruct ok; [| done].
          by injection E as <-. }
        set (s1 := set_request i _ s0).
        assert (upd (hops s (StoreSet i ok) (set_isRefreshing false
                                               (apiClient i (processQueue None a s1))))
                  (tasks s) (tasks s1)) as H1.
        { unfold s1. simpl_fields. rewrite Et. apply upd_alter_request. }
        assert (upd (hops s (StoreSet i ok) (set_isRefreshing false
                                               (apiClient i (processQueue None a s1))))
                  (tasks s1) (tasks (processQueue None a s1))) as H2.
        { apply processQueue_upd. intros p Hin.
          apply hops_drained; try done; [by rewrite <- Eq | constructor]. }
        eapply upd_trans; [exact H1 |]. eapply upd_trans; [exact H2 |].
        apply apiClient_tasks. eapply hops_actor; try done. constructor.
      * eapply refresh_catch_hops; try done. constructor.
    + unfold on_auth_stored. destruct (setRefreshToken (str r) ok s) as [s0 |] eqn:E.
      * assert (tasks s0 = tasks s) as Et.
        { unfold setRefreshToken in E. destruct ok; [| done]. by injection E as <-. }
        assert (upd (hops s (StoreSet i ok)
                       (set_phase i (Done None) (setIsAuthenticated true s0)))
                  (tasks s) (tasks (set_phase i (Done None) (setIsAuthenticated true s0))))
          as H1.
        { simpl_fields. rewrite Et. apply upd_alter_phase.
          eapply hops_actor; try done. constructor. }
        destruct (op_of i (setIsAuthenticated true s0)); exact H1.
      * destruct (op_of i s) eqn:Ho;
          try (apply upd_alter_phase; eapply hops_actor; try done;
               rewrite Ho; by constructor).
  - (* a deletion completes *)
    destruct p0 as [| | | | | e | | | | |]; try done; injection Hstep as <-.
    + unfold on_refresh_cleared.
      set (s0 := set_isRefreshing false (clearRefreshToken ok s)).
      assert (tasks s0 = tasks s) as Et by (unfold s0; by destruct ok).
      rewrite <- Et. apply settle_upd.
      assert (op_of i s0 = op_of i s) as -> by (unfold op_of; by rewrite Et).
      eapply hops_actor; try done. constructor.
    + assert (tasks (clearRefreshToken ok s) = tasks s) as Et by (by destruct ok).
      simpl_fields. rewrite Et. apply upd_alter_phase.
      eapply hops_actor; try done. constructor.
    + assert (tasks (clearRefreshToken ok s) = tasks s) as Et by (by destruct ok).
      simpl_fields. rewrite Et. apply upd_alter_phase.
      eapply hops_actor; try done. constructor.
Qed.

(** ** The queue *)

Lemma hops_Queued s ev s' j p :
  step s ev = Some s' -> phase_of j s = Some Queued -> hops s ev s' j p ->
  failedQueue s' = [].
Proof.
  intros Hstep Hq (p0 & Hp0 & _ & H). rewrite Hq in Hp0. injection Hp0 as <-. apply H.
Qed.

Lemma step_keeps_Queued s ev s' p :
  queue_inv s -> step s ev = Some s' -> failedQueue s' <> [] ->
  phase_of p s = Some Queued -> phase_of p s' = Some Queued.
Proof.
  intros Hinv Hstep Hne Hp.
  apply phase_of_Some in Hp as (t & Et & Hpt).
  pose proof (lookup_lt_Some _ _ _ Et) as Hlt.
  destruct (actor ev) as [i |] eqn:Ha.
  - pose proof (step_hops s ev s' i Hinv Hstep Ha) as Hupd.
    destruct (tasks s' !! p) as [t' |] eqn:Et'.
    + apply phase_of_Some. exists t'. split; [done |].
      destruct (upd_phase _ _ _ p t' Hupd Et') as (t0 & Et0 & _ & [-> | Hh]); [congruence |].
      destruct Hne. eapply hops_Queued; [done | | done].
      apply phase_of_Some. by exists t.
    + apply lookup_ge_None in Et'. rewrite (upd_length _ _ _ Hupd) in Et'. lia.
  - destruct (step_spawn s ev s' Hstep Ha) as (Hlen & Hsp & _).
    destruct (tasks s' !! p) as [t' |] eqn:Et'.
    + apply phase_of_Some. exists t'. split; [done |].
      destruct (Hsp p t' Et') as [(t0 & Et0 & _ & ->) | [-> _]]; [congruence | lia].
    + apply lookup_ge_None in Et'. lia.
Qed.

Lemma step_queued s i e s' :
  phase_of i s = Some (AwaitGetRefreshToken e) ->
  step s (StoreGet i true) = Some s' ->
  failedQueue s' = failedQueue s ++ [i] ->
  phase_of i s' = Some Queued.
Proof.
  intros Hp Hstep Hq. pose proof (phase_of_lt _ _ _ Hp) as Hi.
  assert (failedQueue s <> failedQueue s ++ [i]) as Hne.
  { intros E. apply (f_equal length) in E. rewrite length_app in E. cbn in E. lia. }
  cbn [step] in Hstep. rewrite Hp in Hstep.
  remember (getRefreshToken true s) as v eqn:Ev. clear Ev. injection Hstep as <-.
  unfold on_refreshToken in *.
  destruct v as [| | rt]; try (by rewrite settle_failedQueue in Hq).
  destruct (negb (truthy (str rt))); [by rewrite settle_failedQueue in Hq |].
  destruct (isRefreshing s); [| done].
  by apply (phase_of_set_phase i Queued (set_failedQueue _ s)).
Qed.

Lemma queue_inv_init stored : queue_inv (init stored).
Proof. split; [constructor |]. intros p Hp. by apply not_elem_of_nil in Hp. Qed.

Lemma step_queue_inv s ev s' : queue_inv s -> step s ev = Some s' -> queue_inv s'.
Proof.
  intros Hinv Hstep. pose proof Hinv as [Hnd Hq].
  destruct (step_effects s ev s' Hstep) as (_ & Hfq & _).
  destruct (decide (failedQueue s' = [])) as [E | Hne].
  { unfold queue_inv; rewrite E. split; [constructor |]. intros p Hp. by apply not_elem_of_nil in Hp. }
  destruct Hfq as [E | [E | (i & e & -> & Hpi & E)]]; [| done |].
  - unfold queue_inv; rewrite E. split; [done |]. intros p Hp.
    apply (step_keeps_Queued s ev s'); try done. by apply Hq.
  - unfold queue_inv; rewrite E. split.
    + apply NoDup_app. split; [done |]. split; [| apply NoDup_singleton].
      intros p Hp ->%list_elem_of_singleton. apply Hq in Hp. congruence.
    + intros p [Hp | ->%list_elem_of_singleton]%elem_of_app.
      * apply (step_keeps_Queued s (StoreGet i true) s'); try done. by apply Hq.
      * by eapply step_queued.
Qed.

(** ** Every asynchronous function keeps to its own suspension points *)

Lemma fits_settled o r : o <> Logout -> fits o (settled o r) = true.
Proof.
  intros Ho. destruct o, r as [resp | e]; try done; cbn;
    destruct (parse resp) as [[a rt] |]; done.
Qed.

Lemma hop_fits o p p' : fits o p = true -> hop o p p' -> fits o p' = true.
Proof.
  intros Hf Hh. destruct Hh; try (by destruct o);
    try (apply fits_settled; by destruct o).
Qed.

Lemma typed_init stored : typed (init stored).
Proof. intros j t Ej. cbn in Ej. by rewrite lookup_nil in Ej. Qed.

Lemma step_spawn_fits s ev s' t' :
  step s ev = Some s' -> actor ev = None ->
  tasks s' !! length (tasks s) = Some t' -> fits (op t') (ph t') = true.
Proof.
  intros Hstep Ha Et'.
  assert (forall o, o <> Logout ->
            s' = apiClient (length (tasks s)) (spawn o AwaitResponse s) ->
            fits (op t') (ph t') = true) as Hsend.
  { intros o Ho ->.
    destruct (apiClient_spawn o AwaitResponse s) as (Hp & Hop & _).
    unfold phase_of in Hp. unfold op_of in Hop. rewrite Et' in Hp, Hop.
    injection Hp as ->. rewrite Hop. by destruct o. }
  destruct ev; try done; cbn [step] in Hstep; injection Hstep as <-;
    try (eapply Hsend; [| reflexivity]; done).
  - pose proof (spawn_lookup_new Logout LogoutClearAll (set_accessToken null s)) as E.
    change (tasks (set_accessToken null s)) with (tasks s) in E.
    rewrite E in Et'. by injection Et' as <-.
  - rewrite spawn_lookup_new in Et'. by injection Et' as <-.
Qed.

Lemma step_typed s ev s' : queue_inv s -> typed s -> step s ev = Some s' -> typed s'.
Proof.
  intros Hinv Ht Hstep j t' Et'.
  destruct (actor ev) as [i |] eqn:Ha.
  - pose proof (step_hops s ev s' i Hinv Hstep Ha) as Hupd.
    destruct (upd_phase _ _ _ j t' Hupd Et') as (t & Et & Hop & [Hph | Hh]).
    + rewrite Hop, Hph. by apply Ht in Et.
    + destruct Hh as (p0 & Hp0 & Hh & _).
      unfold phase_of in Hp0. unfold op_of in Hh. rewrite Et in Hp0, Hh.
      injection Hp0 as <-. rewrite Hop. eapply hop_fits; [| exact Hh]. by apply Ht in Et.
  - destruct (step_spawn s ev s' Hstep Ha) as (Hlen & Hsp & _).
    destruct (Hsp j t' Et') as [(t & Et & Hop & Hph) | [-> _]].
    + rewrite Hop, Hph. by apply Ht in Et.
    + by eapply step_spawn_fits.
Qed.

Lemma typed_phase s i p :
  typed s -> phase_of i s = Some p -> fits (op_of i s) p = true.
Proof.
  intros Ht (t & Et & <-)%phase_of_Some. unfold op_of. rewrite Et. by apply Ht in Et.
Qed.

(** ** The refresh mutex is never left locked *)

Lemma held_init stored : held (init stored).
Proof. by intros H. Qed.

Lemma step_held s ev s' : queue_inv s -> held s -> step s ev = Some s' -> held s'.
Proof.
  intros Hinv Hheld Hstep Hr'.
  destruct (actor ev) as [i |] eqn:Ha.
  - destruct (step_abstract s ev s' i Hstep Ha) as [_ [p0 Hp0]].
    destruct (step_mutex_post s ev s' i p0 Hstep Ha Hp0) as (p & Hp & Hpost).
    destruct (renewing p) eqn:Hrp; [by exists i, p |].
    unfold mutex_post in Hpost. rewrite Hrp in Hpost.
    destruct (renewing p0) eqn:Hrp0; [congruence |].
    destruct Hheld as (h & ph & Hph & Hrh); [congruence |].
    exists h, ph. split; [| done].
    pose proof (step_hops s ev s' i Hinv Hstep Ha) as Hupd.
    apply phase_of_Some in Hph as (t & Et & Hpt).
    destruct (tasks s' !! h) as [t' |] eqn:Et'.
    + apply phase_of_Some. exists t'. split; [done |].
      destruct (upd_phase _ _ _ h t' Hupd Et') as (t0 & Et0 & _ & [-> | Hh]); [congruence |].
      destruct Hh as (q0 & Hq0 & _ & Hact).
      unfold phase_of in Hq0, Hp0. rewrite Et in Hq0. injection Hq0 as <-.
      rewrite Hpt in Hact. assert (actor ev = Some h) as Hah by (by destruct ph).
      assert (h = i) as -> by congruence.
      rewrite Et in Hp0. injection Hp0 as <-. congruence.
    + apply lookup_ge_None in Et'. rewrite (upd_length _ _ _ Hupd) in Et'.
      apply lookup_lt_Some in Et. lia.
  - destruct (step_spawn s ev s' Hstep Ha) as (Hlen & Hsp & (_ & Hr & _) & _).
    destruct Hheld as (h & ph & Hph & Hrh); [congruence |].
    exists h, ph. split; [| done].
    apply phase_of_Some in Hph as (t & Et & Hpt).
    pose proof (lookup_lt_Some _ _ _ Et) as Hlt.
    destruct (tasks s' !! h) as [t' |] eqn:Et'.
    + apply phase_of_Some. exists t'. split; [done |].
      destruct (Hsp h t' Et') as [(t0 & Et0 & _ & ->) | [-> _]]; [congruence | lia].
    + apply lookup_ge_None in Et'. lia.
Qed.

(** ** [isLoading] *)

Lemma fits_mount o p :
  fits o p = true -> p = MountGetRefreshToken \/ p = MountClearAll -> o = SilentRefresh.
Proof. intros Hf [-> | ->]; by destruct o. Qed.

(** [isLoading] is written where a mount effect ends, and nowhere else. *)
Lemma step_loading s ev s' :
  typed s -> step s ev = Some s' ->
  isLoading s' = isLoading s \/
  (isLoading s' = false /\
   exists i, actor ev = Some i /\ op_of i s = SilentRefresh /\
             phase_of i s' = Some (Done None)).
Proof.
  intros Ht Hstep.
  destruct ev as [| | | | | i r | i r | i ok | i ok | i ok]; cbn [step] in Hstep;
    try (injection Hstep as <-; by left);
    destruct (phase_of i s) as [p0 |] eqn:Hp; try done;
    pose proof (phase_of_lt _ _ _ Hp) as Hi;
    pose proof (typed_phase s i p0 Ht Hp) as Hf.
  - destruct p0; try done. destruct r as [resp | resp]; injection Hstep as <-; left.
    + apply settle_same.
    + apply on_rejected_session.
  - destruct p0; try done. injection Hstep as <-. left. apply on_refresh_reply_session.
  - destruct p0; try done; injection Hstep as <-.
    + left. apply on_refreshToken_session.
    + unfold on_mount_token. destruct (truthy (getRefreshToken ok s)); [by left | right].
      split; [done |]. exists i. split; [done |]. split; [by eapply fits_mount; eauto |].
      by apply (phase_of_set_phase i _ (setIsLoading false s)).
  - destruct p0 as [| | | | | | | a r | | |]; try done; injection Hstep as <-.
    + left. apply on_refresh_stored_session.
    + unfold on_auth_stored, setRefreshToken. destruct ok.
      * change (op_of i (setIsAuthenticated true (set_secureStore (Some r) s)))
          with (op_of i s).
        destruct (op_of i s) eqn:Ho; try by left.
        right. split; [done |]. exists i. split; [done |]. split; [done |].
        by apply (phase_of_set_phase i _
                    (setIsLoading false (setIsAuthenticated true (set_secureStore _ s)))).
      * left. by destruct (op_of i s).
  - assert (tasks (clearRefreshToken ok s) = tasks s) as Et by (by destruct ok).
    destruct p0; try done; injection Hstep as <-.
    + left. apply on_refresh_cleared_session.
    + right. split; [done |]. exists i. split; [done |]. split; [by eapply fits_mount; eauto |].
      apply (phase_of_set_phase i _ (setIsLoading false (clearRefreshToken ok s))).
      simpl_fields. by rewrite Et.
    + left. by destruct ok.
Qed.

(** Where a mount effect ends, [isLoading] is lowered. *)
Lemma step_mount_end s ev s' i p0 res :
  typed s -> step s ev = Some s' -> actor ev = Some i ->
  op_of i s = SilentRefresh -> phase_of i s = Some p0 ->
  hop SilentRefresh p0 (Done res) -> phase_of i s' = Some (Done res) ->
  isLoading s' = false.
Proof.
  intros Ht Hstep Ha Ho Hp Hh Hp'.
  pose proof (phase_of_lt _ _ _ Hp) as Hi.
  pose proof (typed_phase s i p0 Ht Hp) as Hf. rewrite Ho in Hf.
  assert (forall r, settled SilentRefresh r <> Done res) as Hns.
  { intros [resp | e]; cbn; [| done]. by destruct (parse resp) as [[? ?] |]. }
  inversion Hh as [r E1 E2 | | e E1 E2 | | | e E1 E2 | | | | | | e E1 E2 | | E1 E2 | E1 E2
                   | a r E1 E2 | | a r Hne E1 E2 | E1 E2];
    subst;
    try match goal with
        | H : match ?r with Ok _ => _ | Err _ => _ end = Done _ |- _ => by destruct (Hns r H)
        end;
    try done.
  - (* the stored token has been read and there is none *)
    destruct ev; try done; injection Ha as ->; cbn [step] in Hstep; rewrite Hp in Hstep;
      try done; injection Hstep as <-.
    unfold on_mount_token in *. destruct (truthy (getRefreshToken ok s)); [| done].
    rewrite apiClient_phase in Hp' by (simpl_fields; by rewrite length_alter). done.
  - (* the deletion of the catch block has completed *)
    destruct ev; try done; injection Ha as ->; cbn [step] in Hstep; rewrite Hp in Hstep;
      try done; by injection Hstep as <-.
  - (* the refresh token of the response is stored *)
    destruct ev; try done; injection Ha as ->; cbn [step] in Hstep; rewrite Hp in Hstep;
      try done; injection Hstep as <-.
    unfold on_auth_stored, setRefreshToken in *. destruct ok.
    + change (op_of i (setIsAuthenticated true (set_secureStore (Some r) s)))
        with (op_of i s) in *.
      by rewrite Ho.
    + rewrite Ho in Hp'. unfold mount_catch in Hp'.
      rewrite (phase_of_set_phase i _ (set_accessToken null s)) in Hp' by done. done.
Qed.

Lemma hop_from_Done o res p : ~ hop o (Done res) p.
Proof. intros H. inversion H. Qed.

Lemma hop_Queued_not_done o p : hop o Queued p -> o = SilentRefresh -> is_done p = false.
Proof.
  intros H ->. inversion H as [| | | | | e E1 E2 | | | | | | | | | | | | |]; subst; done.
Qed.

Lemma mounted_init stored : ~ mounted (init stored).
Proof. intros (j & t & Ej & _). cbn in Ej. by rewrite lookup_nil in Ej. Qed.

Lemma step_mounted s ev s' :
  queue_inv s -> step s ev = Some s' -> mounted s -> mounted s'.
Proof.
  intros Hinv Hstep (j & t & Et & Ho & Hd).
  pose proof (lookup_lt_Some _ _ _ Et) as Hlt.
  destruct (actor ev) as [i |] eqn:Ha.
  - pose proof (step_hops s ev s' i Hinv Hstep Ha) as Hupd.
    destruct (tasks s' !! j) as [t' |] eqn:Et'.
    + exists j, t'. split; [done |].
      destruct (upd_phase _ _ _ j t' Hupd Et') as (t0 & Et0 & Hop & [Hph | Hh]).
      * assert (t0 = t) as -> by congruence. by rewrite Hop, Hph.
      * destruct Hh as (p0 & Hp0 & Hh & _). unfold phase_of in Hp0. rewrite Et in Hp0.
        injection Hp0 as <-. destruct (ph t); try done. by apply hop_from_Done in Hh.
    + apply lookup_ge_None in Et'. rewrite (upd_length _ _ _ Hupd) in Et'. lia.
  - destruct (step_spawn s ev s' Hstep Ha) as (Hlen & Hsp & _).
    destruct (tasks s' !! j) as [t' |] eqn:Et'.
    + exists j, t'. split; [done |].
      destruct (Hsp j t' Et') as [(t0 & Et0 & Hop & Hph) | [-> _]]; [| lia].
      assert (t0 = t) as -> by congruence. by rewrite Hop, Hph.
    + apply lookup_ge_None in Et'. lia.
Qed.

Lemma step_loaded s ev s' :
  queue_inv s -> typed s -> (isLoading s = false <-> mounted s) ->
  step s ev = Some s' -> (isLoading s' = false <-> mounted s').
Proof.
  intros Hinv Ht HL Hstep. split.
  - intros Hl'. destruct (step_loading s ev s' Ht Hstep) as [E | (_ & i & Ha & Ho & Hp)].
    + apply (step_mounted s ev s'); try done. apply HL. congruence.
    + apply phase_of_Some in Hp as (t' & Et' & Hpt'). exists i, t'. split; [done |].
      split; [| by rewrite Hpt'].
      pose proof (step_hops s ev s' i Hinv Hstep Ha) as Hupd.
      pose proof (op_of_upd _ i s s' Hupd) as Hop. unfold op_of in Hop at 1.
      rewrite Et' in Hop. congruence.
  - intros (j & t' & Et' & Ho' & Hd').
    assert (isLoading s = false -> isLoading s' = false) as Hkeep.
    { intros E. destruct (step_loading s ev s' Ht Hstep) as [-> | [? _]]; done. }
    destruct (actor ev) as [i |] eqn:Ha.
    + pose proof (step_hops s ev s' i Hinv Hstep Ha) as Hupd.
      destruct (upd_phase _ _ _ j t' Hupd Et') as (t & Et & Hop & [Hph | Hh]).
      * apply Hkeep, HL. exists j, t. split; [done |]. by rewrite <- Hop, <- Hph.
      * destruct Hh as (p0 & Hp0 & Hh & Hact).
        assert (op_of j s = SilentRefresh) as Hoj by (unfold op_of; rewrite Et; congruence).
        rewrite Hoj in Hh.
        destruct (ph t') as [| | | | | | | | | | res] eqn:Hpt'; try done.
        assert (p0 = Queued \/ actor ev = Some j) as [-> | Haj]
          by (destruct p0; by (left + right)).
        { by apply hop_Queued_not_done in Hh. }
        eapply (step_mount_end s ev s' j p0 res); try done.
        apply phase_of_Some. by exists t'.
    + destruct (step_spawn s ev s' Hstep Ha) as (Hlen & Hsp & _).
      destruct (Hsp j t' Et') as [(t & Et & Hop & Hph) | [-> Hini]].
      * apply Hkeep, HL. exists j, t. split; [done |]. by rewrite <- Hop, <- Hph.
      * destruct Hini as [E | [E | E]]; rewrite E in Hd'; done.
Qed.

(** ** What holds in every state of every execution *)

Lemma run_invariants stored tr s :
  run (init stored) tr = Some s ->
  queue_inv s /\ typed s /\ held s /\ (isLoading s = false <-> mounted s).
Proof.
  assert (forall s0, queue_inv s0 /\ typed s0 /\ held s0 /\
                     (isLoading s0 = false <-> mounted s0) ->
                     run s0 tr = Some s ->
                     queue_inv s /\ typed s /\ held s /\
                     (isLoading s = false <-> mounted s)) as H.
  { induction tr as [| ev tr IH]; intros s0 Hinv; cbn.
    - by intros [= <-].
    - destruct (step s0 ev) as [s1 |] eqn:Hstep; [| done].
      destruct Hinv as (Hq & Ht & Hh & Hl). apply IH. repeat split.
      + by apply (step_queue_inv s0 ev s1).
      + by apply (step_queue_inv s0 ev s1).
      + by apply (step_typed s0 ev s1).
      + by apply (step_held s0 ev s1).
      + by apply (step_loaded s0 ev s1).
      + by apply (step_loaded s0 ev s1). }
  apply H. split; [apply queue_inv_init |]. split; [apply typed_init |].
  split; [apply held_init |]. split; [done |]. intros Hm. by apply mounted_init in Hm.
Qed.

(** X12.  In every state of every execution, [failedQueue] holds no call twice,
    and every call it holds is one whose promise is pending (lines 58-66):
    [processQueue] never completes a call that has returned or that is
    running. *)
Theorem queue_holds_pending_calls (stored : option string) (tr : list event) (s : State) :
  run (init stored) tr = Some s ->
  NoDup (failedQueue s) /\
  forall p, p ∈ failedQueue s -> phase_of p s = Some Queued.
Proof. intros Hrun. by destruct (run_invariants stored tr s Hrun) as (Hq & _). Qed.

Lemma queue_holds_pending_calls_witness :
  NoDup (failedQueue (state_after None three_calls_renewing)) /\
  forall p, p ∈ failedQueue (state_after None three_calls_renewing) ->
            phase_of p (state_after None three_calls_renewing) = Some Queued.
Proof.
  apply (queue_holds_pending_calls None three_calls_renewing). vm_compute. reflexivity.
Defined.

(** X13.  In every state of every execution, [isRefreshing] is set exactly when
    some call is between line 70 and the [finally] of line 91, and there is
    at most one such call: the mutex is never held by two calls and never
    left locked with no call to release it. *)
Theorem mutex_held_by_one_call (stored : option string) (tr : list event) (s : State) :
  run (init stored) tr = Some s ->
  (isRefreshing s = true <-> exists i p, phase_of i s = Some p /\ renewing p = true) /\
  (forall i j p q, phase_of i s = Some p -> renewing p = true ->
                   phase_of j s = Some q -> renewing q = true -> i = j).
Proof.
  intros Hrun. destruct (run_invariants stored tr s Hrun) as (_ & _ & Hh & _).
  destruct (run_mutex tr (init stored) s (mutex_init stored) Hrun) as [i0 Hm].
  split; [split; [exact Hh |] |].
  - intros (i & p & (t & Et & <-)%phase_of_Some & Hr). by destruct (Hm i t Et Hr).
  - intros i j p q (t & Et & <-)%phase_of_Some Hp (u & Eu & <-)%phase_of_Some Hq.
    destruct (Hm i t Et Hp) as [-> _]. by destruct (Hm j u Eu Hq) as [-> _].
Qed.

Lemma mutex_held_by_one_call_witness :
  isRefreshing (state_after None three_calls_renewing) = true /\
  exists i p, phase_of i (state_after None three_calls_renewing) = Some p /\
              renewing p = true.
Proof.
  split; [reflexivity |].
  apply (proj1 (mutex_held_by_one_call None three_calls_renewing
                  (state_after None three_calls_renewing)
                  ltac:(vm_compute; reflexivity))).
  reflexivity.
Defined.

(** X14.  [isLoading] is up until a mount effect has run to its end, and down
    ever after: in every state of every execution it is [false] exactly
    when some call of the mount effect has returned. *)
Theorem loading_until_mounted (stored : option string) (tr : list event) (s : State) :
  run (init stored) tr = Some s ->
  (isLoading s = false <->
   exists j, op_of j s = SilentRefresh /\ exists res, phase_of j s = Some (Done res)).
Proof.
  intros Hrun. destruct (run_invariants stored tr s Hrun) as (_ & _ & _ & Hl).
  rewrite Hl. unfold mounted. split.
  - intros (j & t & Et & Ho & Hd). exists j. split; [unfold op_of; by rewrite Et |].
    destruct (ph t) as [| | | | | | | | | | res] eqn:Hp; try done.
    exists res. apply phase_of_Some. by exists t.
  - intros (j & Ho & res & (t & Et & Hp)%phase_of_Some). exists j, t.
    unfold op_of in Ho. rewrite Et in Ho. by rewrite Hp.
Qed.

Lemma loading_until_mounted_witness :
  isLoading (state_after None [Mount; Execute; StoreGet 0 true]) = false /\
  exists j, op_of j (state_after None [Mount; Execute; StoreGet 0 true]) = SilentRefresh /\
            exists res, phase_of j (state_after None [Mount; Execute; StoreGet 0 true])
                        = Some (Done res).
Proof.
  split; [reflexivity |].
  apply (loading_until_mounted None [Mount; Execute; StoreGet 0 true]
           (state_after None [Mount; Execute; StoreGet 0 true])
           ltac:(vm_compute; reflexivity)).
  reflexivity.
Defined.

(** ** The retry mark *)

Lemma settle_retry j i r s : _retry (request_of j (settle i r s)) = _retry (request_of j s).
Proof. rewrite settle_settled. by rewrite request_of_set_phase. Qed.

Lemma waiter_reject_retry j p e s :
  _retry (request_of j (waiter_reject p e s)) = _retry (request_of j s).
Proof. unfold waiter_reject. by rewrite settle_retry. Qed.

Lemma loop_retry error token q s j :
  _retry (request_of j (foldl (queue_body error token) s q)) = _retry (request_of j s).
Proof.
  revert s. induction q as [| p q IH]; intros s; cbn [foldl]; [done |].
  rewrite IH. unfold queue_body. destruct error as [e |].
  - apply waiter_reject_retry.
  - destruct (truthy token); [apply waiter_resolve_retry | done].
Qed.

Lemma processQueue_retry error token s j :
  _retry (request_of j (processQueue error token s)) = _retry (request_of j s).
Proof. rewrite processQueue_unfold. apply (loop_retry error token (failedQueue s) s j). Qed.

Lemma refresh_catch_retry j i e s :
  _retry (request_of j (refresh_catch i e s)) = _retry (request_of j s).
Proof.
  unfold refresh_catch. rewrite request_of_set_phase.
  apply (processQueue_retry (Some e) null s j).
Qed.

Lemma request_of_set_request_ne j i c s :
  j <> i -> request_of j (set_request i c s) = request_of j s.
Proof.
  intros Hne. unfold request_of, set_request. simpl_fields.
  by rewrite list_lookup_alter_ne.
Qed.

(** The mark is set in one place, line 69, and never taken off. *)
Lemma step_retry s ev s' j :
  unmarked s -> step s ev = Some s' ->
  _retry (request_of j s') = _retry (request_of j s) \/
  (exists rt e, ev = StoreGet j true /\ phase_of j s = Some (AwaitGetRefreshToken e) /\
                phase_of j s' = Some (AwaitRefreshPost rt) /\
                _retry (request_of j s') = true).
Proof.
  intros Hun Hstep.
  destruct (actor ev) as [i |] eqn:Ha.
  - destruct ev as [| | | | | k r | k r | k ok | k ok | k ok]; try done;
      injection Ha as ->; cbn [step] in Hstep;
      destruct (phase_of i s) as [p0 |] eqn:Hp; try done;
      pose proof (phase_of_lt _ _ _ Hp) as Hi.
    + destruct p0; try done. destruct r as [resp | resp]; injection Hstep as <-; left.
      * apply settle_retry.
      * unfold on_rejected. destruct (negb (is401 resp) || _retry (request_of i s)).
        -- apply settle_retry.
        -- by rewrite request_of_set_phase.
    + destruct p0; try done. injection Hstep as <-. left.
      unfold on_refresh_reply. destruct r as [resp | resp]; [| apply refresh_catch_retry].
      destruct (data resp); [| apply refresh_catch_retry].
      by rewrite request_of_set_phase.
    + destruct p0 as [| e | | | | | | | | |]; try done.
      * remember (getRefreshToken ok s) as v eqn:Ev. injection Hstep as <-.
        unfold on_refreshToken.
        destruct v as [| | rt]; try (left; apply settle_retry).
        destruct (negb (truthy (str rt))); [left; apply settle_retry |].
        destruct (isRefreshing s); [left; by rewrite request_of_set_phase |].
        destruct (decide (j = i)) as [-> | Hne].
        -- right. exists rt, e.
           assert (ok = true) as ->.
           { symmetry in Ev. by apply getRefreshToken_str in Ev as [-> _]. }
           split; [done |]. split; [done |].
           split.
           { apply (phase_of_set_phase i _ (set_isRefreshing true (set_request i _ s))).
             simpl_fields. by rewrite length_alter. }
           change (_retry (request_of i (set_phase i (AwaitRefreshPost rt)
                     (set_isRefreshing true
                        (set_request i {| _retry := true;
                                          Authorization := Authorization (request_of i s);
                                          body := body (request_of i s) |}
                           s)))) = true).
           rewrite request_of_set_phase.
           change (_retry (request_of i (set_request i
                     {| _retry := true; Authorization := Authorization (request_of i s); body := body (request_of i s) |} s))
                   = true).
           by rewrite request_of_set_request.
        -- left.
           change (_retry (request_of j (set_phase i (AwaitRefreshPost rt)
                     (set_isRefreshing true
                        (set_request i {| _retry := true;
                                          Authorization := Authorization (request_of i s);
                                          body := body (request_of i s) |}
                           s)))) = _retry (request_of j s)).
           rewrite request_of_set_phase.
           change (_retry (request_of j (set_request i
                     {| _retry := true; Authorization := Authorization (request_of i s); body := body (request_of i s) |} s))
                   = _retry (request_of j s)).
           by rewrite request_of_set_request_ne.
      * injection Hstep as <-. left. unfold on_mount_token.
        destruct (truthy (getRefreshToken ok s)); [| by rewrite request_of_set_phase].
        rewrite apiClient_retry. apply request_of_alter_request.
        apply phase_of_Some in Hp as (t & Et & Hpt).
        unfold request_of. rewrite Et. symmetry. apply (Hun i t Et). by rewrite Hpt.
    + destruct p0 as [| | | | rt a r | | | a r | | |]; try done; injection Hstep as <-; left.
      * unfold on_refresh_stored. destruct (setRefreshToken r ok s) as [s0 |] eqn:E;
          [| apply refresh_catch_retry].
        assert (tasks s0 = tasks s) as Et.
        { unfold setRefreshToken in E. destruct r; try done. destruct ok; [| done].
          by injection E as <-. }
        change (_retry (request_of j (apiClient i (processQueue None a
                  (set_request i {| _retry := _retry (request_of i s0);
                                    Authorization := Some (Bearer a);
                                    body := body (request_of i s0) |} s0))))
                = _retry (request_of j s)).
        rewrite apiClient_retry, processQueue_retry.
        assert (request_of j s0 = request_of j s) as <- by (unfold request_of; by rewrite Et).
        by apply request_of_alter_request.
      * unfold on_auth_stored. destruct (setRefreshToken (str r) ok s) as [s0 |] eqn:E.
        -- assert (tasks s0 = tasks s) as Et.
           { unfold setRefreshToken in E. destruct ok; [| done]. by injection E as <-. }
           assert (request_of j s0 = request_of j s) as <-
               by (unfold request_of; by rewrite Et).
           destruct (op_of i (setIsAuthenticated true s0)); by rewrite request_of_set_phase.
        -- unfold mount_catch.
           destruct (op_of i s); by rewrite request_of_set_phase.
    + assert (tasks (clearRefreshToken ok s) = tasks s) as Et by (by destruct ok).
      assert (request_of j (clearRefreshToken ok s) = request_of j s) as Er
          by (unfold request_of; by rewrite Et).
      destruct p0; try done; injection Hstep as <-; left.
      * unfold on_refresh_cleared. rewrite settle_retry. exact (f_equal _retry Er).
      * rewrite request_of_set_phase. exact (f_equal _retry Er).
      * rewrite request_of_set_phase. exact (f_equal _retry Er).
  - left.
    assert (forall o, _retry (request_of j (apiClient (length (tasks s))
                                              (spawn o AwaitResponse s)))
                      = _retry (request_of j s)) as Hsend.
    { intros o. rewrite apiClient_retry. unfold request_of.
      destruct (decide (j < length (tasks s))) as [Hlt | Hge].
      - by rewrite spawn_lookup_old.
      - rewrite (lookup_ge_None_2 (tasks s)) by lia.
        destruct (decide (j = length (tasks s))) as [-> | Hne].
        + by rewrite spawn_lookup_new.
        + rewrite lookup_ge_None_2; [done |]. rewrite length_spawn. lia. }
    assert (forall o p s0, tasks s0 = tasks s ->
              _retry (request_of j (spawn o p s0)) = _retry (request_of j s)) as Hsp.
    { intros o p s0 Et. unfold request_of.
      destruct (decide (j < length (tasks s))) as [Hlt | Hge].
      - rewrite spawn_lookup_old by (by rewrite Et). by rewrite Et.
      - rewrite (lookup_ge_None_2 (tasks s)) by lia.
        destruct (decide (j = length (tasks s))) as [-> | Hne].
        + rewrite <- Et. by rewrite spawn_lookup_new.
        + rewrite lookup_ge_None_2; [done |]. rewrite length_spawn, Et. lia. }
    destruct ev; try done; cbn [step] in Hstep; injection Hstep as <-;
      try apply Hsend; by apply Hsp.
Qed.

Lemma waits_settled o r : waits (settled o r) = false.
Proof.
  destruct o, r as [resp | e]; try done; cbn; by destruct (parse resp) as [[? ?] |].
Qed.

Lemma step_401_unmarked s i r s' e :
  phase_of i s = Some AwaitResponse ->
  step s (Respond i r) = Some s' ->
  phase_of i s' = Some (AwaitGetRefreshToken e) ->
  _retry (request_of i s) = false.
Proof.
  intros Hp Hstep Hp'. pose proof (phase_of_lt _ _ _ Hp) as Hi.
  cbn [step] in Hstep. rewrite Hp in Hstep.
  destruct r as [resp | resp]; injection Hstep as <-.
  - rewrite settle_phase_of in Hp' by done. injection Hp' as Hp'.
    pose proof (waits_settled (op_of i s) (Ok resp)) as Hw. by rewrite Hp' in Hw.
  - unfold on_rejected in Hp'.
    destruct (_retry (request_of i s)); [| done]. rewrite orb_true_r in Hp'.
    rewrite settle_phase_of in Hp' by done. injection Hp' as Hp'.
    pose proof (waits_settled (op_of i s) (Err (AxiosError (ApiCall i) resp))) as Hw.
    by rewrite Hp' in Hw.
Qed.

Lemma unmarked_init stored : unmarked (init stored).
Proof. intros j t Ej. cbn in Ej. by rewrite lookup_nil in Ej. Qed.

Lemma request_of_lookup s j t : tasks s !! j = Some t -> request_of j s = originalRequest t.
Proof. intros Et. unfold request_of. by rewrite Et. Qed.

Lemma step_unmarked s ev s' :
  queue_inv s -> unmarked s -> step s ev = Some s' -> unmarked s'.
Proof.
  intros Hinv Hun Hstep j t' Et' Hw.
  rewrite <- (request_of_lookup s' j t' Et').
  assert (phase_of j s' = Some (ph t')) as Hp' by (apply phase_of_Some; by exists t').
  destruct (step_retry s ev s' j Hun Hstep) as [-> | (rt & e & _ & _ & Hpost & _)];
    [| rewrite Hp' in Hpost; injection Hpost as Hpost; by rewrite Hpost in Hw].
  destruct (actor ev) as [i |] eqn:Ha.
  - pose proof (step_hops s ev s' i Hinv Hstep Ha) as Hupd.
    destruct (upd_phase _ _ _ j t' Hupd Et') as (t & Et & Hop & [Hph | Hh]).
    + rewrite (request_of_lookup s j t Et). apply (Hun j t Et). by rewrite <- Hph.
    + destruct Hh as (p0 & Hp0 & Hh & Hact).
      destruct (ph t') as [| e | | | | | | | | |] eqn:Hq; try done.
      * (* a 401 on an unmarked request *)
        inversion Hh; subst;
          try match goal with
              | H : settled ?o ?r = _ |- _ =>
                  pose proof (waits_settled o r) as Hws; rewrite H in Hws; done
              end.
        cbn in Hact. destruct ev; try done; injection Hact as ->;
          try (cbn [step] in Hstep; rewrite Hp0 in Hstep; done).
        by eapply step_401_unmarked.
      * (* the call joins the queue *)
        inversion Hh; subst;
          try match goal with
              | H : settled ?o ?r = _ |- _ =>
                  pose proof (waits_settled o r) as Hws; rewrite H in Hws; done
              end.
        rewrite (request_of_lookup s j t Et). apply (Hun j t Et).
        unfold phase_of in Hp0. rewrite Et in Hp0. injection Hp0 as ->. done.
      * inversion Hh; subst;
          try match goal with
              | H : settled ?o ?r = _ |- _ =>
                  pose proof (waits_settled o r) as Hws; rewrite H in Hws; done
              end.
      * inversion Hh; subst;
          try match goal with
              | H : settled ?o ?r = _ |- _ =>
                  pose proof (waits_settled o r) as Hws; rewrite H in Hws; done
              end.
  - destruct (step_spawn s ev s' Hstep Ha) as (Hlen & Hsp & _).
    destruct (Hsp j t' Et') as [(t & Et & Hop & Hph) | [-> Hini]].
    + rewrite (request_of_lookup s j t Et). apply (Hun j t Et). by rewrite <- Hph.
    + unfold request_of. by rewrite lookup_ge_None_2.
Qed.

Lemma step_marked_quiet s ev s' i :
  queue_inv s -> unmarked s -> _retry (request_of i s) = true ->
  step s ev = Some s' ->
  _retry (request_of i s') = true /\ (forall rt, RefreshPost i rt ∉ emitted s s').
Proof.
  intros Hinv Hun Hm Hstep. split.
  - destruct (step_retry s ev s' i Hun Hstep) as [-> | (_ & _ & _ & _ & _ & ->)]; done.
  - intros rt Hin.
    destruct (step_effects s ev s' Hstep) as ((l & El & Hl) & _).
    rewrite (emitted_app _ _ _ El) in Hin. rewrite Forall_forall in Hl.
    destruct (Hl _ Hin) as (e & _ & (t & Et & Hpt)%phase_of_Some & _).
    rewrite (request_of_lookup s i t Et) in Hm.
    rewrite (Hun i t Et) in Hm; [done | by rewrite Hpt].
Qed.

Lemma run_unmarked tr s s' :
  queue_inv s -> unmarked s -> run s tr = Some s' -> queue_inv s' /\ unmarked s'.
Proof.
  revert s. induction tr as [| ev tr IH]; intros s Hq Hu; cbn.
  - by intros [= <-].
  - destruct (step s ev) as [s1 |] eqn:Hstep; [| done]. apply IH.
    + by eapply step_queue_inv.
    + by eapply step_unmarked.
Qed.

(** X15.  A call performs at most one renewal: once line 69 has marked its
    request, the call never sends a refresh POST again and never joins the
    queue, whatever the answers to its request - a 401 included -, and the
    mark is never taken off. *)
Theorem marked_call_never_renews (stored : option string) (tr : list event) (s : State)
    (i : nat) (tr' : list event) (s' : State) :
  run (init stored) tr = Some s ->
  _retry (request_of i s) = true ->
  run s tr' = Some s' ->
  _retry (request_of i s') = true /\
  (forall rt, RefreshPost i rt ∉ emitted s s') /\
  (i ∉ failedQueue s').
Proof.
  intros Hrun Hm Hrun'.
  assert (queue_inv s /\ unmarked s) as Hinv.
  { apply (run_unmarked tr (init stored)); [apply queue_inv_init | apply unmarked_init | done]. }
  assert (queue_inv s' /\ unmarked s' /\ _retry (request_of i s') = true /\
          forall rt, RefreshPost i rt ∉ emitted s s') as (Hq' & Hu' & Hm' & Hl').
  { clear Hrun. revert s Hm Hrun' Hinv.
    induction tr' as [| ev tr' IH]; intros s Hm Hrun' [Hq Hu]; cbn in Hrun'.
    - injection Hrun' as <-. split; [done |]. split; [done |]. split; [done |].
      intros rt. unfold emitted. rewrite drop_all. apply not_elem_of_nil.
    - destruct (step s ev) as [s1 |] eqn:Hstep; [| done].
      destruct (step_marked_quiet s ev s1 i Hq Hu Hm Hstep) as [Hm1 Hl1].
      destruct (IH s1 Hm1 Hrun') as (Hq' & Hu' & Hm' & Hl').
      { split; [by eapply step_queue_inv | by eapply step_unmarked]. }
      split; [done |]. split; [done |]. split; [done |]. intros rt.
      rewrite (emitted_step_run _ _ _ _ _ Hstep Hrun'), elem_of_app.
      intros [Hin | Hin]; [by eapply Hl1 | by eapply Hl']. }
  split; [done |]. split; [done |].
  intros Hin. destruct Hq' as [_ Hq']. apply Hq' in Hin.
  apply phase_of_Some in Hin as (t & Et & Hpt).
  rewrite (request_of_lookup s' i t Et) in Hm'.
  rewrite (Hu' i t Et) in Hm'; [done | by rewrite Hpt].
Qed.

Lemma marked_call_never_renews_witness :
  _retry (request_of 0 (state_after (Some "R1"%string)
                          (one_call_renewing ++
                           [RefreshRespond 0 (token_pair (str "A2") (str "R2"));
                            StoreSet 0 true; Respond 0 unauthorized]))) = true /\
  (0 ∉ failedQueue (state_after (Some "R1"%string)
                      (one_call_renewing ++
                       [RefreshRespond 0 (token_pair (str "A2") (str "R2"));
                        StoreSet 0 true; Respond 0 unauthorized]))).
Proof.
  destruct (marked_call_never_renews (Some "R1"%string)
       (one_call_renewing ++
        [RefreshRespond 0 (token_pair (str "A2") (str "R2")); StoreSet 0 true])
       (state_after (Some "R1"%string)
          (one_call_renewing ++
           [RefreshRespond 0 (token_pair (str "A2") (str "R2")); StoreSet 0 true]))
       0 [Respond 0 unauthorized]
       (state_after (Some "R1"%string)
          (one_call_renewing ++
           [RefreshRespond 0 (token_pair (str "A2") (str "R2")); StoreSet 0 true;
            Respond 0 unauthorized]))
       ltac:(vm_compute; reflexivity) ltac:(vm_compute; reflexivity)
       ltac:(vm_compute; reflexivity)) as (H1 & _ & H3).
  split; [exact H1 | exact H3].
Defined.

(** X16.  The second half of the retry guard of line 47: when the marked
    request of a call fails - with a 401 or with anything else - the call
    is rejected with that very error; the log gains that one entry, so no
    refresh POST is sent, and the mutex, the queue and the secure store are
    left as they were. *)
Theorem marked_failure_is_returned (s : State) (i : nat) (r : option response) :
  phase_of i s = Some AwaitResponse ->
  _retry (request_of i s) = true ->
  exists s',
    step s (Respond i (Failed r)) = Some s' /\
    emitted s s' = [Returned i (Err (AxiosError (ApiCall i) r))] /\
    (op_of i s = Fetch ->
     phase_of i s' = Some (Done (Some (Err (AxiosError (ApiCall i) r))))) /\
    isRefreshing s' = isRefreshing s /\ failedQueue s' = failedQueue s /\
    secureStore s' = secureStore s.
Proof.
  intros Hp Hm. pose proof (phase_of_lt _ _ _ Hp) as Hi.
  exists (settle i (Err (AxiosError (ApiCall i) r)) s). split.
  { cbn [step]. rewrite Hp. unfold on_rejected. by rewrite Hm, orb_true_r. }
  destruct (settle_same i (Err (AxiosError (ApiCall i) r)) s) as (Hst & Hr & _).
  split; [apply emitted_app, settle_log |].
  split; [intros Ho; rewrite settle_phase_of by done; by rewrite Ho |].
  split; [done |]. split; [apply settle_failedQueue | done].
Qed.

Lemma marked_failure_is_returned_witness :
  exists s',
    step (state_after (Some "R1"%string)
            (one_call_renewing ++
             [RefreshRespond 0 (token_pair (str "A2") (str "R2")); StoreSet 0 true]))
      (Respond 0 unauthorized) = Some s' /\
    phase_of 0 s' =
      Some (Done (Some (Err (AxiosError (ApiCall 0)
                               (Some {| status := 401; data := None |}))))).
Proof.
  destruct (marked_failure_is_returned
              (state_after (Some "R1"%string)
                 (one_call_renewing ++
                  [RefreshRespond 0 (token_pair (str "A2") (str "R2")); StoreSet 0 true]))
              0 (Some {| status := 401; data := None |})
              ltac:(vm_compute; reflexivity) ltac:(vm_compute; reflexivity))
    as (s' & H & _ & Hp & _).
  exists s'. split; [exact H | exact (Hp eq_refl)].
Defined.

(** ** The request interceptor *)

Lemma adds_refl P s s' : log s' = log s -> adds P s s'.
Proof. intros E. exists []. by rewrite app_nil_r. Qed.

Lemma adds_trans P s s1 s2 : adds P s s1 -> adds P s1 s2 -> adds P s s2.
Proof.
  intros (l1 & E1 & H1) (l2 & E2 & H2). exists (l1 ++ l2).
  split; [by rewrite E2, E1, app_assoc | by apply Forall_app].
Qed.

Lemma adds_settle (P : obs -> Prop) i r s : P (Returned i r) -> adds P s (settle i r s).
Proof. intros HP. exists [Returned i r]. split; [apply settle_log | by constructor]. Qed.

Lemma adds_apiClient acc i s :
  accessToken s = acc -> truthy acc = true -> adds (sent_with acc) s (apiClient i s).
Proof.
  intros <- Ht. eexists. split; [apply apiClient_log |].
  constructor; [| constructor]. cbn. unfold request_interceptor. by rewrite Ht.
Qed.

Lemma adds_waiter_resolve acc p token s :
  accessToken s = acc -> truthy acc = true ->
  adds (sent_with acc) s (waiter_resolve p token s).
Proof.
  intros Ha Ht. unfold waiter_resolve.
  eapply adds_trans; [| by apply adds_apiClient].
  exists [WaiterResolved p token]. split; [done | by constructor].
Qed.

Lemma adds_queue_body acc error token s p :
  accessToken s = acc -> truthy acc = true ->
  adds (sent_with acc) s (queue_body error token s p).
Proof.
  intros Ha Ht. unfold queue_body. destruct error as [e |].
  - exists [WaiterRejected p e; Returned p (Err e)].
    split; [apply waiter_reject_log | by repeat constructor].
  - destruct (truthy token); [by apply adds_waiter_resolve | by apply adds_refl].
Qed.

Lemma adds_loop_resolve acc token q s :
  accessToken s = acc -> truthy acc = true ->
  adds (sent_with acc) s (foldl (queue_body None token) s q).
Proof.
  revert s. induction q as [| p q IH]; intros s Ha Ht; cbn [foldl].
  - by apply adds_refl.
  - eapply adds_trans; [by apply (adds_queue_body acc None token s p) |].
    apply IH; [| done]. unfold queue_body.
    destruct (truthy token); [| done]. by rewrite <- Ha.
Qed.

Lemma adds_refresh_catch (P : obs -> Prop) i e s :
  (forall p, P (WaiterRejected p e)) -> (forall p, P (Returned p (Err e))) ->
  adds P s (refresh_catch i e s).
Proof.
  intros H1 H2. exists (rejections e (failedQueue s)).
  split; [apply (processQueue_reject_log e null s) |].
  apply Forall_forall. intros o (p & Ho & _)%list_elem_of_bind.
  apply elem_of_cons in Ho as [-> | ->%list_elem_of_singleton]; done.
Qed.

(** The header of every request that leaves while an access token is in
    memory, as the request interceptor builds it. *)
Lemma step_sent_with (s : State) (ev : event) (s' : State) :
  step s ev = Some s' ->
  truthy (accessToken s) = true ->
  forall j o hdr retry b,
    Sent j o hdr retry b ∈ emitted s s' -> hdr = Some (Bearer (accessToken s)).
Proof.
  intros Hstep Ht.
  assert (adds (sent_with (accessToken s)) s s') as (l & El & Hl).
  { destruct ev as [| | | | | i r | i r | i ok | i ok | i ok]; cbn [step] in Hstep;
      try (destruct (phase_of i s) as [p0 |] eqn:Hp; [| done]).
    - injection Hstep as <-. by apply (adds_apiClient _ _ (spawn Fetch AwaitResponse s)).
    - injection Hstep as <-. by apply (adds_apiClient _ _ (spawn Login AwaitResponse s)).
    - injection Hstep as <-. by apply (adds_apiClient _ _ (spawn Register AwaitResponse s)).
    - injection Hstep as <-. by apply adds_refl.
    - injection Hstep as <-. by apply adds_refl.
    - destruct p0; try done. destruct r as [resp | resp]; injection Hstep as <-.
      + by apply adds_settle.
      + unfold on_rejected. destruct (negb (is401 resp) || _retry (request_of i s)).
        * by apply adds_settle.
        * by apply adds_refl.
    - destruct p0; try done. injection Hstep as <-. unfold on_refresh_reply.
      destruct r as [resp | resp]; [| by apply adds_refresh_catch].
      destruct (data resp); [by apply adds_refl | by apply adds_refresh_catch].
    - destruct p0; try done.
      + remember (getRefreshToken ok s) as v eqn:Ev. clear Ev. injection Hstep as <-.
        unfold on_refreshToken. destruct v as [| | rt]; try by apply adds_settle.
        destruct (negb (truthy (str rt))); [by apply adds_settle |].
        destruct (isRefreshing s); [by apply adds_refl |].
        exists [RefreshPost i rt]. split; [done | by constructor].
      + injection Hstep as <-. unfold on_mount_token.
        destruct (truthy (getRefreshToken ok s)); [| by apply adds_refl].
        by apply (adds_apiClient _ _ (set_request i _ s)).
    - destruct p0 as [| | | | rt a r | | | a r | | |]; try done; injection Hstep as <-.
      + unfold on_refresh_stored.
        destruct (setRefreshToken r ok s) as [s0 |] eqn:E; [| by apply adds_refresh_catch].
        assert (log s0 = log s /\ accessToken s0 = accessToken s) as [El Ea].
        { unfold setRefreshToken in E. destruct r; try done. destruct ok; [| done].
          by injection E as <-. }
        set (s1 := set_request i _ s0).
        assert (adds (sent_with (accessToken s)) s (processQueue None a s1)) as H1.
        { rewrite processQueue_unfold.
          destruct (adds_loop_resolve (accessToken s) a (failedQueue s1) s1 Ea Ht)
            as (l & E1 & Hl).
          exists l. split; [| done]. simpl_fields. rewrite E1. by rewrite <- El. }
        eapply adds_trans; [exact H1 |].
        assert (adds (sent_with (accessToken s)) (processQueue None a s1)
                  (apiClient i (processQueue None a s1))) as (l & E2 & Hl).
        { apply adds_apiClient; [| done]. rewrite processQueue_unfold. simpl_fields.
          destruct (loop_resolve_keeps a (failedQueue s1) s1) as [-> _]. done. }
        by exists l.
      + unfold on_auth_stored.
        destruct (setRefreshToken (str r) ok s) as [s0 |] eqn:E.
        * assert (log s0 = log s) as El.
          { unfold setRefreshToken in E. destruct ok; [| done]. by injection E as <-. }
          apply adds_refl. by destruct (op_of i (setIsAuthenticated true s0)).
        * apply adds_refl. by destruct (op_of i s).
    - assert (log (clearRefreshToken ok s) = log s) as Ec by (by destruct ok).
      destruct p0; try done; injection Hstep as <-.
      + unfold on_refresh_cleared.
        exists [Returned i (Err refreshError)]. split; [| by constructor].
        rewrite settle_log. simpl_fields. by rewrite Ec.
      + by apply adds_refl.
      + by apply adds_refl. }
  intros j o hdr retry b Hin. rewrite (emitted_app _ _ _ El) in Hin.
  rewrite Forall_forall in Hl. by apply Hl in Hin.
Qed.

(** X17.  While an access token [a] is in memory, every request that leaves
    through [apiClient] carries exactly that token, as the [Authorization]
    header ["Bearer " ++ a]: a first attempt, the retry after a renewal,
    and the requests of the waiters, whose header lines 61 and 81 had set
    from the response. *)
Theorem requests_carry_the_token (s : State) (ev : event) (s' : State) (a : string) :
  step s ev = Some s' ->
  accessToken s = str a -> a <> ""%string ->
  forall j o hdr retry b,
    Sent j o hdr retry b ∈ emitted s s' -> hdr = Some ("Bearer " ++ a)%string.
Proof.
  intros Hstep Ha Hne j o hdr retry b Hin.
  assert (truthy (accessToken s) = true) as Ht.
  { rewrite Ha. cbn. by apply String.eqb_neq in Hne as ->. }
  rewrite (step_sent_with s ev s' Hstep Ht j o hdr retry b Hin), Ha. done.
Qed.

Lemma requests_carry_the_token_witness :
  exists hdr,
    Sent 1 Fetch hdr false None ∈
      emitted renewal_answered
        (state_after (Some "R1"%string)
           (one_waiter_renewing ++
            [RefreshRespond 0 (token_pair (str "A2") (str "R2")); StoreSet 0 true])) /\
    hdr = Some "Bearer A2"%string.
Proof.
  exists (Some "Bearer A2"%string).
  split; [vm_compute; apply list_elem_of_further; apply list_elem_of_here |].
  apply (requests_carry_the_token renewal_answered (StoreSet 0 true)
           (state_after (Some "R1"%string)
              (one_waiter_renewing ++
               [RefreshRespond 0 (token_pair (str "A2") (str "R2")); StoreSet 0 true]))
           "A2"%string
           ltac:(vm_compute; reflexivity) ltac:(vm_compute; reflexivity)
           ltac:(discriminate) 1 Fetch _ false None).
  vm_compute. apply list_elem_of_further. apply list_elem_of_here.
Defined.

(** ** A refresh response without an access token *)

(** X18.  The refresh response is not validated (line 77 only destructures it),
    so a 2xx body whose [access_token] is missing, [null] or empty is taken
    as a success: the falsy value replaces the access token in memory, the
    new refresh token is stored, and the request of the call is sent again
    with the header [Bearer undefined] ([Bearer null], [Bearer ]), which
    the request interceptor leaves as it is. *)
Theorem renewal_without_access_token (s : State) (i : nat) (rt : string) (resp : response)
    (d : fields) (r : string) :
  phase_of i s = Some (AwaitRefreshPost rt) ->
  data resp = Some d -> truthy (access_token d) = false -> refresh_token d = str r ->
  exists s',
    run s [RefreshRespond i (Fulfilled resp); StoreSet i true] = Some s' /\
    emitted s s' =
      [Sent i (op_of i s) (Some (Bearer (access_token d))) (_retry (request_of i s))
         (body (request_of i s))] /\
    accessToken s' = access_token d /\ secureStore s' = Some r /\
    isRefreshing s' = false /\ failedQueue s' = [] /\
    phase_of i s' = Some AwaitResponse.
Proof.
  intros Hp Hd Ha Hr. pose proof (phase_of_lt _ _ _ Hp) as Hi.
  set (a := access_token d) in *.
  pose proof (refresh_ok_spec s i rt resp d Hp Hd) as H1. rewrite Hr in H1. fold a in H1.
  set (s1 := set_phase i (AwaitSetRefreshToken rt a (str r)) (setAccessToken a s)) in H1.
  assert (phase_of i s1 = Some (AwaitSetRefreshToken rt a (str r))) as Hp1.
  { by apply (phase_of_set_phase i _ (setAccessToken a s)). }
  assert (length (tasks s1) = length (tasks s)) as Hlen1.
  { unfold s1. by rewrite length_set_phase. }
  set (c := {| _retry := _retry (request_of i (set_secureStore (Some r) s1));
               Authorization := Some (Bearer a);
               body := body (request_of i (set_secureStore (Some r) s1)) |}).
  set (s2 := set_failedQueue [] (set_request i c (set_secureStore (Some r) s1))).
  assert (step s1 (StoreSet i true) = Some (set_isRefreshing false (apiClient i s2))) as H2.
  { cbn [step]. rewrite Hp1. unfold on_refresh_stored. cbn [setRefreshToken].
    by rewrite processQueue_skip. }
  assert (i < length (tasks (set_secureStore (Some r) s1))) as Hi1 by (simpl_fields; lia).
  assert (request_of i s2 = c) as Hc.
  { unfold s2. change (request_of i (set_failedQueue [] ?x)) with (request_of i x).
    by apply request_of_set_request. }
  assert (op_of i s2 = op_of i s) as Ho.
  { unfold s2. change (op_of i (set_failedQueue [] ?x)) with (op_of i x).
    rewrite op_of_set_request. change (op_of i (set_secureStore (Some r) s1)) with (op_of i s1).
    unfold s1. by rewrite op_of_set_phase. }
  assert (_retry c = _retry (request_of i s)) as Hrc.
  { unfold c. cbn [_retry].
    change (request_of i (set_secureStore (Some r) s1)) with (request_of i s1).
    unfold s1. by rewrite request_of_set_phase. }
  assert (body c = body (request_of i s)) as Hbc.
  { unfold c. cbn [body].
    change (request_of i (set_secureStore (Some r) s1)) with (request_of i s1).
    unfold s1. by rewrite request_of_set_phase. }
  exists (set_isRefreshing false (apiClient i s2)).
  split; [cbn [run]; by rewrite H1, H2 |].
  split.
  { apply emitted_app. simpl_fields. rewrite apiClient_log, Hc, Ho.
    unfold request_interceptor. change (accessToken s2) with a. rewrite Ha.
    by rewrite Hrc, Hbc. }
  split; [done |]. split; [done |]. split; [done |]. split; [done |].
  apply (apiClient_phase i s2). unfold s2. simpl_fields. by rewrite length_alter.
Qed.

Lemma renewal_without_access_token_witness :
  exists s',
    run (state_after (Some "R1"%string) one_call_renewing)
      [RefreshRespond 0 no_access_token; StoreSet 0 true] = Some s' /\
    emitted (state_after (Some "R1"%string) one_call_renewing) s' =
      [Sent 0 Fetch (Some "Bearer undefined"%string) true None] /\
    accessToken s' = undefined /\ secureStore s' = Some "R2"%string.
Proof.
  destruct (renewal_without_access_token (state_after (Some "R1"%string) one_call_renewing)
              0 "R1"
              {| status := 200;
                 data := Some {| access_token := undefined; refresh_token := str "R2";
                                 token_type := str "bearer" |} |}
              {| access_token := undefined; refresh_token := str "R2";
                 token_type := str "bearer" |} "R2"
              ltac:(vm_compute; reflexivity) eq_refl eq_refl eq_refl)
    as (s' & H & He & Ha & Hs & _).
  exists s'. split; [exact H |]. split; [exact He |]. split; [exact Ha | exact Hs].
Defined.

(** ** The waiters of a successful renewal *)





(** ** The retry of a marked request is the last one *)

Lemma quiet_refl i s s' : log s' = log s -> adds (fun o => sent_by i o = false) s s'.
Proof. apply adds_refl. Qed.

Lemma quiet_settle i j r s : adds (fun o => sent_by i o = false) s (settle j r s).
Proof. by apply adds_settle. Qed.

Lemma quiet_apiClient i j s :
  i <> j -> adds (fun o => sent_by i o = false) s (apiClient j s).
Proof.
  intros Hne. eexists. split; [apply apiClient_log |].
  constructor; [| constructor]. cbn. by apply Nat.eqb_neq.
Qed.

Lemma quiet_processQueue i error token s :
  i ∉ failedQueue s -> adds (fun o => sent_by i o = false) s (processQueue error token s).
Proof.
  intros Hi. destruct (processQueue_log error token s) as (l & E & F).
  exists l. split; [done |]. eapply Forall_impl; [apply F |].
  intros [j ? ? ? ? | | | |]; cbn; try done.
  intros [_ Hj]. apply Nat.eqb_neq. by intros ->.
Qed.

Lemma quiet_refresh_catch i j e s :
  adds (fun o => sent_by i o = false) s (refresh_catch j e s).
Proof. by apply adds_refresh_catch. Qed.

Lemma quiet_none i s s' :
  adds (fun o => sent_by i o = false) s s' -> List.filter (sent_by i) (emitted s s') = [].
Proof.
  intros (l & E & F). rewrite (emitted_app _ _ _ E). clear E.
  induction F as [| o l Ho _ IH]; cbn [List.filter]; [done |].
  cbn beta in Ho. by rewrite Ho.
Qed.

Lemma ahead_settled o r : retries_ahead (Some (settled o r)) = 0.
Proof. destruct o, r as [resp | e]; cbn; try done; by destruct (parse resp) as [[a rt] |]. Qed.

Lemma hop_ahead o p p' :
  hop o p p' -> waits p = false ->
  retries_ahead (Some p') <= retries_ahead (Some p).
Proof.
  intros Hh Hw. inversion Hh; subst; try done; rewrite ?ahead_settled; cbn; lia.
Qed.

Lemma marked_lookup s i :
  unmarked s -> _retry (request_of i s) = true ->
  exists t, tasks s !! i = Some t /\ waits (ph t) = false.
Proof.
  intros Hun Hm. unfold request_of in Hm.
  destruct (tasks s !! i) as [t |] eqn:Et; [| done].
  exists t. split; [done |]. destruct (waits (ph t)) eqn:Hw; [| done].
  by rewrite (Hun i t Et Hw) in Hm.
Qed.

Lemma step_ahead s ev s' i :
  queue_inv s -> unmarked s -> _retry (request_of i s) = true ->
  step s ev = Some s' ->
  retries_ahead (phase_of i s') <= retries_ahead (phase_of i s).
Proof.
  intros Hinv Hun Hm Hstep.
  destruct (marked_lookup s i Hun Hm) as (t & Et & Hw).
  assert (phase_of i s = Some (ph t)) as Hp by (apply phase_of_Some; by exists t).
  destruct (actor ev) as [k |] eqn:Ha.
  - pose proof (step_hops s ev s' k Hinv Hstep Ha) as Hupd.
    destruct (lookup_lt_is_Some_2 (tasks s') i) as [t' Et'].
    { rewrite (upd_length _ _ _ Hupd). by eapply lookup_lt_Some. }
    assert (phase_of i s' = Some (ph t')) as Hp' by (apply phase_of_Some; by exists t').
    destruct (upd_phase _ _ _ i t' Hupd Et') as (t0 & Et0 & _ & [Hph | Hh]).
    + rewrite Et in Et0. injection Et0 as <-. by rewrite Hp, Hp', Hph.
    + destruct Hh as (p0 & Hp0 & Hh & _). rewrite Hp in Hp0. injection Hp0 as <-.
      rewrite Hp, Hp'. by eapply hop_ahead.
  - destruct (step_spawn s ev s' Hstep Ha) as (Hlen & Hsp & _).
    destruct (lookup_lt_is_Some_2 (tasks s') i) as [t' Et'].
    { rewrite Hlen. apply lookup_lt_Some in Et. lia. }
    assert (phase_of i s' = Some (ph t')) as Hp' by (apply phase_of_Some; by exists t').
    destruct (Hsp i t' Et') as [(t0 & Et0 & _ & Hph) | [-> _]].
    + rewrite Et in Et0. injection Et0 as <-. by rewrite Hp, Hp', Hph.
    + apply lookup_lt_Some in Et. lia.
Qed.

Lemma step_sent s ev s' i :
  queue_inv s -> unmarked s -> _retry (request_of i s) = true ->
  step s ev = Some s' ->
  List.filter (sent_by i) (emitted s s') = [] \/
  (length (List.filter (sent_by i) (emitted s s')) = 1 /\
   retries_ahead (phase_of i s) = 1 /\ phase_of i s' = Some AwaitResponse).
Proof.
  intros Hinv Hun Hm Hstep.
  destruct (marked_lookup s i Hun Hm) as (t & Et & Hw).
  assert (phase_of i s = Some (ph t)) as Hp by (apply phase_of_Some; by exists t).
  assert (i < length (tasks s)) as Hi by (by eapply lookup_lt_Some).
  assert (i ∉ failedQueue s) as Hq.
  { intros Hin. destruct Hinv as [_ Hinv]. rewrite (Hinv i Hin) in Hp.
    injection Hp as Hp. by rewrite <- Hp in Hw. }
  destruct ev as [| | | | | k r | k r | k ok | k ok | k ok]; cbn [step] in Hstep.
  - injection Hstep as <-. left. apply quiet_none.
    eapply adds_trans; [| apply quiet_apiClient; lia]. by apply quiet_refl.
  - injection Hstep as <-. left. apply quiet_none.
    eapply adds_trans; [| apply quiet_apiClient; lia]. by apply quiet_refl.
  - injection Hstep as <-. left. apply quiet_none.
    eapply adds_trans; [| apply quiet_apiClient; lia]. by apply quiet_refl.
  - injection Hstep as <-. left. apply quiet_none. by apply quiet_refl.
  - injection Hstep as <-. left. apply quiet_none. by apply quiet_refl.
  - (* the request completes *)
    left. apply quiet_none.
    destruct (phase_of k s) as [[] |]; try done.
    destruct r as [resp | resp]; injection Hstep as <-.
    + apply quiet_settle.
    + unfold on_rejected.
      destruct (negb (is401 resp) || _retry (request_of k s));
        [apply quiet_settle | by apply quiet_refl].
  - (* the refresh POST completes *)
    left. apply quiet_none.
    destruct (phase_of k s) as [[] |]; try done. injection Hstep as <-.
    unfold on_refresh_reply. destruct r as [resp | resp]; [| apply quiet_refresh_catch].
    destruct (data resp); [by apply quiet_refl | apply quiet_refresh_catch].
  - (* the stored token has been read *)
    left. apply quiet_none.
    destruct (phase_of k s) as [[] |] eqn:Hk; try done; injection Hstep as <-.
    + unfold on_refreshToken.
      destruct (getRefreshToken ok s) as [| | rt]; try apply quiet_settle.
      destruct (negb (truthy (str rt))); [apply quiet_settle |].
      destruct (isRefreshing s); [by apply quiet_refl |].
      eexists [_]. split; [done |]. by repeat constructor.
    + unfold on_mount_token.
      destruct (truthy (getRefreshToken ok s)); [| by apply quiet_refl].
      apply (quiet_apiClient i k (set_request k _ s)). intros ->.
      rewrite Hp in Hk. injection Hk as Hk. by rewrite Hk in Hw.
  - (* [setRefreshToken] has completed *)
    destruct (phase_of k s) as [[| e | | rt0 | rt0 a0 r0 | e | | a0 r0 | | | res] |] eqn:Hk;
      try done; injection Hstep as <-.
    + unfold on_refresh_stored.
      destruct (setRefreshToken r0 ok s) as [s1 |] eqn:Hs1;
        [| left; apply quiet_none, quiet_refresh_catch].
      assert (tasks s1 = tasks s /\ log s1 = log s /\ failedQueue s1 = failedQueue s)
        as (Ht1 & Hl1 & Hq1).
      { unfold setRefreshToken in Hs1.
        destruct r0; try done. destruct ok; [| done]. by injection Hs1 as <-. }
      set (c := {| _retry := _ ; Authorization := _ ; body := _ |}).
      set (s2 := set_request k c s1).
      assert (adds (fun o => sent_by i o = false) s (processQueue None a0 s2))
        as Hadd.
      { eapply adds_trans; [| apply quiet_processQueue].
        - apply quiet_refl. subst s2. cbn. done.
        - subst s2. cbn. by rewrite Hq1. }
      destruct (decide (i = k)) as [-> | Hne].
      * right. split; [| split].
        -- destruct Hadd as (l & El & Fl).
           erewrite emitted_app;
             [| cbn [log set_isRefreshing]; rewrite apiClient_log, El, <- app_assoc; done].
           rewrite List.filter_app, length_app.
           assert (List.filter (sent_by k) l = []) as ->.
           { clear El. induction Fl as [| o l Ho _ IH]; cbn [List.filter]; [done |].
             cbn beta in Ho. by rewrite Ho. }
           cbn. by rewrite Nat.eqb_refl.
        -- by rewrite Hk.
        -- change (phase_of k (apiClient k (processQueue None a0 s2)) =
                   Some AwaitResponse).
           apply apiClient_phase.
           rewrite (upd_length (fun _ _ => True) (tasks s2)
                      (tasks (processQueue None a0 s2)))
             by (by apply processQueue_upd).
           subst s2. cbn. rewrite length_alter. by rewrite Ht1.
      * left. apply quiet_none.
        eapply adds_trans; [apply Hadd |].
        eapply adds_trans; [by apply quiet_apiClient |]. by apply quiet_refl.
    + left. apply quiet_none. apply quiet_refl.
      unfold on_auth_stored, setRefreshToken, mount_catch.
      destruct ok; cbn; by destruct (op_of k _).
  - (* [clearRefreshToken] has completed *)
    left. apply quiet_none.
    destruct (phase_of k s) as [[] |] eqn:Hk; try done; injection Hstep as <-.
    + unfold on_refresh_cleared.
      eapply adds_trans; [| apply quiet_settle]. apply quiet_refl. by destruct ok.
    + apply quiet_refl. by destruct ok.
    + apply quiet_refl. by destruct ok.
Qed.

Lemma step_sent_count s ev s' i :
  queue_inv s -> unmarked s -> _retry (request_of i s) = true ->
  step s ev = Some s' ->
  length (List.filter (sent_by i) (emitted s s')) + retries_ahead (phase_of i s') <=
  retries_ahead (phase_of i s).
Proof.
  intros Hinv Hun Hm Hstep.
  pose proof (step_ahead s ev s' i Hinv Hun Hm Hstep) as Ha.
  destruct (step_sent s ev s' i Hinv Hun Hm Hstep) as [-> | (-> & -> & ->)]; cbn; lia.
Qed.

Lemma run_sent_count tr s s' i :
  queue_inv s -> unmarked s -> _retry (request_of i s) = true ->
  run s tr = Some s' ->
  length (List.filter (sent_by i) (emitted s s')) + retries_ahead (phase_of i s') <=
  retries_ahead (phase_of i s).
Proof.
  revert s. induction tr as [| ev tr IH]; intros s Hq Hu Hm Hrun; cbn in Hrun.
  - injection Hrun as <-. unfold emitted. rewrite drop_all. cbn. lia.
  - destruct (step s ev) as [s1 |] eqn:Hstep; [| done].
    pose proof (step_sent_count s ev s1 i Hq Hu Hm Hstep) as H1.
    destruct (step_marked_quiet s ev s1 i Hq Hu Hm Hstep) as [Hm1 _].
    pose proof (IH s1 (step_queue_inv _ _ _ Hq Hstep)
                  (step_unmarked _ _ _ Hq Hu Hstep) Hm1 Hrun) as H2.
    rewrite (emitted_step_run _ _ _ _ _ Hstep Hrun), List.filter_app, length_app. lia.
Qed.

(** X24.  The retry of line 83 is the last request of the call: once line 69
    has marked the request of a call, that request leaves through
    [apiClient] at most once more, whatever happens afterwards, and not at
    all once the call is past the awaits of lines 73 and 79. *)
Theorem marked_request_sent_once (stored : option string) (tr : list event) (s : State)
    (i : nat) (tr' : list event) (s' : State) :
  run (init stored) tr = Some s ->
  _retry (request_of i s) = true ->
  run s tr' = Some s' ->
  length (List.filter (sent_by i) (emitted s s')) <= retries_ahead (phase_of i s) <= 1.
Proof.
  intros Hrun Hm Hrun'.
  destruct (run_unmarked tr (init stored) s (queue_inv_init stored)
              (unmarked_init stored) Hrun) as [Hq Hu].
  pose proof (run_sent_count tr' s s' i Hq Hu Hm Hrun') as H.
  split; [lia |]. destruct (phase_of i s) as [[] |]; cbn; lia.
Qed.

Lemma marked_request_sent_once_witness :
  length (List.filter (sent_by 0)
            (emitted (state_after (Some "R1"%string) one_call_renewing)
               (state_after (Some "R1"%string)
                  (one_call_renewing ++
                   [RefreshRespond 0 (token_pair (str "A2") (str "R2"));
                    StoreSet 0 true; Respond 0 unauthorized])))) <=
  retries_ahead (phase_of 0 (state_after (Some "R1"%string) one_call_renewing)) <= 1.
Proof.
  exact (marked_request_sent_once (Some "R1"%string) one_call_renewing
           (state_after (Some "R1"%string) one_call_renewing) 0
           [RefreshRespond 0 (token_pair (str "A2") (str "R2"));
            StoreSet 0 true; Respond 0 unauthorized]
           (state_after (Some "R1"%string)
              (one_call_renewing ++
               [RefreshRespond 0 (token_pair (str "A2") (str "R2"));
                StoreSet 0 true; Respond 0 unauthorized]))
           ltac:(vm_compute; reflexivity) ltac:(vm_compute; reflexivity)
           ltac:(vm_compute; reflexivity)).
Defined.

(** * The forms *)

Lemma trimStart_nil s : trimStart s = [] <-> Forall (fun c => isWhiteSpace c = true) s.
Proof.
  induction s as [| c s IH]; cbn; [done |].
  destruct (isWhiteSpace c) eqn:Hc.
  - rewrite IH. split; [by constructor | by intros [_ H]%Forall_cons].
  - split; [done | intros [H _]%Forall_cons; congruence].
Qed.

Lemma trimStart_head s c s' : trimStart s = c :: s' -> isWhiteSpace c = false.
Proof.
  induction s as [| c0 s IH]; cbn; [done |].
  destruct (isWhiteSpace c0) eqn:Hc; [done |]. by intros [= <- _].
Qed.

Lemma trimStart_Forall s :
  Forall (fun c => isWhiteSpace c = true) (trimStart s) -> trimStart s = [].
Proof.
  destruct (trimStart s) as [| c s'] eqn:E; [done |].
  intros [H _]%Forall_cons. apply trimStart_head in E. congruence.
Qed.

Lemma trim_nil s : trim s = [] <-> Forall (fun c => isWhiteSpace c = true) s.
Proof.
  unfold trim, trimEnd. split.
  - intros E. apply (f_equal (@rev N)) in E. rewrite rev_involutive in E. cbn in E.
    apply trimStart_nil in E. apply Forall_rev in E. rewrite rev_involutive in E.
    by apply trimStart_nil, trimStart_Forall.
  - intros H. apply trimStart_nil in H. rewrite H. done.
Qed.

Lemma falsy_nil s : falsy s = true <-> s = [].
Proof. by destruct s. Qed.

Lemma some_visible s :
  ~ Forall (fun c => isWhiteSpace c = true) s <->
  Exists (fun c => isWhiteSpace c = false) s.
Proof.
  induction s as [| c s IH].
  - split; [intros H; by destruct H | by intros H%Exists_nil].
  - rewrite Forall_cons, Exists_cons, <- IH. destruct (isWhiteSpace c); split.
    + intros H. right. intros Hs. by apply H.
    + intros [? | H] [_ Hs]; [done | by apply H].
    + by left.
    + by intros _ [? _].
Qed.

Lemma falsy_trim s : falsy (trim s) = false <-> Exists (fun c => isWhiteSpace c = false) s.
Proof. by rewrite <- not_true_iff_false, falsy_nil, trim_nil, some_visible. Qed.

Lemma trim_all_white s :
  Forall (fun c => isWhiteSpace c = true) s -> falsy (trim s) = true.
Proof. intros H. by apply falsy_nil, trim_nil. Qed.

(** X20.  [handleLogin] calls [login] exactly when the e-mail field and the
    password field each hold something other than white space; [login] is
    then given the e-mail field trimmed and the password field as typed. *)
Theorem handleLogin_submits (email password e p : text) :
  handleLogin email password = Submit e p <->
  Exists (fun c => isWhiteSpace c = false) email /\
  Exists (fun c => isWhiteSpace c = false) password /\
  e = trim email /\ p = password.
Proof.
  unfold handleLogin. rewrite <- !falsy_trim.
  destruct (falsy (trim email)), (falsy (trim password)); cbn; split;
    try done; try (by intros (? & ? & _)).
  - by intros [= <- <-].
  - by intros (_ & _ & -> & ->).
Qed.

Lemma handleLogin_submits_witness :
  handleLogin [32; 97; 64; 98; 32]%N [32; 112; 119]%N = Submit [97; 64; 98]%N [32; 112; 119]%N.
Proof.
  apply (proj2 (handleLogin_submits [32; 97; 64; 98; 32]%N [32; 112; 119]%N
                  [97; 64; 98]%N [32; 112; 119]%N)).
  split; [apply Exists_cons_tl, Exists_cons_hd; reflexivity |].
  split; [apply Exists_cons_tl, Exists_cons_hd; reflexivity |].
  split; reflexivity.
Defined.

(** X21.  [handleRegister] calls [register] exactly when the e-mail field holds
    something other than white space, the password has at least 8 code
    units and the confirmation equals it: the tests for an empty password
    and an empty confirmation refuse nothing the other two tests would let
    through.  The password is not trimmed, and nothing is asked of it but
    its length. *)
Theorem handleRegister_submits (email password confirm e p : text) :
  handleRegister email password confirm = Submit e p <->
  Exists (fun c => isWhiteSpace c = false) email /\
  8 <= length password /\ confirm = password /\
  e = trim email /\ p = password.
Proof.
  unfold handleRegister. rewrite <- falsy_trim.
  destruct (falsy (trim email)); cbn [orb].
  { split; [done | by intros (? & _)]. }
  destruct (Nat.ltb_spec (length password) 8) as [Hlt | Hge].
  { destruct (falsy password || falsy confirm); (split; [done | intros (_ & ? & _); lia]). }
  destruct password as [| c password]; [cbn in Hge; lia |]. cbn [falsy orb].
  destruct (decide (c :: password = confirm)) as [<- | Hne].
  - cbn [falsy]. rewrite bool_decide_eq_true_2 by done. cbn. split.
    + by intros [= <- <-].
    + by intros (_ & _ & _ & -> & ->).
  - destruct (falsy confirm).
    + split; [done | by intros (_ & _ & -> & _)].
    + rewrite bool_decide_eq_false_2 by done. cbn.
      split; [done | by intros (_ & _ & -> & _)].
Qed.

Lemma handleRegister_submits_witness :
  handleRegister [97; 64; 98]%N [49; 50; 51; 52; 53; 54; 55; 56]%N
    [49; 50; 51; 52; 53; 54; 55; 56]%N =
  Submit [97; 64; 98]%N [49; 50; 51; 52; 53; 54; 55; 56]%N.
Proof.
  apply (proj2 (handleRegister_submits [97; 64; 98]%N [49; 50; 51; 52; 53; 54; 55; 56]%N
                  [49; 50; 51; 52; 53; 54; 55; 56]%N [97; 64; 98]%N
                  [49; 50; 51; 52; 53; 54; 55; 56]%N)).
  split; [apply Exists_cons_hd; reflexivity |].
  split; [cbn; lia |]. split; [reflexivity |]. split; reflexivity.
Defined.

(** X22.  The two forms disagree on passwords made of white space: the sign-up
    form accepts one of 8 code units or more and registers it as typed,
    the sign-in form refuses it before anything is sent ("Please enter
    email and password"), so the account cannot be signed in to. *)
Theorem blank_password_registers_but_cannot_sign_in (email password : text) :
  Exists (fun c => isWhiteSpace c = false) email ->
  Forall (fun c => isWhiteSpace c = true) password ->
  8 <= length password ->
  handleRegister email password password = Submit (trim email) password /\
  handleLogin email password = Alert "Error" "Please enter email and password".
Proof.
  intros He Hp Hlen. split.
  - apply falsy_trim in He. unfold handleRegister. rewrite He. cbn [orb].
    destruct password as [| c password]; [cbn in Hlen; lia |]. cbn [falsy orb].
    destruct (Nat.ltb_spec (length (c :: password)) 8) as [Hlt | _]; [lia |].
    by rewrite bool_decide_eq_true_2.
  - unfold handleLogin. rewrite (trim_all_white password Hp). by rewrite orb_true_r.
Qed.

Lemma blank_password_registers_but_cannot_sign_in_witness :
  handleRegister [97; 64; 98]%N [32; 32; 32; 32; 32; 32; 32; 32]%N
    [32; 32; 32; 32; 32; 32; 32; 32]%N =
  Submit [97; 64; 98]%N [32; 32; 32; 32; 32; 32; 32; 32]%N /\
  handleLogin [97; 64; 98]%N [32; 32; 32; 32; 32; 32; 32; 32]%N =
  Alert "Error" "Please enter email and password".
Proof.
  apply (blank_password_registers_but_cannot_sign_in [97; 64; 98]%N
           [32; 32; 32; 32; 32; 32; 32; 32]%N).
  - apply Exists_cons_hd. reflexivity.
  - repeat constructor.
  - cbn. lia.
Defined.

(** * Ratings and their colours *)

(** X23.  [scoreToRating] and [scoreToColor] cut the scale at the same points:
    for every score but [NaN] - below 0, above 10 and the infinities
    included - the colour is the one [colors] names after the rating.  For
    [NaN] they part: the rating is 'epic', the colour the one of 'flat'. *)
Theorem rating_and_colour_agree :
  (forall score, score <> NaN -> scoreToColor score = color_of (scoreToRating score)) /\
  scoreToRating NaN = "epic"%string /\ scoreToColor NaN = colors.scoreFlat /\
  colors.scoreFlat <> color_of "epic".
Proof.
  split; [| by repeat split].
  intros [| | | q] Hne; try done.
  unfold scoreToColor, scoreToRating, RATING_THRESHOLDS.
  cbn [lessThan atLeast max label].
  destruct (Qle_bool 8.5 q) eqn:H85, (Qle_bool 7 q) eqn:H7, (Qle_bool 5.5 q) eqn:H55,
    (Qle_bool 4 q) eqn:H4, (Qle_bool 2 q) eqn:H2, (Qle_bool 10 q) eqn:H10;
    try reflexivity; exfalso; order_facts; lra.
Qed.

Lemma rating_and_colour_agree_witness :
  scoreToColor (Finite 5.5) = color_of (scoreToRating (Finite 5.5)) /\
  scoreToRating (Finite 5.5) = "good"%string.
Proof.
  split; [| reflexivity].
  apply (proj1 rating_and_colour_agree). discriminate.
Defined.
